(** * Law-chat-bot front end: session/history manager, form handlers and
      the reconnecting news socket, embedded from [Frontend/js/chat.js].

    The file holds two controllers, [ChatInterface] and [DocumentProcessor];
    the document list of the documents page, [DocumentManager], comes from
    the script of that page.
    Each method that the properties below talk about is translated into a
    function over an explicit world (the controller object, local storage,
    the part of the document the method touches, the console and the
    network log).  Exceptions are results, [try]/[catch]/[finally] are
    combinators, and an [async] method is cut at its [await] into the part
    that runs at the call and the part that runs when the awaited promise
    settles.

    Part I holds the embedding and the notions the properties are stated
    with; Part II holds the properties and their proofs. *)

From Stdlib Require Import ZArith Lia Ascii String.
From stdpp Require Import gmap strings list countable sorting pretty.
From Stdlib Require Import Permutation.
From Stdlib Require QArith Qround.

#[local] Set Warnings "-register-all".
#[local] Open Scope Z_scope.


(* ================================================================== *)
(** * Part I. The embedding *)
(* ================================================================== *)

(* ------------------------------------------------------------------ *)
(** ** JavaScript values, exceptions and the effect monad *)
(* ------------------------------------------------------------------ *)

Module Js.

(** The values that flow through the modelled methods: what [JSON.parse]
    returns, what is stored in object fields, and [undefined]. Integers
    stand for the numbers (no modelled method computes with a number it
    reads from a value). An object is the list of its own properties in
    insertion order. *)
Inductive jsval :=
  | JUndefined
  | JNull
  | JBool (b : bool)
  | JNum (n : Z)
  | JStr (s : string)
  | JArr (xs : list jsval)
  | JObj (fields : list (string * jsval)).

#[global] Instance jsval_inhabited : Inhabited jsval := populate JUndefined.

Definition string_truthy (s : string) : bool :=
  match s with EmptyString => false | _ => true end.

(** ToBoolean. *)
Definition truthy (v : jsval) : bool :=
  match v with
  | JUndefined | JNull => false
  | JBool b => b
  | JNum n => negb (Z.eqb n 0)
  | JStr s => string_truthy s
  | JArr _ | JObj _ => true
  end.

Definition is_boolean (v : jsval) : bool :=
  match v with JBool _ => true | _ => false end.

Fixpoint assoc (k : string) (fs : list (string * jsval)) : option jsval :=
  match fs with
  | [] => None
  | (k', v) :: r => if String.eqb k k' then Some v else assoc k r
  end.

(** What the program throws or has thrown at it. [Error msg] is
    [new Error(msg)]; the others are raised by the platform. *)
Inductive exn :=
  | TypeError
  | SyntaxError
  | NetworkError
  | NotFoundError
  | Error (message : jsval).

Inductive res (A : Type) :=
  | Ret (a : A)
  | Throw (e : exn).

Arguments Ret {A} a.

Arguments Throw {A} e.

(** [v.k] for the property names this program reads ([role], [content],
    [ok], [summary], ...), none of which is a built-in property of an
    array, string, number or boolean. Reading a property of [undefined] or
    [null] is a TypeError. *)
Definition get_prop (v : jsval) (k : string) : res jsval :=
  match v with
  | JUndefined | JNull => Throw TypeError
  | JObj fs => Ret (default JUndefined (assoc k fs))
  | _ => Ret JUndefined
  end.

Definition is_digit (c : ascii) : bool :=
  (48 <=? nat_of_ascii c)%nat && (nat_of_ascii c <=? 57)%nat.

(** A property name that is no array index: objects list such
    properties in the order of their creation. *)
Definition plain_key (k : string) : bool :=
  match k with
  | String c _ => negb (is_digit c)
  | EmptyString => true
  end.

(** The values that [JSON.stringify] writes and [JSON.parse] reads back
    as they are: no [undefined] anywhere, numbers that a double holds
    exactly, objects whose property names are distinct and plain. *)
Fixpoint is_json (v : jsval) : bool :=
  match v with
  | JUndefined => false
  | JNum n => (- 2 ^ 53 <=? n) && (n <=? 2 ^ 53)
  | JArr xs => forallb is_json xs
  | JObj fs =>
      forallb (fun kv => plain_key (fst kv) && is_json (snd kv)) fs
      && bool_decide (NoDup (fst <$> fs))
  | _ => true
  end.

(** State and exception monad over a world [S]: a computation returns or
    throws, and in both cases leaves a world behind. *)
Definition M (S A : Type) : Type := S -> res A * S.

Section Monad.

Context {S : Type}.

Definition ret {A} (a : A) : M S A := fun w => (Ret a, w).

Definition throw {A} (e : exn) : M S A := fun w => (Throw e, w).

Definition bind {A B} (m : M S A) (k : A -> M S B) : M S B :=
  fun w => match m w with
           | (Ret a, w') => k a w'
           | (Throw e, w') => (Throw e, w')
           end.

Definition gets {A} (f : S -> A) : M S A := fun w => (Ret (f w), w).

Definition modify (f : S -> S) : M S unit := fun w => (Ret tt, f w).

Definition lift {A} (r : res A) : M S A := fun w => (r, w).

(** [try { body } catch (error) { handler }] *)
Definition try_catch {A} (body : M S A) (handler : exn -> M S A) : M S A :=
  fun w => match body w with
           | (Ret a, w') => (Ret a, w')
           | (Throw e, w') => handler e w'
           end.

(** [try { body } finally { fin }]: [fin] runs on both exits; if it
    throws, its exception replaces the outcome of [body]. *)
Definition try_finally {A} (body : M S A) (fin : M S unit) : M S A :=
  fun w => match body w with
           | (r, w') => match fin w' with
                        | (Ret _, w'') => (r, w'')
                        | (Throw e, w'') => (Throw e, w'')
                        end
           end.

Definition exec {A} (m : M S A) (w : S) : S := snd (m w).

Definition outcome {A} (m : M S A) (w : S) : res A := fst (m w).

End Monad.

Declare Scope js_scope.

Delimit Scope js_scope with js.

Notation "x ← y ; z" := (bind y (fun x => z))
  (at level 20, y at level 100, z at level 200, only parsing) : js_scope.

Notation "x ;; z" := (bind x (fun _ => z))
  (at level 100, z at level 200, only parsing, right associativity) : js_scope.

(** A relation between the world before and the world after that a
    computation respects, whether it returns or throws. *)
Definition preserves {S A} (R : S -> S -> Prop) (m : M S A) : Prop :=
  forall w, R w (exec m w).

Definition returns {A} (r : res A) : bool :=
  match r with Ret _ => true | Throw _ => false end.

(** Successive entries of a list of clock readings are at least [d]
    apart. *)
Fixpoint spaced (d : Z) (l : list Z) : Prop :=
  match l with
  | a :: r => match r with
              | b :: _ => d <= b - a
              | [] => True
              end /\ spaced d r
  | [] => True
  end.

(** How a request made with [fetch] and read with [response.json()]
    ends: [fetch] rejects, [response.json()] rejects, or the body parses to
    [data]. *)
Inductive fetch_outcome :=
  | FetchRejects
  | JsonRejects
  | Body (data : jsval).

(** The browser built-ins the program calls and that are not its code:
    [JSON.stringify], [JSON.parse] ([None] is the SyntaxError on a text that
    is not JSON), [Date.prototype.toISOString] of a clock reading, and
    [String.prototype.trim]. *)
Class Platform := mkPlatform {
  JSON_stringify : jsval -> string;
  JSON_parse : string -> option jsval;
  toISOString : Z -> string;
  trim : string -> string
}.

(** What is assumed of them: parsing the text [JSON.stringify] made of a
    JSON value gives the value back, and that text is never the empty
    string. *)
Class PlatformLaws (P : Platform) : Prop := mkPlatformLaws {
  JSON_parse_stringify :
    forall v, is_json v = true -> JSON_parse (JSON_stringify v) = Some v;
  JSON_stringify_nonempty :
    forall v, string_truthy (JSON_stringify v) = true
}.

End Js.
Export Js.
#[local] Open Scope js_scope.

(* ------------------------------------------------------------------ *)
(** ** A platform to run the model on *)
(* ------------------------------------------------------------------ *)

(** This platform serialises a value through its tree encoding into a
    text of binary digits behind a one-letter tag. It is not JSON syntax; it
    serves to run the model on concrete inputs and meets what is assumed of
    the built-ins. *)
Module RefPlatform.

Definition leaf : Type := bool + Z + string.

Fixpoint to_tree (v : jsval) : gen_tree leaf :=
  match v with
  | JUndefined => GenNode 0 []
  | JNull => GenNode 1 []
  | JBool b => GenLeaf (inl (inl b))
  | JNum n => GenLeaf (inl (inr n))
  | JStr s => GenLeaf (inr s)
  | JArr xs => GenNode 2 (map to_tree xs)
  | JObj fs =>
      GenNode 3 (map (fun kv => GenNode 4 [GenLeaf (inr (fst kv)); to_tree (snd kv)]) fs)
  end.

Fixpoint of_tree (t : gen_tree leaf) : option jsval :=
  match t with
  | GenNode 0 [] => Some JUndefined
  | GenNode 1 [] => Some JNull
  | GenLeaf (inl (inl b)) => Some (JBool b)
  | GenLeaf (inl (inr n)) => Some (JNum n)
  | GenLeaf (inr s) => Some (JStr s)
  | GenNode 2 ts => JArr <$> mapM of_tree ts
  | GenNode 3 ts =>
      JObj <$> mapM (fun t => match t with
                              | GenNode 4 [GenLeaf (inr k); t'] => pair k <$> of_tree t'
                              | _ => None
                              end) ts
  | _ => None
  end.

Fixpoint digits (p : positive) : string :=
  match p with
  | xH => EmptyString
  | xO q => String "0"%char (digits q)
  | xI q => String "1"%char (digits q)
  end.

Fixpoint undigits (s : string) : option positive :=
  match s with
  | EmptyString => Some xH
  | String c r =>
      if Ascii.eqb c "0"%char then xO <$> undigits r
      else if Ascii.eqb c "1"%char then xI <$> undigits r
      else None
  end.

Definition stringify (v : jsval) : string :=
  String "J"%char (digits (encode (to_tree v))).

Definition parse (s : string) : option jsval :=
  match s with
  | String c r =>
      if Ascii.eqb c "J"%char
      then match undigits r with
           | Some p => match decode p with
                       | Some t => of_tree t
                       | None => None
                       end
           | None => None
           end
      else None
  | EmptyString => None
  end.

Definition iso (t : Z) : string := String "T"%char (digits (encode t)).

(** Strips the blanks at both ends. *)
Fixpoint strip_left (s : string) : string :=
  match s with
  | String c r => if Ascii.eqb c " "%char then strip_left r else s
  | EmptyString => EmptyString
  end.

Definition strip (s : string) : string :=
  String.rev (strip_left (String.rev (strip_left s))).

Definition platform : Platform := mkPlatform stringify parse iso strip.

End RefPlatform.

(* ------------------------------------------------------------------ *)
(** ** ChatInterface: session, transcript, history list, health polling *)
(* ------------------------------------------------------------------ *)

Module Chat.

(** One entry of [chat.messages] in a conversation summary. *)
Record HistMsg := mkHistMsg {
  sender : string;
  hm_content : string;
  hm_timestamp : string
}.

(** One conversation summary of [this.chatHistory]. [lastUpdated] is
    written as [new Date().toISOString()] and only ever read back through
    [new Date(...)], which recovers the clock reading; the field keeps that
    reading (milliseconds). *)
Record ChatSummary := mkChatSummary {
  id : option string;
  title : string;
  cs_messages : list HistMsg;
  lastUpdated : Z
}.

(** The fields of a [ChatInterface] object that the modelled methods use.
    [cache] is [None] while the field is still undefined: the constructor
    assigns it in its last statement. The map holds the own properties of
    the object literal; a lookup in it is [this.cache[url]] for a [url] that
    is not the name of a property every object inherits, as the one URL the
    code asks for, [health_url], is not. *)
Record ChatInterface := mkChatInterface {
  currentChatId : option string;
  chatHistory : list ChatSummary;
  apiAvailable : jsval;
  sessionId : string;
  messages : jsval;
  lastApiCheck : Z;
  apiCheckInterval : Z;
  cache : option (gmap string jsval)
}.

(** A child of [#chatMessages] as [updateChatHistory] reads it. *)
Record MsgNode := mkMsgNode {
  is_user : bool;
  message_content : option string;
  message_timestamp : option string
}.

(** [#api-status]: its class name and the text of its [.status-text]
    child, if it has one. *)
Record Indicator := mkIndicator {
  className : string;
  status_text : option string
}.

(** The elements the methods look up; [None] is an element that is not in
    the page. [chat_messages] is [.chat-messages] with the (role, content)
    of each message div appended to it, [chatMessages] is [#chatMessages],
    [chatHistoryList] holds the ids of the rendered history items. The two
    message containers are looked up independently of each other. *)
Record Dom := mkDom {
  chat_messages : option (list (jsval * jsval));
  chatMessages : option (list MsgNode);
  currentChatTitle : option string;
  chatHistoryList : option (list (option string));
  api_status : option Indicator;
  chat_header : bool
}.

(** [clock] is the reading of [Date.now()] / [new Date()]; it is constant
    while a synchronous piece of code runs and moves between events.
    [network] lists the URLs handed to [fetch], oldest first. *)
Record World := mkWorld {
  this : ChatInterface;
  localStorage : gmap string string;
  dom : Dom;
  clock : Z;
  console : list string;
  network : list string
}.

Definition with_this (f : ChatInterface -> ChatInterface) (w : World) : World :=
  mkWorld (f (this w)) (localStorage w) (dom w) (clock w) (console w) (network w).

Definition with_storage (f : gmap string string -> gmap string string) (w : World) : World :=
  mkWorld (this w) (f (localStorage w)) (dom w) (clock w) (console w) (network w).

Definition with_dom (f : Dom -> Dom) (w : World) : World :=
  mkWorld (this w) (localStorage w) (f (dom w)) (clock w) (console w) (network w).

Definition with_clock (t : Z) (w : World) : World :=
  mkWorld (this w) (localStorage w) (dom w) t (console w) (network w).

Definition with_console (f : list string -> list string) (w : World) : World :=
  mkWorld (this w) (localStorage w) (dom w) (clock w) (f (console w)) (network w).

Definition with_network (f : list string -> list string) (w : World) : World :=
  mkWorld (this w) (localStorage w) (dom w) (clock w) (console w) (f (network w)).

Definition set_messages (v : jsval) (o : ChatInterface) : ChatInterface :=
  mkChatInterface (currentChatId o) (chatHistory o) (apiAvailable o) (sessionId o) v
        (lastApiCheck o) (apiCheckInterval o) (cache o).

Definition set_chatHistory (h : list ChatSummary) (o : ChatInterface) : ChatInterface :=
  mkChatInterface (currentChatId o) h (apiAvailable o) (sessionId o) (messages o)
        (lastApiCheck o) (apiCheckInterval o) (cache o).

Definition set_apiAvailable (v : jsval) (o : ChatInterface) : ChatInterface :=
  mkChatInterface (currentChatId o) (chatHistory o) v (sessionId o) (messages o)
        (lastApiCheck o) (apiCheckInterval o) (cache o).

Definition set_lastApiCheck (t : Z) (o : ChatInterface) : ChatInterface :=
  mkChatInterface (currentChatId o) (chatHistory o) (apiAvailable o) (sessionId o) (messages o)
        t (apiCheckInterval o) (cache o).

Definition set_cache (c : option (gmap string jsval)) (o : ChatInterface) : ChatInterface :=
  mkChatInterface (currentChatId o) (chatHistory o) (apiAvailable o) (sessionId o) (messages o)
        (lastApiCheck o) (apiCheckInterval o) c.

Definition set_chat_messages (c : option (list (jsval * jsval))) (d : Dom) : Dom :=
  mkDom c (chatMessages d) (currentChatTitle d) (chatHistoryList d)
        (api_status d) (chat_header d).

Definition set_chatHistoryList (l : option (list (option string))) (d : Dom) : Dom :=
  mkDom (chat_messages d) (chatMessages d) (currentChatTitle d) l
        (api_status d) (chat_header d).

Definition set_api_status (i : option Indicator) (d : Dom) : Dom :=
  mkDom (chat_messages d) (chatMessages d) (currentChatTitle d) (chatHistoryList d)
        i (chat_header d).

Definition getItem (k : string) : M World (option string) :=
  gets (fun w => localStorage w !! k).

Definition setItem (k v : string) : M World unit :=
  modify (with_storage (insert k v)).

Definition removeItem (k : string) : M World unit :=
  modify (with_storage (delete k)).

Definition console_log (line : string) : M World unit :=
  modify (with_console (fun c => c ++ [line])).

(** A value read with [getItem] used as a condition: a missing key is
    [null], a stored empty string is falsy as well. *)
Definition item_truthy (o : option string) : bool :=
  match o with Some s => string_truthy s | None => false end.

Section WithPlatform.
Context `{P : Platform}.

(** [generateSessionId]: [rnd] is the text
    [Math.random().toString(36).substr(2, 9)]. *)
Definition generateSessionId (rnd : string) : M World string :=
  let sessionId := "session_" +:+ rnd in
  setItem "chat_session_id" sessionId ;;
  ret sessionId.

Definition saveChatHistory : M World unit :=
  ms ← gets (fun w => messages (this w));
  setItem "chat_history" (JSON_stringify ms).

(** [Array.prototype.push] on [this.messages]; a value that is not an
    array has no [push]. *)
Definition messages_push (x : jsval) : M World unit :=
  ms ← gets (fun w => messages (this w));
  match ms with
  | JArr xs => modify (with_this (set_messages (JArr (xs ++ [x]))))
  | _ => throw TypeError
  end.

Definition message_obj (role content : jsval) (timestamp : string) : jsval :=
  JObj [("role", role); ("content", content); ("timestamp", JStr timestamp)].

Definition addMessage (role content : jsval) : M World unit :=
  chatContainer ← gets (fun w => chat_messages (dom w));
  match chatContainer with
  | None => ret tt
  | Some children =>
      modify (with_dom (set_chat_messages (Some (children ++ [(role, content)])))) ;;
      now ← gets clock;
      messages_push (message_obj role content (toISOString now)) ;;
      saveChatHistory
  end.

(** [this.messages.forEach(cb)] from index [k] for [n] more indices. The
    array that is walked is the one [this.messages] refers to, which [cb]
    may grow while the walk goes on: every step reads the element from the
    current array. The number of indices is fixed before the first call. *)
Fixpoint forEach_messages (n : nat) (k : nat) (cb : jsval -> M World unit)
  : M World unit :=
  match n with
  | O => ret tt
  | S n' =>
      ms ← gets (fun w => messages (this w));
      match ms with
      | JArr xs => match xs !! k with
                   | Some x => cb x
                   | None => ret tt
                   end
      | _ => ret tt
      end ;;
      forEach_messages n' (S k) cb
  end.

Definition replay (msg : jsval) : M World unit :=
  role ← lift (get_prop msg "role");
  content ← lift (get_prop msg "content");
  addMessage role content.

(** The [loadChatHistory] that is in force: the class body defines the
    method twice and the later definition replaces the earlier one. *)
Definition loadChatHistory : M World unit :=
  savedHistory ← getItem "chat_history";
  if item_truthy savedHistory then
    try_catch
      (match JSON_parse (default EmptyString savedHistory) with
       | None => throw SyntaxError
       | Some v =>
           modify (with_this (set_messages v)) ;;
           match v with
           | JArr xs => forEach_messages (length xs) 0 replay
           | _ => throw TypeError
           end
       end)
      (fun _ => console_log "Error loading chat history:")
  else ret tt.

(** [a] may stand before [b] when the history is ordered most recent
    first. *)
Definition by_recency (a b : ChatSummary) : Prop := lastUpdated b <= lastUpdated a.

#[global] Instance by_recency_dec a b : Decision (by_recency a b).
Proof. unfold by_recency. apply _. Defined.

(** [Array.prototype.sort] with the comparator
    [(a, b) => new Date(b.lastUpdated) - new Date(a.lastUpdated)]: the
    sort is stable, so the array it leaves is the one stable arrangement by
    decreasing [lastUpdated]; insertion from the right computes it. *)
Fixpoint sort_insert (x : ChatSummary) (l : list ChatSummary) : list ChatSummary :=
  match l with
  | [] => [x]
  | y :: r => if decide (by_recency x y) then x :: y :: r
              else y :: sort_insert x r
  end.

Definition sort_by_recency (l : list ChatSummary) : list ChatSummary :=
  foldr sort_insert [] l.

(** [updateChatHistoryList] as far as the history list is concerned: the
    items rendered are the summaries sorted most recent first. *)
Definition updateChatHistoryList : M World unit :=
  historyList ← gets (fun w => chatHistoryList (dom w));
  match historyList with
  | None => ret tt
  | Some _ =>
      h ← gets (fun w => chatHistory (this w));
      modify (with_dom (set_chatHistoryList (Some (id <$> sort_by_recency h))))
  end.

(** The earlier [loadChatHistory] of the class body, over the key
    [chatHistory]. The later definition replaces it, so no call reaches it;
    it is kept here for what its [catch] block does. It stores the parsed
    value in [this.chatHistory] as it is; [view] reads that value as a list
    of summaries. *)
Definition loadChatHistory_shadowed (view : jsval -> list ChatSummary)
  : M World unit :=
  try_catch
    (history ← getItem "chatHistory";
     if item_truthy history then
       match JSON_parse (default EmptyString history) with
       | None => throw SyntaxError
       | Some v =>
           modify (with_this (set_chatHistory (view v))) ;;
           updateChatHistoryList
       end
     else ret tt)
    (fun _ =>
       console_log "Error loading chat history:" ;;
       removeItem "chatHistory" ;;
       modify (with_this (set_chatHistory []))).

(** One child of [#chatMessages] turned into a summary message. Reading
    [.innerHTML] or [.textContent] of a part the child lacks is a
    TypeError. *)
Definition read_node (msg : MsgNode) : res HistMsg :=
  match message_content msg with
  | None => Throw TypeError
  | Some content =>
      match message_timestamp msg with
      | None => Throw TypeError
      | Some timestamp =>
          Ret (mkHistMsg (if is_user msg then "user" else "assistant")
                         content timestamp)
      end
  end.

(** [Array.from(chatMessages.children).map(...)] *)
Fixpoint read_nodes (l : list MsgNode) : res (list HistMsg) :=
  match l with
  | [] => Ret []
  | msg :: r =>
      match read_node msg with
      | Throw e => Throw e
      | Ret m => match read_nodes r with
                 | Throw e => Throw e
                 | Ret ms => Ret (m :: ms)
                 end
      end
  end.

Definition same_id (a b : option string) : bool := bool_decide (a = b).

(** [chatHistory.findIndex(chat => chat.id === currentChatId)], [None]
    for -1. *)
Fixpoint findIndex (cur : option string) (h : list ChatSummary) : option nat :=
  match h with
  | [] => None
  | chat :: r => if same_id (id chat) cur then Some O
                 else S <$> findIndex cur r
  end.

Definition histmsg_to_json (m : HistMsg) : jsval :=
  JObj [("sender", JStr (sender m)); ("content", JStr (hm_content m));
        ("timestamp", JStr (hm_timestamp m))].

Definition summary_to_json (c : ChatSummary) : jsval :=
  JObj [("id", match id c with Some s => JStr s | None => JNull end);
        ("title", JStr (title c));
        ("messages", JArr (histmsg_to_json <$> cs_messages c));
        ("lastUpdated", JStr (toISOString (lastUpdated c)))].

Definition history_to_json (h : list ChatSummary) : jsval :=
  JArr (summary_to_json <$> h).

(** [updateChatHistory] *)
Definition updateChatHistory : M World unit :=
  chatMessages ← gets (fun w => chatMessages (dom w));
  match chatMessages with
  | None => ret tt
  | Some children =>
      try_catch
        (messages ← lift (read_nodes children);
         chatTitle ← gets (fun w => currentChatTitle (dom w));
         let title := default "New Chat" chatTitle in
         if bool_decide (length messages <= 1)%nat then ret tt
         else
           cur ← gets (fun w => currentChatId (this w));
           now ← gets clock;
           h ← gets (fun w => chatHistory (this w));
           let entry := mkChatSummary cur title messages now in
           let h1 := match findIndex cur h with
                     | Some i => <[i := entry]> h
                     | None => h ++ [entry]
                     end in
           let h2 := take 20 (sort_by_recency h1) in
           modify (with_this (set_chatHistory h2)) ;;
           setItem "chatHistory" (JSON_stringify (history_to_json h2)) ;;
           updateChatHistoryList)
        (fun _ => console_log "Error updating chat history:")
  end.

Definition health_url : string := "http://localhost:5000/api/health".

(** What [await this.fetchWithCache(url)] waits for: a promise that is
    already rejected, the cached value, or a request on the network. *)
Inductive awaiting :=
  | AwaitRejected (e : exn)
  | AwaitCached (data : jsval)
  | AwaitFetch.

(** [fetchWithCache] up to its first [await]: an exception in an async
    function rejects its promise. The request leaves at the call. *)
Definition fetchWithCache_begin (url : string) : M World awaiting :=
  c ← gets (fun w => cache (this w));
  match c with
  | None => ret (AwaitRejected TypeError)
  | Some m =>
      let hit := default JUndefined (m !! url) in
      if truthy hit then ret (AwaitCached hit)
      else modify (with_network (fun n => n ++ [url])) ;; ret AwaitFetch
  end.

(** [fetchWithCache] from its [await]s to its end. *)
Definition fetchWithCache_resume (url : string) (a : awaiting) (o : fetch_outcome)
  : M World jsval :=
  match a with
  | AwaitRejected e => throw e
  | AwaitCached data => ret data
  | AwaitFetch =>
      match o with
      | FetchRejects => throw NetworkError
      | JsonRejects => throw SyntaxError
      | Body data =>
          c ← gets (fun w => cache (this w));
          match c with
          | None => throw TypeError
          | Some m =>
              modify (with_this (set_cache (Some (<[url := data]> m)))) ;;
              ret data
          end
      end
  end.

Definition updateApiStatusIndicator : M World unit :=
  statusElement ← gets (fun w => api_status (dom w));
  available ← gets (fun w => truthy (apiAvailable (this w)));
  let cls : string := if available then "status-indicator online"
                      else "status-indicator offline" in
  let text : string := if available then "Online" else "Offline" in
  match statusElement with
  | None =>
      chatHeader ← gets (fun w => chat_header (dom w));
      if chatHeader
      then modify (with_dom (set_api_status (Some (mkIndicator cls (Some text)))))
      else ret tt
  | Some el =>
      modify (with_dom (set_api_status (Some (mkIndicator cls (status_text el))))) ;;
      match status_text el with
      | None => throw TypeError
      | Some _ =>
          modify (with_dom (set_api_status (Some (mkIndicator cls (Some text)))))
      end
  end.

(** [checkApiAvailability] up to its [await]. [None]: the throttle
    returned before any request. *)
Definition checkApiAvailability_begin : M World (option awaiting) :=
  now ← gets clock;
  last ← gets (fun w => lastApiCheck (this w));
  interval ← gets (fun w => apiCheckInterval (this w));
  if (now - last <? interval) && negb (last =? 0) then ret None
  else
    modify (with_this (set_lastApiCheck now)) ;;
    a ← fetchWithCache_begin health_url;
    ret (Some a).

(** [checkApiAvailability] from its [await] on: the rest of the [try]
    block, and the [catch] block. The result is the value the promise
    resolves to. *)
Definition checkApiAvailability_resume (a : awaiting) (o : fetch_outcome)
  : M World jsval :=
  try_catch
    (response ← fetchWithCache_resume health_url a o;
     ok ← lift (get_prop response "ok");
     modify (with_this (set_apiAvailable ok)) ;;
     updateApiStatusIndicator ;;
     console_log "API status" ;;
     gets (fun w => apiAvailable (this w)))
    (fun _ =>
       console_log "Error checking API availability" ;;
       modify (with_this (set_apiAvailable (JBool false))) ;;
       updateApiStatusIndicator ;;
       ret (JBool false)).

(** The field initialisations at the head of the constructor (the
    fields the modelled methods use; [this.cache] is assigned last). *)
Definition constructor_fields (rnd : string) : M World unit :=
  stored ← getItem "chat_session_id";
  sessionId ← (if item_truthy stored
               then ret (default EmptyString stored)
               else generateSessionId rnd);
  modify (with_this (fun _ =>
    mkChatInterface None [] (JBool false) sessionId (JArr []) 0 30000 None)).

(** The constructor, without the listener and theme set-up calls, which
    neither throw nor touch a modelled field. The health check it starts
    finds [this.cache] still undefined; what that check awaits is handed
    back for the event loop to resume. *)
Definition constructor (rnd : string) : M World (option awaiting) :=
  constructor_fields rnd ;;
  loadChatHistory ;;
  a ← checkApiAvailability_begin;
  modify (with_this (set_cache (Some ∅))) ;;
  ret a.

(** *** Notions the properties are stated with *)

(** What the transcript methods leave alone: every key of local storage
    but [chat_history], and the session id. *)
Definition chat_frame (w w' : World) : Prop :=
  (forall k, k <> "chat_history" -> localStorage w' !! k = localStorage w !! k)
  /\ sessionId (this w') = sessionId (this w).

(** Elements whose properties can be read. *)
Definition has_props (x : jsval) : bool :=
  match x with JUndefined | JNull => false | _ => true end.

Definition prop_of (x : jsval) (k : string) : jsval :=
  match get_prop x k with Ret v => v | Throw _ => JUndefined end.

(** The message [replay] appends for a stored message when the clock
    reads [now]: same role and content, a new timestamp. *)
Definition restamp (now : Z) (x : jsval) : jsval :=
  message_obj (prop_of x "role") (prop_of x "content") (toISOString now).

Definition replay_all (zs : list jsval) (w : World) : World :=
  fold_left (fun w x => exec (replay x) w) zs w.

(** A sequence of [addMessage(role, content)] calls, each made when the
    clock reads [t]. *)
Definition addMessages (calls : list (Z * string * string)) (w : World) : World :=
  fold_left (fun w '(t, role, content) =>
               exec (addMessage (JStr role) (JStr content)) (with_clock t w))
            calls w.

Definition transcript (calls : list (Z * string * string)) : list jsval :=
  (fun '(t, role, content) =>
     message_obj (JStr role) (JStr content) (toISOString t)) <$> calls.

(** The ordered (role, content) pairs of a transcript value. *)
Definition pairs_of (v : jsval) : list (jsval * jsval) :=
  match v with
  | JArr xs => (fun x => (prop_of x "role", prop_of x "content")) <$> xs
  | _ => []
  end.

(** What the event loop does to the poller: an invocation of
    [checkApiAvailability] starts when the clock reads [now], or an
    invocation that is waiting is resumed with the way its request
    ended. *)
Inductive event :=
  | Start (now : Z)
  | Settle (a : awaiting) (o : fetch_outcome).

Definition step (ev : event) (w : World) : World :=
  match ev with
  | Start now => exec checkApiAvailability_begin (with_clock now w)
  | Settle a o => exec (checkApiAvailability_resume a o) w
  end.

Definition run (evs : list event) (w : World) : World := fold_left (fun w ev => step ev w) evs w.

(** The number of requests an event puts on the network. *)
Definition issued (ev : event) (w : World) : nat :=
  (length (network (step ev w)) - length (network w))%nat.

(** The start times of the invocations that issue a health request, in
    the order of the events. *)
Fixpoint request_times (evs : list event) (w : World) : list Z :=
  match evs with
  | [] => []
  | ev :: r =>
      match ev with
      | Start now => if bool_decide (issued ev w = 0)%nat then request_times r (step ev w)
                     else now :: request_times r (step ev w)
      | Settle _ _ => request_times r (step ev w)
      end
  end.

Definition nonzero_starts (evs : list event) : Prop :=
  forall now, In (Start now) evs -> now <> 0.

(** What resuming an invocation leaves alone. *)
Definition poll_frame (w w' : World) : Prop :=
  lastApiCheck (this w') = lastApiCheck (this w)
  /\ apiCheckInterval (this w') = apiCheckInterval (this w)
  /\ network w' = network w.

(** [updateApiStatusIndicator] can write the indicator: [#api-status] is
    not in the page yet, or it has its [.status-text] child. *)
Definition indicator_writable (d : Dom) : bool :=
  match api_status d with
  | Some el => match status_text el with Some _ => true | None => false end
  | None => true
  end.

(** The summaries a call that gets to the sort chooses from: the history
    in memory with the entry of the current chat replaced, or appended when
    there is none. *)
Definition candidates (w : World) (msgs : list HistMsg) : list ChatSummary :=
  let entry := mkChatSummary (currentChatId (this w))
                 (default "New Chat" (currentChatTitle (dom w))) msgs (clock w) in
  match findIndex (currentChatId (this w)) (chatHistory (this w)) with
  | Some i => <[i := entry]> (chatHistory (this w))
  | None => chatHistory (this w) ++ [entry]
  end.

(** The object [JSON.stringify] writes for one summary of
    [this.chatHistory]; [id] is [null] while no chat is current. *)
Definition stored_summary (id : option string) (title : string) (msgs : list HistMsg)
    (lastUpdated : Z) : jsval :=
  JObj [("id", match id with Some s => JStr s | None => JNull end);
        ("title", JStr title);
        ("messages",
         JArr ((fun m => JObj [("sender", JStr (sender m));
                               ("content", JStr (hm_content m));
                               ("timestamp", JStr (hm_timestamp m))]) <$> msgs));
        ("lastUpdated", JStr (toISOString lastUpdated))].

(** What is written for a history: the array of its summaries. *)
Definition stored_history (h : list ChatSummary) : jsval :=
  JArr ((fun c => stored_summary (id c) (title c) (cs_messages c) (lastUpdated c)) <$> h).

End WithPlatform.

(** *** Concrete pages *)

(** A page with the chat containers, the history list and the chat
    header in it, and a page with none of them. *)
Definition page_dom : Dom := mkDom (Some []) (Some []) None (Some []) None true.

Definition bare_dom : Dom := mkDom None None None None None false.

(** The object before the constructor has assigned its fields. *)
Definition unconstructed : ChatInterface :=
  mkChatInterface None [] JUndefined EmptyString JUndefined 0 0 None.

(** A browser that is about to construct the [ChatInterface]. *)
Definition browser (storage : gmap string string) (d : Dom) (t : Z) : World :=
  mkWorld unconstructed storage d t [] [].

(** A page load: the constructor runs. *)
Definition visit (rnd : string) (w : World) : World :=
  exec (constructor (P:=RefPlatform.platform) rnd) w.

(** One message is appended on a first visit; the page is then loaded
    again over the storage the first visit left, and has got to the call of
    [loadChatHistory] in its constructor. *)
Definition first_visit : World := visit "k3j9x2m1q" (browser ∅ page_dom 1000).

Definition one_call : list (Z * string * string) := [(1500, "user", "hi")].

Definition first_load : World := addMessages (P:=RefPlatform.platform) one_call first_visit.

Definition second_load : World :=
  exec (constructor_fields "zzzzzzzzz")
       (browser (localStorage first_load) page_dom 2000).

(** A page load over a stored transcript that is not JSON, at the call
    of [loadChatHistory]. *)
Definition corrupt_load : World :=
  exec (constructor_fields "k3j9x2m1q")
       (browser {["chat_history" := "{oops"]} page_dom 1000).

Definition bare_visit : World := visit "k3j9x2m1q" (browser ∅ bare_dom 1000).

(** The health endpoint answers with a body that has no [ok]. *)
Definition healthy_body : jsval := JObj [("status", JStr "healthy")].

(** After the visit at clock 1000, whose own check is rejected for want
    of a cache: a check gets past the throttle and its request fails, the
    next is throttled, the third starts ten seconds after the second and
    thirty-five after the first. *)
Definition two_checks : list event :=
  [Settle (AwaitRejected TypeError) FetchRejects;
   Start 100000; Settle AwaitFetch FetchRejects; Start 125000].

Definition three_checks : list event := two_checks ++ [Start 135000].

Definition after_two_checks : World := run two_checks first_visit.







End Chat.

(* ------------------------------------------------------------------ *)
(** ** DocumentProcessor: analysis and generation handlers *)
(* ------------------------------------------------------------------ *)

Module Doc.

(** One entry of the table in [getTemplateParameters]. *)
Record Param := mkParam {
  id : string;
  label : string;
  type : string
}.

(** What a handler has written into a result container. *)
Inductive markup :=
  | Untouched
  | AnalysisCard (summary : jsval) (key_points potential_issues : list jsval)
  | DocumentCard (document : jsval).

(** An element found by id: a form control, a button or a container. *)
Record Element := mkElement {
  value : string;
  classList : list string;
  disabled : bool;
  innerHTML : markup
}.

(** Where [.tab-content] is relative to [.main-card]. *)
Inductive tab_content :=
  | TabAbsent
  | TabInMainCard
  | TabElsewhere.

(** The text of an alert: a value, or a literal followed by
    [error.message]. *)
Inductive message :=
  | Msg (v : jsval)
  | ErrorMsg (prefix : string) (error : exn).

Record Request := mkRequest {
  url : string;
  method : string;
  body : string
}.

(** [main_card] lists the alerts inserted into [.main-card], oldest
    first, [None] when the page has no such element. [network] lists the
    requests handed to [fetch], oldest first. *)
Record World := mkWorld {
  translations : jsval;
  currentLanguage : string;
  currentJurisdiction : string;
  elements : gmap string Element;
  main_card : option (list message);
  tab_content_at : tab_content;
  network : list Request
}.

Definition with_elements (f : gmap string Element -> gmap string Element) (w : World) : World :=
  mkWorld (translations w) (currentLanguage w) (currentJurisdiction w)
          (f (elements w)) (main_card w) (tab_content_at w) (network w).

Definition with_main_card (c : option (list message)) (w : World) : World :=
  mkWorld (translations w) (currentLanguage w) (currentJurisdiction w)
          (elements w) c (tab_content_at w) (network w).

Definition with_network (f : list Request -> list Request) (w : World) : World :=
  mkWorld (translations w) (currentLanguage w) (currentJurisdiction w)
          (elements w) (main_card w) (tab_content_at w) (f (network w)).

Definition apiBaseUrl : string := "http://localhost:8000/api".

(** Whether a handler is done or waits for its request. *)
Inductive progress :=
  | Finished
  | Awaiting.

Definition getElementById (i : string) : M World (option Element) :=
  gets (fun w => elements w !! i).

(** [document.getElementById(i).value] *)
Definition value_of (i : string) : M World string :=
  el ← getElementById i;
  match el with
  | Some e => ret (value e)
  | None => throw TypeError
  end.

Definition fetch (r : Request) : M World unit :=
  modify (with_network (fun n => n ++ [r])).

(** [this.translations?.k] *)
Definition translation (t : jsval) (k : string) : jsval :=
  match t with
  | JUndefined | JNull => JUndefined
  | JObj fs => default JUndefined (assoc k fs)
  | _ => JUndefined
  end.

(** [this.translations?.k || fallback] *)
Definition translated (k : string) (fallback : message) : M World message :=
  t ← gets translations;
  let v := translation t k in
  ret (if truthy v then Msg v else fallback).

Definition showError (m : message) : M World unit :=
  card ← gets main_card;
  match card with
  | None => throw TypeError
  | Some alerts =>
      tab ← gets tab_content_at;
      match tab with
      | TabElsewhere => throw NotFoundError
      | _ => modify (with_main_card (Some (alerts ++ [m])))
      end
  end.

Definition add_class (c : string) (l : list string) : list string :=
  if bool_decide (c ∈ l) then l else l ++ [c].

Definition remove_class (c : string) (l : list string) : list string :=
  filter (fun x => x <> c) l.

Definition showLoading (elementId : string) : M World unit :=
  element ← getElementById elementId;
  match element with
  | Some e =>
      modify (with_elements (insert elementId
        (mkElement (value e) (add_class "loading" (classList e)) true (innerHTML e))))
  | None => ret tt
  end.

Definition hideLoading (elementId : string) : M World unit :=
  element ← getElementById elementId;
  match element with
  | Some e =>
      modify (with_elements (insert elementId
        (mkElement (value e) (remove_class "loading" (classList e)) false (innerHTML e))))
  | None => ret tt
  end.

Definition nda : list Param :=
  [ mkParam "party1" "First Party Name" "text";
    mkParam "party2" "Second Party Name" "text";
    mkParam "confidentiality_period" "Confidentiality Period (months)" "number";
    mkParam "purpose" "Purpose of Agreement" "text" ].

Definition contract : list Param :=
  [ mkParam "party1" "First Party Name" "text";
    mkParam "party2" "Second Party Name" "text";
    mkParam "service_description" "Service Description" "text";
    mkParam "payment_amount" "Payment Amount" "number";
    mkParam "payment_terms" "Payment Terms" "text" ].

Definition will : list Param :=
  [ mkParam "testator_name" "Testator Name" "text";
    mkParam "executor_name" "Executor Name" "text";
    mkParam "beneficiaries" "Beneficiaries (comma-separated)" "text";
    mkParam "assets" "Assets to Distribute" "text" ].

(** The keys every object literal inherits; under them the table holds
    a function or the prototype object, not an array. *)
Definition inherited_keys : list string :=
  [ "constructor"; "toString"; "toLocaleString"; "valueOf"; "hasOwnProperty";
    "isPrototypeOf"; "propertyIsEnumerable"; "__proto__"; "__defineGetter__";
    "__defineSetter__"; "__lookupGetter__"; "__lookupSetter__" ].

(** [getTemplateParameters]: [parameters[templateKey] || []]. [None] is
    the inherited value found under one of [inherited_keys], which has no
    [forEach]. *)
Definition getTemplateParameters (templateKey : string) : option (list Param) :=
  if String.eqb templateKey "nda" then Some nda
  else if String.eqb templateKey "contract" then Some contract
  else if String.eqb templateKey "will" then Some will
  else if bool_decide (templateKey ∈ inherited_keys) then None
  else Some [].

(** [parameters[k] = v] on an object literal. *)
Fixpoint obj_set (k : string) (v : jsval) (fs : list (string * jsval))
  : list (string * jsval) :=
  match fs with
  | [] => [(k, v)]
  | (k', v') :: r => if String.eqb k k' then (k, v) :: r
                     else (k', v') :: obj_set k v r
  end.

(** [s.replace(pat, rep)] for a text [pat] and a replacement without [$]:
    the first occurrence is replaced. *)
Fixpoint replace_first (pat rep s : string) : string :=
  if String.prefix pat s
  then rep +:+ String.substring (String.length pat) (String.length s - String.length pat) s
  else match s with
       | EmptyString => EmptyString
       | String c r => String c (replace_first pat rep r)
       end.

Section WithPlatform.
Context `{P : Platform}.

(** The message of the error thrown for an empty field:
    [this.translations?.pleaseFillInField.replace('{field}', param.label)
     || `Please fill in ${param.label}`]. *)
Definition fill_in_message (param : Param) : M World jsval :=
  t ← gets translations;
  let fallback := JStr ("Please fill in " +:+ label param) in
  match t with
  | JUndefined | JNull => ret fallback
  | _ =>
      match translation t "pleaseFillInField" with
      | JStr s =>
          let r := replace_first "{field}" (label param) s in
          ret (if string_truthy r then JStr r else fallback)
      | _ => throw TypeError
      end
  end.

(** The [forEach] over the template's parameters that fills the
    [parameters] object. *)
Fixpoint collect_parameters (ps : list Param) (parameters : list (string * jsval))
  : M World (list (string * jsval)) :=
  match ps with
  | [] => ret parameters
  | param :: r =>
      value ← value_of (id param);
      if string_truthy value
      then collect_parameters r (obj_set (id param) (JStr value) parameters)
      else (m ← fill_in_message param; throw (Error m))
  end.

Definition or_else (a b : string) : string := if string_truthy a then a else b.

(** [offerAudioVersion] up to its [await]: the request leaves at the
    call; the rest runs as a task of its own and touches no control. *)
Definition offerAudioVersion (text : jsval) : M World unit :=
  fetch (mkRequest (apiBaseUrl +:+ "/document/audio") "POST"
                   (JSON_stringify (JObj [("text", text)]))).

Definition as_array (v : jsval) : res (list jsval) :=
  match v with JArr xs => Ret xs | _ => Throw TypeError end.

Definition set_innerHTML (i : string) (m : markup) : M World unit :=
  el ← getElementById i;
  match el with
  | None => throw TypeError
  | Some e =>
      modify (with_elements (insert i
        (mkElement (value e) (classList e) (disabled e) m)))
  end.

Definition displayAnalysis (result : jsval) : M World unit :=
  container ← getElementById "analysis-result";
  match container with
  | None => throw TypeError
  | Some _ =>
      summary ← lift (get_prop result "summary");
      key_points ← lift (get_prop result "key_points");
      points ← lift (as_array key_points);
      potential_issues ← lift (get_prop result "potential_issues");
      issues ← lift (as_array potential_issues);
      set_innerHTML "analysis-result" (AnalysisCard summary points issues)
  end.

Definition displayGeneratedDocument (result : jsval) : M World unit :=
  container ← getElementById "generated-document";
  match container with
  | None => throw TypeError
  | Some _ =>
      document ← lift (get_prop result "document");
      set_innerHTML "generated-document" (DocumentCard document)
  end.

(** What [await fetch(...)] followed by [await response.json()] gives. *)
Definition awaited (o : fetch_outcome) : M World jsval :=
  match o with
  | FetchRejects => throw NetworkError
  | JsonRejects => throw SyntaxError
  | Body data => ret data
  end.

(** [handleDocumentAnalysis] up to its [await]. From [showLoading] on
    the code is inside the [try]; nothing there throws before the
    request is out. *)
Definition handleDocumentAnalysis_begin : M World progress :=
  documentText ← value_of "document-text";
  documentType ← value_of "document-type";
  jurisdiction ← value_of "document-jurisdiction";
  language ← value_of "document-language";
  if negb (string_truthy (trim documentText)) then
    m ← translated "pleaseEnterDocument"
          (Msg (JStr "Please enter or upload a document to analyze"));
    showError m ;;
    ret Finished
  else
    showLoading "analyze-document" ;;
    curJ ← gets currentJurisdiction;
    curL ← gets currentLanguage;
    fetch (mkRequest (apiBaseUrl +:+ "/document/analyze") "POST"
             (JSON_stringify (JObj
                [("document_text", JStr documentText);
                 ("document_type", JStr documentType);
                 ("jurisdiction", JStr (or_else jurisdiction curJ));
                 ("language", JStr (or_else language curL))]))) ;;
    ret Awaiting.

(** [handleDocumentAnalysis] from its [await] to its end. *)
Definition handleDocumentAnalysis_resume (o : fetch_outcome) : M World unit :=
  try_finally
    (try_catch
       (result ← awaited o;
        displayAnalysis result ;;
        summary ← lift (get_prop result "summary");
        offerAudioVersion summary)
       (fun error =>
          m ← translated "errorAnalyzingDocument"
                (ErrorMsg "Error analyzing document: " error);
          showError m))
    (hideLoading "analyze-document").

Definition generate_url : string := apiBaseUrl +:+ "/document/generate".

Definition generate_body (templateKey jurisdiction language : string)
    (parameters : list (string * jsval)) : jsval :=
  JObj [("template_key", JStr templateKey);
        ("jurisdiction", JStr jurisdiction);
        ("language", JStr language);
        ("parameters", JObj parameters)].

(** [handleDocumentGeneration] up to its [await]. *)
Definition handleDocumentGeneration_begin : M World progress :=
  templateKey ← value_of "template-select";
  jurisdiction ← value_of "jurisdiction";
  language ← value_of "document-language";
  if negb (string_truthy templateKey) || negb (string_truthy jurisdiction) then
    m ← translated "pleaseSelectTemplateAndJurisdiction"
          (Msg (JStr "Please select a template and specify jurisdiction"));
    showError m ;;
    ret Finished
  else
    match getTemplateParameters templateKey with
    | None => throw TypeError
    | Some ps =>
        parameters ← collect_parameters ps [];
        showLoading "generate-document" ;;
        curL ← gets currentLanguage;
        fetch (mkRequest generate_url "POST"
                 (JSON_stringify
                    (generate_body templateKey jurisdiction
                                   (or_else language curL) parameters))) ;;
        ret Awaiting
    end.

(** [handleDocumentGeneration] from its [await] to its end. *)
Definition handleDocumentGeneration_resume (o : fetch_outcome) : M World unit :=
  try_finally
    (try_catch
       (result ← awaited o;
        displayGeneratedDocument result ;;
        document ← lift (get_prop result "document");
        offerAudioVersion document)
       (fun error =>
          m ← translated "errorGeneratingDocument"
                (ErrorMsg "Error generating document: " error);
          showError m))
    (hideLoading "generate-document").

(** *** Notions the properties are stated with *)

(** The control, when it is in the page, is disabled and carries the
    class [loading]. *)
Definition loading (i : string) (w : World) : Prop :=
  forall el, elements w !! i = Some el ->
    disabled el = true /\ "loading" ∈ classList el.

(** The control, when it is in the page, is enabled and does not carry
    the class [loading]. *)
Definition cleared (i : string) (w : World) : Prop :=
  forall el, elements w !! i = Some el ->
    disabled el = false /\ "loading" ∉ classList el.

(** What a handler leaves alone when it ends before its request. *)
Definition quiet (w w' : World) : Prop :=
  elements w' = elements w /\ network w' = network w.

Definition generate_request (w : World) (templateKey jurisdiction language : string)
    (parameters : list (string * jsval)) : Request :=
  mkRequest generate_url "POST"
    (JSON_stringify (generate_body templateKey jurisdiction
                         (or_else language (currentLanguage w)) parameters)).

Definition analyze_request (w : World)
    (documentText documentType jurisdiction language : string) : Request :=
  mkRequest (apiBaseUrl +:+ "/document/analyze") "POST"
    (JSON_stringify (JObj
       [("document_text", JStr documentText);
        ("document_type", JStr documentType);
        ("jurisdiction", JStr (or_else jurisdiction (currentJurisdiction w)));
        ("language", JStr (or_else language (currentLanguage w)))])).

Definition audio_url : string := apiBaseUrl +:+ "/document/audio".

(** The generation requests in a network log. *)
Definition generation_requests (n : list Request) : list Request :=
  filter (fun r => url r = generate_url) n.

(** The network log grows by audio requests only. *)
Definition audio_only (w w' : World) : Prop :=
  exists extra, network w' = network w ++ extra
                /\ Forall (fun r => url r = audio_url) extra.

Definition nda_parameters (party1 party2 confidentiality_period purpose : string)
  : list (string * jsval) :=
  [("party1", JStr party1); ("party2", JStr party2);
   ("confidentiality_period", JStr confidentiality_period);
   ("purpose", JStr purpose)].

End WithPlatform.

(** *** Concrete forms *)

Definition control (v : string) : Element := mkElement v [] false Untouched.

(** The generation form with the NDA template selected and its four
    fields filled in; [jurisdiction] is the text of the jurisdiction
    field. *)
Definition nda_form (jurisdiction : string) : gmap string Element :=
  <["template-select" := control "nda"]>
  (<["jurisdiction" := control jurisdiction]>
  (<["document-language" := control "en"]>
  (<["party1" := control "Acme Ltd"]>
  (<["party2" := control "Bolt LLC"]>
  (<["confidentiality_period" := control "24"]>
  (<["purpose" := control "Evaluation of a merger"]>
  (<["generate-document" := control EmptyString]>
  (<["generated-document" := control EmptyString]> ∅)))))))).

Definition nda_page (jurisdiction : string) : World :=
  mkWorld JUndefined "en" "us" (nda_form jurisdiction) (Some []) TabInMainCard [].

End Doc.

(* ------------------------------------------------------------------ *)
(** ** DocumentProcessor: the reconnecting news socket *)
(* ------------------------------------------------------------------ *)

Module News.

(** The delay handed to [setTimeout] in the [onclose] handler. *)
Definition reconnect_delay : Z := 5000.

(** The news socket as the event loop sees it. [timers] holds the times
    at which the pending [setTimeout] callbacks fall due, [sockets] counts
    the sockets made by [setupNewsWebSocket] that have not closed yet
    (connecting or open; they carry the handlers it installs), [attempts]
    and [closures] record the clock at every [new WebSocket] and at every
    close event, oldest first. The [onmessage] and [onerror] handlers touch
    none of this. *)
Record State := mkState {
  now : Z;
  timers : list Z;
  sockets : nat;
  attempts : list Z;
  closures : list Z
}.

(** [setupNewsWebSocket]. [constructs] tells whether [new WebSocket]
    returns a socket; when it throws, the [catch] logs and nothing is
    installed. *)
Definition setupNewsWebSocket (constructs : bool) (s : State) : State :=
  mkState (now s) (timers s)
          (if constructs then S (sockets s) else sockets s)
          (attempts s ++ [now s]) (closures s).

(** The [onclose] handler:
    [setTimeout(() => this.setupNewsWebSocket(), 5000)]. *)
Definition onclose (s : State) : State :=
  mkState (now s) (timers s ++ [now s + reconnect_delay]) (sockets s)
          (attempts s) (closures s).

(** What happens to the client: an open socket closes, time passes, or
    the callback of the [i]-th pending timer runs. *)
Inductive event :=
  | Close
  | Elapse (d : Z)
  | Timeout (i : nat) (constructs : bool).

(** One event; [None] when it cannot happen: no socket is open, time
    would run backwards, or the timer is not there or not yet due. *)
Definition step (ev : event) (s : State) : option State :=
  match ev with
  | Close =>
      match sockets s with
      | O => None
      | S n => Some (onclose (mkState (now s) (timers s) n (attempts s)
                                      (closures s ++ [now s])))
      end
  | Elapse d =>
      if bool_decide (0 <= d)
      then Some (mkState (now s + d) (timers s) (sockets s) (attempts s) (closures s))
      else None
  | Timeout i constructs =>
      match timers s !! i with
      | Some due =>
          if bool_decide (due <= now s)
          then Some (setupNewsWebSocket constructs
                       (mkState (now s) (delete i (timers s)) (sockets s)
                                (attempts s) (closures s)))
          else None
      | None => None
      end
  end.

Fixpoint run (evs : list event) (s : State) : option State :=
  match evs with
  | [] => Some s
  | ev :: r => match step ev s with
               | Some s' => run r s'
               | None => None
               end
  end.

(** The client after the constructor's call of [setupNewsWebSocket],
    made when the clock reads [t0]. *)
Definition init (t0 : Z) (constructs : bool) : State :=
  setupNewsWebSocket constructs (mkState t0 [] 0 [] []).

(** [n] times: the socket closes, the delay passes, the timer's callback
    runs and the socket is constructed. *)
Fixpoint closures_and_retries (n : nat) : list event :=
  match n with
  | O => []
  | S n' => Close :: Elapse reconnect_delay :: Timeout 0 true :: closures_and_retries n'
  end.

(** [n] clock readings from [t] on, one delay apart. *)
Fixpoint times_from (t : Z) (n : nat) : list Z :=
  match n with
  | O => []
  | S n' => t :: times_from (t + reconnect_delay) n'
  end.

(** What holds of the client at all times: at most one socket is open or
    one timer pending, every closure has been answered by an attempt or has
    its timer pending, attempts lie in the past and a delay apart, and a
    pending timer falls due a delay after every attempt so far. *)
Definition invariant (s : State) : Prop :=
  (sockets s + length (timers s) <= 1)%nat
  /\ (length (attempts s) + length (timers s) = S (length (closures s)))%nat
  /\ spaced reconnect_delay (attempts s)
  /\ (forall a, a ∈ attempts s -> a <= now s)
  /\ (forall due a, due ∈ timers s -> a ∈ attempts s -> a + reconnect_delay <= due).

(** Two rounds of closure and retry after a construction at time 0. *)
Definition after_two_rounds : State :=
  mkState 10000 [] 1 [0; 5000; 10000] [0; 5000].

End News.

(* ------------------------------------------------------------------ *)
(** ** Parts shared by the models below *)
(* ------------------------------------------------------------------ *)

Module Focus.

(** A computation over a part [S] of a world [T], run on the world. *)
Definition zoom {S T A} (get : T -> S) (set : S -> T -> T) (m : M S A) : M T A :=
  fun t => match m (get t) with (r, s') => (r, set s' t) end.

(** Calling an [async] method without awaiting it: the caller gets a
    promise, and an exception of the method's synchronous part rejects the
    promise instead of reaching the caller. *)
Definition detached {S A} (m : M S A) : M S unit :=
  fun w => match m w with (_, w') => (Ret tt, w') end.

(** A computation with the way it ends as its result: what a promise
    settles to. *)
Definition settled {S A} (m : M S A) : M S (res A) :=
  fun w => match m w with (r, w') => (Ret r, w') end.

(** How a request made with [fetch] ends: [fetch] rejects, or it
    resolves to a response with its [ok] flag; [json] is what
    [response.json()] resolves to, [None] when it rejects. *)
Inductive response :=
  | Rejects
  | Status (ok : bool) (json : option jsval).

End Focus.
Export Focus.

(* ------------------------------------------------------------------ *)
(** ** Texts *)
(* ------------------------------------------------------------------ *)

Module Text.

(** A text is the sequence of its UTF-8 bytes. *)
Definition byte (n : nat) : ascii := ascii_of_nat n.

(** [div.textContent = input; return div.innerHTML]: the serialisation
    of a text node, which writes [&], [<], [>] and the no-break space
    (U+00A0, the bytes 194 160) as character references. *)
Fixpoint sanitizeInput (input : string) : string :=
  match input with
  | EmptyString => EmptyString
  | String c r =>
      if Ascii.eqb c "&" then "&amp;" +:+ sanitizeInput r
      else if Ascii.eqb c "<" then "&lt;" +:+ sanitizeInput r
      else if Ascii.eqb c ">" then "&gt;" +:+ sanitizeInput r
      else if Ascii.eqb c (byte 194) then
        match r with
        | String c' r' =>
            if Ascii.eqb c' (byte 160) then "&nbsp;" +:+ sanitizeInput r'
            else String c (sanitizeInput r)
        | EmptyString => String c EmptyString
        end
      else String c (sanitizeInput r)
  end.

(** The characters of a text. *)
Fixpoint chars (s : string) : list ascii :=
  match s with
  | EmptyString => []
  | String c r => c :: chars r
  end.

(** [s.length]: the number of UTF-16 code units, one for every character
    of one to three bytes and two for every character of four. *)
Fixpoint utf16_length (s : string) : nat :=
  match s with
  | EmptyString => O
  | String c r =>
      let n := nat_of_ascii c in
      ((if (128 <=? n) && (n <? 192) then 0 else if 240 <=? n then 2 else 1)
       + utf16_length r)%nat
  end.

(** Whether a value has a text, which a template literal and the
    concatenation with a text convert it to. A primitive has one. An object
    that [JSON.parse] made has the one it inherits unless it has a property
    [toString] of its own, which is no function: then the conversion finds
    nothing to call and throws a TypeError. An array has the texts of its
    elements joined, [null] and [undefined] counting as empty. *)
Fixpoint has_text (v : jsval) : bool :=
  match v with
  | JObj fs => match assoc "toString" fs with
               | Some _ => false
               | None => true
               end
  | JArr xs => forallb has_text xs
  | _ => true
  end.

End Text.

(* ------------------------------------------------------------------ *)
(** ** ChatInterface: sending a message, the typing indicator, offline
       mode *)
(* ------------------------------------------------------------------ *)

Module App.
Import Text.

(** A continuation that waits for the network or for a promise:
    a [checkApiAvailability] that waits for [fetchWithCache]; a
    [handleSendMessage] that waits for its [checkApiAvailability], which
    waits for [a] or, throttled, has resolved at once; one that waits for
    its [fetch] to the chat endpoint; and one that waits for
    [response.json()]. *)
Inductive task :=
  | Polling (a : Chat.awaiting)
  | SendChecking (message : string) (a : option Chat.awaiting)
  | SendPosting
  | SendReading.

(** Where the first element of class [chat-messages] inside
    [.chat-container] is: there is none, it is a child of the container, or
    it lies deeper. *)
Inductive placement :=
  | NoMessages
  | MessagesChild
  | MessagesDeeper.

(** The [ChatInterface] with the further parts the send path uses.
    [user_input] is the value of [#user-input] ([None]: not in the page),
    [typing] the number of elements of class [typing] in the page, [posts]
    the bodies of the requests made to the chat endpoint, oldest first,
    [chat_container] the first element of class [chat-container] by where
    its first descendant of class [chat-messages] is ([None]: no such
    element is in the page), [notices] the success alerts inserted so far
    (each removes itself five seconds later), [pending] the continuations
    that wait. *)
Record World := mkWorld {
  chat : Chat.World;
  offlineMode : bool;
  user_input : option string;
  typing : nat;
  posts : list string;
  chat_container : option placement;
  notices : list string;
  pending : list task
}.

Definition with_chat (f : Chat.World -> Chat.World) (w : World) : World :=
  mkWorld (f (chat w)) (offlineMode w) (user_input w) (typing w) (posts w)
          (chat_container w) (notices w) (pending w).

Definition set_offlineMode (b : bool) (w : World) : World :=
  mkWorld (chat w) b (user_input w) (typing w) (posts w)
          (chat_container w) (notices w) (pending w).

Definition set_user_input (v : option string) (w : World) : World :=
  mkWorld (chat w) (offlineMode w) v (typing w) (posts w)
          (chat_container w) (notices w) (pending w).

Definition set_typing (n : nat) (w : World) : World :=
  mkWorld (chat w) (offlineMode w) (user_input w) n (posts w)
          (chat_container w) (notices w) (pending w).

Definition with_posts (f : list string -> list string) (w : World) : World :=
  mkWorld (chat w) (offlineMode w) (user_input w) (typing w) (f (posts w))
          (chat_container w) (notices w) (pending w).

Definition with_notices (f : list string -> list string) (w : World) : World :=
  mkWorld (chat w) (offlineMode w) (user_input w) (typing w) (posts w)
          (chat_container w) (f (notices w)) (pending w).

Definition with_pending (f : list task -> list task) (w : World) : World :=
  mkWorld (chat w) (offlineMode w) (user_input w) (typing w) (posts w)
          (chat_container w) (notices w) (f (pending w)).

(** A method of the [Chat] model, run on the chat part. *)
Definition on_chat {A} (m : M Chat.World A) : M World A :=
  zoom chat (fun c => with_chat (fun _ => c)) m.

Definition await (t : task) : M World unit :=
  modify (with_pending (fun p => p ++ [t])).

Section WithPlatform.
Context `{P : Platform}.

(** [log(message, level)]: the console gets the message. A line is
    recorded by the literal part of its message, without what the source
    appends to it ([error.message], [data.response],
    [response.statusText]) and without its time stamp. *)
Definition log (message : string) : M World unit :=
  on_chat (Chat.console_log message).

Definition showTypingIndicator : M World unit :=
  chatContainer ← gets (fun w => Chat.chat_messages (Chat.dom (chat w)));
  match chatContainer with
  | None => ret tt
  | Some _ => modify (fun w => set_typing (S (typing w)) w)
  end.

Definition hideTypingIndicator : M World unit :=
  modify (fun w => set_typing (pred (typing w)) w).

(** [showSuccess(message)]: the alert is inserted before the message
    element, or first in a container that has none; [insertBefore] throws a
    NotFoundError when the message element is no child of the container. *)
Definition showSuccess (message : string) : M World unit :=
  container ← gets chat_container;
  match container with
  | None => ret tt
  | Some MessagesDeeper => throw NotFoundError
  | Some _ => modify (with_notices (fun n => n ++ [message]))
  end.

(** A call of [checkApiAvailability] that is not awaited: its part up to
    the [await] runs, the rest waits. *)
Definition checkApiAvailability : M World unit :=
  a ← on_chat Chat.checkApiAvailability_begin;
  match a with
  | Some a => await (Polling a)
  | None => ret tt
  end.

Definition chat_request (message sessionId : string) : string :=
  JSON_stringify (JObj [("message", JStr message); ("sessionId", JStr sessionId)]).

Definition server_offline : string :=
  "The server is currently offline. Please try again later.".

Definition request_error : string :=
  "Error processing your request. Please try again later.".

(** The [catch] block of [handleSendMessage]. *)
Definition send_failed (error : exn) : M World unit :=
  log "Error sending message: " ;;
  hideTypingIndicator ;;
  on_chat (Chat.addMessage (JStr "assistant") (JStr request_error)) ;;
  on_chat (modify (Chat.with_this (Chat.set_apiAvailable (JBool false)))) ;;
  on_chat Chat.updateApiStatusIndicator.

(** From [showTypingIndicator] to the [await] of the request. *)
Definition post (message : string) : M World unit :=
  showTypingIndicator ;;
  sessionId ← gets (fun w => Chat.sessionId (Chat.this (chat w)));
  modify (with_posts (fun p => p ++ [chat_request message sessionId])) ;;
  await SendPosting.

(** [handleSendMessage], the function handed to [debounce], up to its
    first [await]. *)
Definition handleSendMessage_begin : M World unit :=
  input ← gets user_input;
  match input with
  | None => throw TypeError
  | Some raw =>
      let rawMessage := trim raw in
      let message := sanitizeInput rawMessage in
      if negb (string_truthy message) then ret tt
      else
        on_chat (Chat.addMessage (JStr "user") (JStr message)) ;;
        log ("User sent a message: " +:+ message) ;;
        try_catch
          (available ← gets (fun w => Chat.apiAvailable (Chat.this (chat w)));
           if negb (truthy available) then
             a ← on_chat Chat.checkApiAvailability_begin;
             await (SendChecking message a)
           else post message)
          send_failed
  end.

(** From the [await] of the check on: [checked] is what the promise of
    [checkApiAvailability] settled to. *)
Definition handleSendMessage_checked (message : string) (checked : res jsval)
  : M World unit :=
  try_catch
    (apiAvailable ← lift checked;
     if negb (truthy apiAvailable) then
       on_chat (Chat.addMessage (JStr "assistant") (JStr server_offline))
     else post message)
    send_failed.

(** From the [await] of the request on; [None]: [fetch] rejects, [Some
    ok]: it resolves to a response with that [ok]. *)
Definition handleSendMessage_fetched (response : option bool) : M World unit :=
  try_catch
    (match response with
     | None => throw NetworkError
     | Some ok =>
         hideTypingIndicator ;;
         if ok then await SendReading
         else
           on_chat (Chat.addMessage (JStr "assistant") (JStr request_error)) ;;
           log "Error processing request: "
     end)
    send_failed.

(** [this.addMessage(role, content)] for a [content] that need not be a
    text: past the guard for the message container, the template converts
    [content] to text, which throws for a value that has none; what follows
    is [Chat.addMessage]. *)
Definition addMessage (role content : jsval) : M World unit :=
  chatContainer ← gets (fun w => Chat.chat_messages (Chat.dom (chat w)));
  match chatContainer with
  | None => ret tt
  | Some _ =>
      if has_text content then on_chat (Chat.addMessage role content)
      else throw TypeError
  end.

(** [this.log(prefix + v)]: the concatenation converts [v] to text. *)
Definition log_value (prefix : string) (v : jsval) : M World unit :=
  if has_text v then log prefix else throw TypeError.

(** From the [await] of [response.json()] on; [None]: it rejects. *)
Definition handleSendMessage_read (body : option jsval) : M World unit :=
  try_catch
    (match body with
     | None => throw SyntaxError
     | Some data =>
         response ← lift (get_prop data "response");
         addMessage (JStr "assistant") response ;;
         log_value "Assistant responded: " response
     end)
    send_failed.

Definition offline_enabled : string :=
  "Offline mode enabled. The application will not attempt to connect to the backend.".

Definition offline_disabled : string :=
  "Offline mode disabled. Attempting to connect to the backend...".

(** [this.offlineMode.toString()] *)
Definition bool_text (b : bool) : string := if b then "true" else "false".

Definition toggleOfflineMode : M World unit :=
  modify (fun w => set_offlineMode (negb (offlineMode w)) w) ;;
  mode ← gets offlineMode;
  on_chat (Chat.setItem "offlineMode" (bool_text mode)) ;;
  (if mode then
     on_chat (modify (Chat.with_this (Chat.set_apiAvailable (JBool false)))) ;;
     showSuccess offline_enabled
   else
     showSuccess offline_disabled ;;
     checkApiAvailability) ;;
  on_chat Chat.updateApiStatusIndicator.

(** The constructor's [this.offlineMode =
    localStorage.getItem('offlineMode') === 'true']. *)
Definition stored_offlineMode (storage : gmap string string) : bool :=
  bool_decide (storage !! "offlineMode" = Some "true").

(** The constructor as far as the send path goes: the offline mode is
    read from storage, and the health check the constructor starts
    waits. *)
Definition constructor (rnd : string) : M World unit :=
  storage ← gets (fun w => Chat.localStorage (chat w));
  modify (set_offlineMode (stored_offlineMode storage)) ;;
  a ← on_chat (Chat.constructor rnd);
  match a with
  | Some a => await (Polling a)
  | None => ret tt
  end.

(** What a continuation is resumed with: the way the health request
    ended, nothing (the awaited promise had resolved when it was awaited),
    the response of the chat endpoint, or its body. *)
Inductive input :=
  | Health (o : fetch_outcome)
  | Resolved
  | ChatResponse (response : option bool)
  | ChatBody (body : option jsval).

(** Resuming a continuation; [None] when the input is not what it waits
    for. *)
Definition resume (t : task) (i : input) : option (M World unit) :=
  match t, i with
  | Polling a, Health o =>
      Some (detached (on_chat (Chat.checkApiAvailability_resume a o)))
  | SendChecking message (Some a), Health o =>
      Some (checked ← settled (on_chat (Chat.checkApiAvailability_resume a o));
            handleSendMessage_checked message checked)
  | SendChecking message None, Resolved =>
      Some (handleSendMessage_checked message (Ret JUndefined))
  | SendPosting, ChatResponse response => Some (handleSendMessage_fetched response)
  | SendReading, ChatBody body => Some (handleSendMessage_read body)
  | _, _ => None
  end.

(** What happens to the page: the input is edited, the function
    [handleSendMessage] debounces runs, the offline mode is toggled,
    [checkApiAvailability] is called, or a continuation that waits goes
    on. *)
Inductive action :=
  | UserTypes (text : string)
  | UserSends
  | OfflineToggled
  | Polls
  | Resumes (k : nat) (i : input).

(** One event, at the clock reading [now]; [None] when it cannot happen.
    An exception that reaches the event loop is dropped there. *)
Definition step (now : Z) (act : action) (w : World) : option World :=
  let w := with_chat (Chat.with_clock now) w in
  match act with
  | UserTypes text =>
      match user_input w with
      | Some _ => Some (set_user_input (Some text) w)
      | None => None
      end
  | UserSends => Some (exec handleSendMessage_begin w)
  | OfflineToggled => Some (exec toggleOfflineMode w)
  | Polls => Some (exec checkApiAvailability w)
  | Resumes k i =>
      match pending w !! k with
      | Some t =>
          match resume t i with
          | Some m => Some (exec m (with_pending (delete k) w))
          | None => None
          end
      | None => None
      end
  end.

Fixpoint run (evs : list (Z * action)) (w : World) : option World :=
  match evs with
  | [] => Some w
  | (now, act) :: r =>
      match step now act w with
      | Some w' => run r w'
      | None => None
      end
  end.

(** *** Notions the properties are stated with *)

(** A health body whose [ok] is not truthy (or that has no properties at
    all). *)
Definition no_ok (data : jsval) : Prop := truthy (Chat.prop_of data "ok") = false.

Definition awaits_no_ok (a : Chat.awaiting) : Prop :=
  match a with
  | Chat.AwaitCached data => no_ok data
  | _ => True
  end.

Definition task_no_ok (t : task) : Prop :=
  match t with
  | Polling a => awaits_no_ok a
  | SendChecking _ (Some a) => awaits_no_ok a
  | _ => True
  end.

(** The flag is not truthy, and nothing cached or awaited can make it
    so. *)
Definition gated (w : World) : Prop :=
  truthy (Chat.apiAvailable (Chat.this (chat w))) = false
  /\ (forall m url data, Chat.cache (Chat.this (chat w)) = Some m ->
        m !! url = Some data -> no_ok data)
  /\ Forall task_no_ok (pending w).

(** What a continuation is resumed with shows no truthy [ok]. *)
Definition input_no_ok (i : input) : Prop :=
  match i with
  | Health (Body data) => no_ok data
  | _ => True
  end.

(** Nothing cached has a truthy [ok]. *)
Definition cache_no_ok (c : Chat.World) : Prop :=
  forall m url data, Chat.cache (Chat.this c) = Some m ->
    m !! url = Some data -> no_ok data.

(** The way a health request ends shows no truthy [ok]. *)
Definition outcome_no_ok (o : fetch_outcome) : Prop :=
  match o with
  | Body data => no_ok data
  | _ => True
  end.

(** A settled promise that did not resolve to a truthy value. *)
Definition not_truthy (r : res jsval) : Prop :=
  forall v, r = Ret v -> truthy v = false.

(** What leaves the flag and the cache alone. *)
Definition same_gate (c c' : Chat.World) : Prop :=
  Chat.apiAvailable (Chat.this c') = Chat.apiAvailable (Chat.this c)
  /\ Chat.cache (Chat.this c') = Chat.cache (Chat.this c).

(** What leaves the flag, the cache, the continuations and the requests
    to the chat endpoint alone. *)
Definition keeps_gate (w w' : World) : Prop :=
  same_gate (chat w) (chat w') /\ pending w' = pending w /\ posts w' = posts w.

(** What keeps a gated page gated and posts nothing on it. *)
Definition stays_gated (w w' : World) : Prop :=
  gated w -> gated w' /\ posts w' = posts w.

(** The health endpoint never answers with a truthy [ok]. *)
Definition health_without_ok (ev : Z * action) : Prop :=
  match ev with
  | (_, Resumes _ i) => input_no_ok i
  | _ => True
  end.

(** The content of the assistant message a send ends with when its
    request was answered with [ok]: the [response] of the body, or the error
    notice when the body cannot be read, has no properties, or has a
    [response] that has no text. *)
Definition reply (body : option jsval) : jsval :=
  match body with
  | Some data =>
      if Chat.has_props data && has_text (Chat.prop_of data "response")
      then Chat.prop_of data "response"
      else JStr request_error
  | None => JStr request_error
  end.

(** The chat part after [addMessage(role, content)] on a page that has
    the container, with the children [ch], and the array [xs] for a
    transcript. *)
Definition appended (role content : jsval) (ch : list (jsval * jsval)) (xs : list jsval)
    (c : Chat.World) : Chat.World :=
  let ms := JArr (xs ++ [Chat.message_obj role content (toISOString (Chat.clock c))]) in
  Chat.with_storage (insert "chat_history" (JSON_stringify ms))
    (Chat.with_this (Chat.set_messages ms)
       (Chat.with_dom (Chat.set_chat_messages (Some (ch ++ [(role, content)]))) c)).

(** What leaves the transcript and local storage alone. *)
Definition same_transcript (c c' : Chat.World) : Prop :=
  Chat.messages (Chat.this c') = Chat.messages (Chat.this c)
  /\ Chat.localStorage c' = Chat.localStorage c.

(** The transcript in memory, when it is an array. *)
Definition transcript (w : World) : list jsval :=
  match Chat.messages (Chat.this (chat w)) with
  | JArr xs => xs
  | _ => []
  end.

End WithPlatform.

(** *** A concrete page *)

(** A page with the chat containers and the input in it, before the
    constructor runs. *)
Definition fresh_page : World :=
  mkWorld (Chat.browser ∅ Chat.page_dom 1000) false (Some EmptyString) 0 []
          (Some MessagesChild) [] [].

(** The page is loaded at clock 1000. A question is typed and sent a
    second later, while the constructor's check still throttles the next
    one; it is sent again after the interval, and the health endpoint
    answers with a body that has no [ok]. *)
Definition two_sends : list (Z * action) :=
  [(1900, UserTypes "Is a verbal contract binding?");
   (2000, UserSends);
   (2000, Resumes 1 Resolved);
   (2100, Resumes 0 (Health FetchRejects));
   (40000, UserSends);
   (40500, Resumes 0 (Health (Body Chat.healthy_body)))].

Definition loaded_page : World :=
  exec (constructor (P:=RefPlatform.platform) "k3j9x2m1q") fresh_page.

Definition question : string := "Is a <b>verbal</b> contract binding?  ".

(** The loaded page with the question typed into the input, one second
    after the load. *)
Definition asking_page : World :=
  with_chat (Chat.with_clock 2000)
    (set_user_input (Some question) loaded_page).

(** The same page forty seconds after the load, with offline mode
    switched on in between. *)
Definition offline_page : World :=
  with_chat (Chat.with_clock 41000)
    (exec toggleOfflineMode asking_page).

End App.

(* ------------------------------------------------------------------ *)
(** ** ChatInterface: [debounce] *)
(* ------------------------------------------------------------------ *)

Module Debounce.

Section Debounced.

(** The arguments the debounced function is called with, and the [wait]
    handed to [debounce], an integer number of milliseconds. *)
Context {A : Type} (wait : Z).

(** What has happened to the function [debounce] returned: it was
    called, or the function it wraps was invoked. *)
Inductive entry :=
  | Called (at_ : Z) (args : A)
  | Invoked (at_ : Z) (args : A).

(** The closure [debounce] returns, as the event loop sees it. [timeout]
    is the closure's variable, [None] while it is undefined; [timers] holds
    the pending timers the closure has set, each with the time at which it
    falls due and the arguments its callback applies the function to;
    [next_timer] is the id the next [setTimeout] returns; [log] lists the
    calls and the invocations, oldest first. *)
Record State := mkState {
  now : Z;
  timeout : option nat;
  timers : gmap nat (Z * A);
  next_timer : nat;
  log : list entry
}.

(** The delay [setTimeout(cb, wait)] works with, for a [wait] that is an
    integer: the argument is converted to a 32-bit signed integer, which
    wraps it around, and a negative delay counts as none. *)
Definition to_int32 (n : Z) : Z :=
  let m := n mod 2 ^ 32 in
  if 2 ^ 31 <=? m then m - 2 ^ 32 else m.

Definition delay : Z := Z.max 0 (to_int32 wait).

(** [setTimeout(cb, wait)] runs [cb] no sooner than the delay from
    now. *)
Definition due_after (t : Z) : Z := t + delay.

(** [clearTimeout(timeout)]: an id that is undefined, or whose timer has
    run, clears nothing. *)
Definition clearTimeout (id : option nat) (ts : gmap nat (Z * A)) : gmap nat (Z * A) :=
  match id with
  | Some i => delete i ts
  | None => ts
  end.

(** A call of the function [debounce] returned. *)
Definition call (args : A) (s : State) : State :=
  let ts := clearTimeout (timeout s) (timers s) in
  mkState (now s) (Some (next_timer s))
          (<[next_timer s := (due_after (now s), args)]> ts)
          (S (next_timer s))
          (log s ++ [Called (now s) args]).

(** The callback of a timer: [func.apply(context, args)]. *)
Definition fire (i : nat) (args : A) (s : State) : State :=
  mkState (now s) (timeout s) (delete i (timers s)) (next_timer s)
          (log s ++ [Invoked (now s) args]).

Inductive event :=
  | Call (args : A)
  | Elapse (d : Z)
  | Fire (i : nat).

(** One event; [None] when it cannot happen: time would run backwards,
    or the timer is not pending or not yet due. *)
Definition step (ev : event) (s : State) : option State :=
  match ev with
  | Call args => Some (call args s)
  | Elapse d =>
      if bool_decide (0 <= d)
      then Some (mkState (now s + d) (timeout s) (timers s) (next_timer s) (log s))
      else None
  | Fire i =>
      match timers s !! i with
      | Some (due, args) => if bool_decide (due <= now s) then Some (fire i args s) else None
      | None => None
      end
  end.

Fixpoint run (evs : list event) (s : State) : option State :=
  match evs with
  | [] => Some s
  | ev :: r => match step ev s with
               | Some s' => run r s'
               | None => None
               end
  end.

(** The closure when [debounce] returns it, at the clock reading [t]. *)
Definition init (t : Z) : State := mkState t None ∅ 0 [].

(** Every invocation in the log comes directly after the call whose
    arguments it carries, and that call was made at least the delay
    before. *)
Definition settled_calls_only (l : list entry) : Prop :=
  forall before t args after, l = before ++ Invoked t args :: after ->
    exists earlier t0, before = earlier ++ [Called t0 args] /\ due_after t0 <= t.

(** What holds of the closure at all times: a pending timer is the one
    the variable names, it was set by the call the log ends with, and the
    log is as above. *)
Definition invariant (s : State) : Prop :=
  (forall i due args, timers s !! i = Some (due, args) ->
     timeout s = Some i
     /\ exists earlier t0, log s = earlier ++ [Called t0 args] /\ due = due_after t0)
  /\ settled_calls_only (log s).

(** A burst: calls that follow one another, each [d] milliseconds after
    the one before. *)
Fixpoint burst (cs : list (Z * A)) : list event :=
  match cs with
  | [] => []
  | (d, args) :: r => Elapse d :: Call args :: burst r
  end.

(** The log entries of a burst that starts at the clock reading [t]. *)
Fixpoint calls_from (t : Z) (cs : list (Z * A)) : list entry :=
  match cs with
  | [] => []
  | (d, args) :: r => Called (t + d) args :: calls_from (t + d) r
  end.

(** The arguments of the last call of a burst that begins with a call
    with [args]. *)
Definition final (args : A) (cs : list (Z * A)) : A :=
  default args (snd <$> last cs).

End Debounced.

Arguments entry A : clear implicits.
Arguments State A : clear implicits.
Arguments event A : clear implicits.

(** Three clicks on the send button within a fifth of a second, with the
    300 milliseconds [handleSendMessage] is debounced by; the arguments are
    the number of the click. *)
Definition three_clicks : list (event nat) :=
  [Call 1%nat; Elapse 100; Call 2%nat; Elapse 100; Call 3%nat; Elapse 300; Fire 2].

Definition after_three_clicks : State nat :=
  mkState 500 (Some 2%nat) ∅ 3
          [Called 0 1%nat; Called 100 2%nat; Called 200 3%nat; Invoked 500 3%nat].

End Debounce.

(* ------------------------------------------------------------------ *)
(** ** ChatInterface: new chat, cleared chat, preferences *)
(* ------------------------------------------------------------------ *)

Module Reset.

Definition newline : string := String (ascii_of_nat 10) EmptyString.

(** The lines of a template literal, joined as the source has them. *)
Definition lines (l : list string) : string := String.concat newline l.

(** The text of [showWelcomeMessage]. *)
Definition welcomeMessage : string :=
  lines
    [EmptyString;
     "            Hello! I'm your AI legal assistant. I can help you with:";
     "            <ul>";
     "                <li>General legal information and guidance</li>";
     "                <li>Document analysis and review</li>";
     "                <li>Case law research</li>";
     "                <li>Legal document generation</li>";
     "                <li>Connecting with legal professionals</li>";
     "            </ul>";
     "            Please note that I provide general information only and cannot replace professional legal advice.";
     "            How can I assist you today?";
     "        "].

(** The markup inside [.message-content] of the message [startNewChat]
    writes into [#chatMessages]. *)
Definition welcome_content : string :=
  lines
    [EmptyString;
     "                    <h4>Welcome to Ritvika Legal AI Assistant!</h4>";
     "                    <p>I'm here to help you with:</p>";
     "                    <ul>";
     "                        <li>Legal questions and guidance</li>";
     "                        <li>Document analysis and explanation</li>";
     "                        <li>Case law research</li>";
     "                        <li>Legal terminology clarification</li>";
     "                        <li>Basic legal procedures</li>";
     "                    </ul>";
     "                    <p>How can I assist you today?</p>";
     "                "].

(** The text of its [.message-timestamp]. *)
Definition welcome_timestamp : string :=
  lines
    [EmptyString;
     "                     Just now";
     "                "].


(** [#chat-container], when it is in the page, as what emptying it does
    to the elements of the model: those inside it leave the page. *)
Record World := mkWorld {
  chat : Chat.World;
  chat_container : option (Chat.Dom -> Chat.Dom)
}.

Definition with_chat (f : Chat.World -> Chat.World) (w : World) : World :=
  mkWorld (f (chat w)) (chat_container w).

Definition on_chat {A} (m : M Chat.World A) : M World A :=
  zoom chat (fun c => with_chat (fun _ => c)) m.

Definition set_currentChatId (i : option string) (o : Chat.ChatInterface)
  : Chat.ChatInterface :=
  Chat.mkChatInterface i (Chat.chatHistory o) (Chat.apiAvailable o) (Chat.sessionId o)
    (Chat.messages o) (Chat.lastApiCheck o) (Chat.apiCheckInterval o) (Chat.cache o).

Definition set_currentChatTitle (t : option string) (d : Chat.Dom) : Chat.Dom :=
  Chat.mkDom (Chat.chat_messages d) (Chat.chatMessages d) t (Chat.chatHistoryList d)
    (Chat.api_status d) (Chat.chat_header d).

Definition set_chatMessages (c : option (list Chat.MsgNode)) (d : Chat.Dom) : Chat.Dom :=
  Chat.mkDom (Chat.chat_messages d) c (Chat.currentChatTitle d) (Chat.chatHistoryList d)
    (Chat.api_status d) (Chat.chat_header d).

(** The one child [startNewChat] leaves in [#chatMessages]. *)
Definition welcome_node : Chat.MsgNode :=
  Chat.mkMsgNode false (Some welcome_content) (Some welcome_timestamp).

Section WithPlatform.
Context `{P : Platform}.

Definition showWelcomeMessage : M Chat.World unit :=
  Chat.addMessage (JStr "assistant") (JStr welcomeMessage).

(** [Date.now().toString()] is the decimal numeral of the clock. *)
Definition startNewChat : M Chat.World unit :=
  now ← gets Chat.clock;
  modify (Chat.with_this (set_currentChatId (Some (pretty now)))) ;;
  titleElement ← gets (fun w => Chat.currentChatTitle (Chat.dom w));
  (match titleElement with
   | Some _ => modify (Chat.with_dom (set_currentChatTitle (Some "New Chat")))
   | None => ret tt
   end) ;;
  chatMessages ← gets (fun w => Chat.chatMessages (Chat.dom w));
  match chatMessages with
  | None => ret tt
  | Some _ =>
      modify (Chat.with_dom (set_chatMessages (Some [welcome_node]))) ;;
      Chat.updateChatHistory
  end.

(** The [DOMContentLoaded] handler, as far as the model goes: the
    constructor, then [startNewChat] when no chat is current. *)
Definition on_load (rnd : string) : M Chat.World (option Chat.awaiting) :=
  a ← Chat.constructor rnd;
  cur ← gets (fun w => Chat.currentChatId (Chat.this w));
  (if Chat.item_truthy cur then ret tt else startNewChat) ;;
  ret a.

Definition clearCurrentChat : M World unit :=
  chatContainer ← gets chat_container;
  match chatContainer with
  | None => ret tt
  | Some emptied =>
      on_chat (modify (Chat.with_dom emptied)) ;;
      on_chat (modify (Chat.with_this (Chat.set_chatHistory []))) ;;
      on_chat Chat.saveChatHistory ;;
      on_chat showWelcomeMessage
  end.

(** What [clearCurrentChat] appends to the transcript: the welcome
    message, when the message container is still in the page after the
    emptying. *)
Definition welcome_after (emptied : Chat.Dom -> Chat.Dom) (c : Chat.World) : list jsval :=
  match Chat.chat_messages (emptied (Chat.dom c)) with
  | Some _ => [Chat.message_obj (JStr "assistant") (JStr welcomeMessage)
                 (toISOString (Chat.clock c))]
  | None => []
  end.

(** What leaves the current chat, the clock and the stored data alone. *)
Definition same_chat (c c' : Chat.World) : Prop :=
  Chat.currentChatId (Chat.this c') = Chat.currentChatId (Chat.this c)
  /\ Chat.clock c' = Chat.clock c.

End WithPlatform.

(** A page whose [#chat-container] holds [.chat-messages]: emptying it
    takes the message container out of the page. The transcript has one
    message. *)
Definition nested_page : World :=
  mkWorld (Chat.first_load) (Some (Chat.set_chat_messages None)).

End Reset.

(* ------------------------------------------------------------------ *)
(** ** ChatInterface: theme, language and jurisdiction *)
(* ------------------------------------------------------------------ *)

Module Prefs.

(** The preference fields of the [ChatInterface] and the elements that
    show them: whether [body] carries the class [dark-theme], the class name
    of the icon in [#theme-toggle] and the values assigned to the two
    selects ([None]: the element is not in the page). *)
Record World := mkWorld {
  chat : Chat.World;
  currentTheme : string;
  currentLanguage : string;
  currentJurisdiction : string;
  dark_theme : bool;
  theme_icon : option string;
  language_select : option string;
  jurisdiction_select : option string
}.

Definition with_chat (f : Chat.World -> Chat.World) (w : World) : World :=
  mkWorld (f (chat w)) (currentTheme w) (currentLanguage w) (currentJurisdiction w)
          (dark_theme w) (theme_icon w) (language_select w) (jurisdiction_select w).

Definition set_currentTheme (t : string) (w : World) : World :=
  mkWorld (chat w) t (currentLanguage w) (currentJurisdiction w)
          (dark_theme w) (theme_icon w) (language_select w) (jurisdiction_select w).

Definition set_currentLanguage (l : string) (w : World) : World :=
  mkWorld (chat w) (currentTheme w) l (currentJurisdiction w)
          (dark_theme w) (theme_icon w) (language_select w) (jurisdiction_select w).

Definition set_currentJurisdiction (j : string) (w : World) : World :=
  mkWorld (chat w) (currentTheme w) (currentLanguage w) j
          (dark_theme w) (theme_icon w) (language_select w) (jurisdiction_select w).

Definition set_theme_shown (dark : bool) (icon : option string) (w : World) : World :=
  mkWorld (chat w) (currentTheme w) (currentLanguage w) (currentJurisdiction w)
          dark icon (language_select w) (jurisdiction_select w).



Definition on_chat {A} (m : M Chat.World A) : M World A :=
  zoom chat (fun c => with_chat (fun _ => c)) m.

(** [localStorage.getItem(k) || fallback] *)
Definition stored_or (k fallback : string) : M World string :=
  v ← on_chat (Chat.getItem k);
  ret (if Chat.item_truthy v then default EmptyString v else fallback).

Definition setupTheme : M World unit :=
  theme ← gets currentTheme;
  let dark := String.eqb theme "dark" in
  themeIcon ← gets theme_icon;
  modify (set_theme_shown dark
            (match themeIcon with
             | Some _ => Some (if dark then "fas fa-sun" else "fas fa-moon")
             | None => None
             end)).


Section WithPlatform.
Context `{P : Platform}.



End WithPlatform.

(** The constructor's three preference fields, and its [setupTheme]. *)
Definition constructor : M World unit :=
  theme ← stored_or "theme" "light";
  modify (set_currentTheme theme) ;;
  language ← stored_or "chatLanguage" "en";
  modify (set_currentLanguage language) ;;
  jurisdiction ← stored_or "chatJurisdiction" "us";
  modify (set_currentJurisdiction jurisdiction) ;;
  setupTheme.



End Prefs.

(* ------------------------------------------------------------------ *)
(** ** DocumentProcessor: the news feed *)
(* ------------------------------------------------------------------ *)

Module NewsFeed.

(** [this.newsPage]: a number, or what the field holds before the
    constructor assigns it and what [++] makes of that. *)
Inductive page :=
  | Num (n : Z)
  | Undefined
  | NaN.

(** [this.newsPage++] *)
Definition increment (p : page) : page :=
  match p with
  | Num n => Num (n + 1)
  | _ => NaN
  end.

(** The page in a template literal. *)
Definition page_text (p : page) : string :=
  match p with
  | Num n => pretty n
  | Undefined => "undefined"
  | NaN => "NaN"
  end.

(** The [DocumentProcessor] with its news fields. [newsFeed] holds the
    items the children of [#newsFeed] were rendered from, first child first
    ([None]: the element is not in the page); [load_more_display] is the
    [style.display] of [#loadMoreNews], which is an element of [doc];
    [awaiting] counts the calls of [loadNewsFeed] that wait for their
    response; [notifications] lists the titles notified, [granted] is
    whether [Notification.permission] is ['granted']. *)
Record World := mkWorld {
  doc : Doc.World;
  newsPage : page;
  newsLoading : jsval;
  newsHasMore : jsval;
  newsFeed : option (list jsval);
  load_more_display : string;
  awaiting : nat;
  notifications : list jsval;
  granted : bool
}.

Definition with_doc (f : Doc.World -> Doc.World) (w : World) : World :=
  mkWorld (f (doc w)) (newsPage w) (newsLoading w) (newsHasMore w) (newsFeed w)
          (load_more_display w) (awaiting w) (notifications w) (granted w).

Definition set_newsPage (p : page) (w : World) : World :=
  mkWorld (doc w) p (newsLoading w) (newsHasMore w) (newsFeed w)
          (load_more_display w) (awaiting w) (notifications w) (granted w).

Definition set_newsLoading (v : jsval) (w : World) : World :=
  mkWorld (doc w) (newsPage w) v (newsHasMore w) (newsFeed w)
          (load_more_display w) (awaiting w) (notifications w) (granted w).

Definition set_newsHasMore (v : jsval) (w : World) : World :=
  mkWorld (doc w) (newsPage w) (newsLoading w) v (newsFeed w)
          (load_more_display w) (awaiting w) (notifications w) (granted w).

Definition set_newsFeed (f : option (list jsval)) (w : World) : World :=
  mkWorld (doc w) (newsPage w) (newsLoading w) (newsHasMore w) f
          (load_more_display w) (awaiting w) (notifications w) (granted w).

Definition set_awaiting (n : nat) (w : World) : World :=
  mkWorld (doc w) (newsPage w) (newsLoading w) (newsHasMore w) (newsFeed w)
          (load_more_display w) n (notifications w) (granted w).

Definition notify (title : jsval) (w : World) : World :=
  mkWorld (doc w) (newsPage w) (newsLoading w) (newsHasMore w) (newsFeed w)
          (load_more_display w) (awaiting w) (notifications w ++ [title]) (granted w).

Definition on_doc {A} (m : M Doc.World A) : M World A :=
  zoom doc (fun d => with_doc (fun _ => d)) m.

(** [document.getElementById('loadMoreNews').style.display = display] *)
Definition set_load_more_display (display : string) : M World unit :=
  el ← on_doc (Doc.getElementById "loadMoreNews");
  match el with
  | None => throw TypeError
  | Some _ =>
      modify (fun w => mkWorld (doc w) (newsPage w) (newsLoading w) (newsHasMore w)
                               (newsFeed w) display (awaiting w) (notifications w)
                               (granted w))
  end.

(** The properties the item template turns into text. *)
Definition item_fields : list string :=
  ["category"; "date"; "title"; "summary"; "jurisdiction"; "id"].

(** Filling the item template: every field is read from the item and
    converted to text, [date] by the [new Date(...)] of [formatDate]. A read
    on [null] or [undefined] throws a TypeError, and so does a value that
    has no text. *)
Fixpoint read_fields (item : jsval) (ks : list string) : res unit :=
  match ks with
  | [] => Ret tt
  | k :: r =>
      match get_prop item k with
      | Throw e => Throw e
      | Ret v => if Text.has_text v then read_fields item r else Throw TypeError
      end
  end.

Definition read_item (item : jsval) : res unit := read_fields item item_fields.

(** [newsItems.forEach(item => ...)] inside [displayNewsItems]: a div is
    appended for every item in turn. *)
Fixpoint append_items (items : list jsval) : M World unit :=
  match items with
  | [] => ret tt
  | item :: rest =>
      _ ← lift (read_item item);
      feed ← gets newsFeed;
      modify (set_newsFeed (Some (default [] feed ++ [item]))) ;;
      append_items rest
  end.

Definition displayNewsItems (newsItems : jsval) : M World unit :=
  newsFeed ← gets newsFeed;
  match newsFeed with
  | None => ret tt
  | Some _ =>
      match newsItems with
      | JArr items => append_items items
      | _ => throw TypeError
      end
  end.

Definition news_url (p : page) (category jurisdiction : string) : string :=
  Doc.apiBaseUrl +:+ "/news?page=" +:+ page_text p +:+ "&category=" +:+ category
  +:+ "&jurisdiction=" +:+ jurisdiction.

(** The [catch] and [finally] blocks of [loadNewsFeed]. *)
Definition load_failed (error : exn) : M World unit :=
  on_doc (Doc.showError (Doc.ErrorMsg "Error loading news: " error)).

Definition load_finally : M World unit :=
  modify (set_newsLoading (JBool false)) ;;
  on_doc (Doc.hideLoading "loadMoreNews").

(** [loadNewsFeed] up to its [await]. The call waits when the request is
    out; an exception before that runs the [catch] and [finally] blocks at
    once. *)
Definition loadNewsFeed_begin : M World unit :=
  loading ← gets newsLoading;
  more ← gets newsHasMore;
  if truthy loading || negb (truthy more) then ret tt
  else
    fun w =>
      match (modify (set_newsLoading (JBool true)) ;;
             on_doc (Doc.showLoading "loadMoreNews") ;;
             category ← on_doc (Doc.value_of "newsCategoryFilter");
             jurisdiction ← on_doc (Doc.value_of "newsJurisdictionFilter");
             p ← gets newsPage;
             on_doc (Doc.fetch (Doc.mkRequest (news_url p category jurisdiction)
                                              "GET" EmptyString)) ;;
             modify (fun w => set_awaiting (S (awaiting w)) w)) w with
      | (Ret _, w') => (Ret tt, w')
      | (Throw error, w') => try_finally (load_failed error) load_finally w'
      end.

(** [loadNewsFeed] from its [await]s on. The response and its body are
    awaited one after the other with nothing in between, so the two are
    taken in one step. *)
Definition loadNewsFeed_resume (o : fetch_outcome) : M World unit :=
  modify (fun w => set_awaiting (pred (awaiting w)) w) ;;
  try_finally
    (try_catch
       (result ← on_doc (Doc.awaited o);
        news ← lift (get_prop result "news");
        displayNewsItems news ;;
        has_more ← lift (get_prop result "has_more");
        modify (set_newsHasMore has_more) ;;
        modify (fun w => set_newsPage (increment (newsPage w)) w) ;;
        if negb (truthy has_more) then set_load_more_display "none" else ret tt)
       load_failed)
    load_finally.

Definition filterNews : M World unit :=
  feed ← gets newsFeed;
  match feed with
  | None => ret tt
  | Some _ =>
      modify (set_newsFeed (Some [])) ;;
      modify (set_newsPage (Num 1)) ;;
      modify (set_newsHasMore (JBool true)) ;;
      set_load_more_display "block" ;;
      detached loadNewsFeed_begin
  end.

(** The constructor as far as the feed goes: [setupNewsFeatures] calls
    [loadNewsFeed], and the three fields are assigned after it. *)
Definition constructor : M World unit :=
  detached loadNewsFeed_begin ;;
  modify (set_newsPage (Num 1)) ;;
  modify (set_newsLoading (JBool false)) ;;
  modify (set_newsHasMore (JBool true)).

(** [filter === 'all' || filter === newsItem.k] *)
Definition filter_passes (filter : string) (newsItem : jsval) (k : string) : res bool :=
  if String.eqb filter "all" then Ret true
  else match get_prop newsItem k with
       | Throw e => Throw e
       | Ret (JStr v) => Ret (String.eqb filter v)
       | Ret _ => Ret false
       end.

(** [handleNewNewsItem(newsItem)], the handler of an item pushed over
    the socket. *)
Definition handleNewNewsItem (newsItem : jsval) : M World unit :=
  category ← on_doc (Doc.value_of "newsCategoryFilter");
  jurisdiction ← on_doc (Doc.value_of "newsJurisdictionFilter");
  by_category ← lift (filter_passes category newsItem "category");
  by_jurisdiction ← (if by_category
                     then lift (filter_passes jurisdiction newsItem "jurisdiction")
                     else ret false);
  if by_category && by_jurisdiction then
    feed ← gets newsFeed;
    match feed with
    | None => ret tt
    | Some items =>
        _ ← lift (read_item newsItem);
        modify (set_newsFeed (Some (newsItem :: items))) ;;
        allowed ← gets granted;
        if allowed then
          title ← lift (get_prop newsItem "title");
          modify (notify title)
        else ret tt
    end
  else ret tt.

(** What happens to the feed. *)
Inductive event :=
  | LoadCalled
  | Filtered
  | Settled (o : fetch_outcome)
  | Pushed (newsItem : jsval).

(** One event; a response can only settle a call that waits. An
    exception that reaches the event loop is dropped there. *)
Definition step (ev : event) (w : World) : option World :=
  match ev with
  | LoadCalled => Some (exec loadNewsFeed_begin w)
  | Filtered => Some (exec filterNews w)
  | Settled o =>
      match awaiting w with
      | O => None
      | S _ => Some (exec (loadNewsFeed_resume o) w)
      end
  | Pushed newsItem => Some (exec (handleNewNewsItem newsItem) w)
  end.

Fixpoint run (evs : list event) (w : World) : option World :=
  match evs with
  | [] => Some w
  | ev :: r => match step ev w with
               | Some w' => run r w'
               | None => None
               end
  end.

(** *** Notions the properties are stated with *)

(** A call waits only while the loading flag is raised, and no more than
    one does. *)
Definition one_at_a_time (w : World) : Prop :=
  (awaiting w <= if truthy (newsLoading w) then 1 else 0)%nat.

(** An item the template can be filled from: its properties can be read
    and those the template uses have a text. *)
Definition renderable (item : jsval) : bool :=
  Chat.has_props item
  && forallb (fun k => Text.has_text (Chat.prop_of item k)) item_fields.

(** *** A concrete page *)

Definition filters (category jurisdiction : string) : gmap string Doc.Element :=
  <["newsCategoryFilter" := Doc.control category]>
  (<["newsJurisdictionFilter" := Doc.control jurisdiction]>
  (<["loadMoreNews" := Doc.control EmptyString]> ∅)).

(** The page before the constructor has assigned the news fields. *)
Definition unconstructed : World :=
  mkWorld (Doc.mkWorld JUndefined "en" "us" (filters "all" "all") (Some [])
                       Doc.TabInMainCard [])
          Undefined JUndefined JUndefined (Some []) EmptyString 0 [] false.

Definition constructed : World := exec constructor unconstructed.

Definition tax_item : jsval :=
  JObj [("id", JNum 7); ("category", JStr "tax"); ("jurisdiction", JStr "uk");
        ("title", JStr "New VAT thresholds")].

(** A first page of results, with more to come. *)
Definition first_page : jsval :=
  JObj [("news", JArr [tax_item]); ("has_more", JBool true)].

(** The constructed page after a filter was changed: the first load
    waits for its response. *)
Definition loading_page : World := exec filterNews constructed.

End NewsFeed.

(* ------------------------------------------------------------------ *)
(** ** DocumentProcessor: the FAQ histories *)
(* ------------------------------------------------------------------ *)

Module Faq.

Section WithPlatform.
Context `{P : Platform}.

(** The two history arrays of the [DocumentProcessor], first entry
    first, and [localStorage]. *)
Record World := mkWorld {
  searchHistory : list jsval;
  feedbackHistory : list jsval;
  localStorage : gmap string string
}.

Definition set_searchHistory (h : list jsval) (w : World) : World :=
  mkWorld h (feedbackHistory w) (localStorage w).

Definition set_feedbackHistory (h : list jsval) (w : World) : World :=
  mkWorld (searchHistory w) h (localStorage w).

Definition setItem (k v : string) : M World unit :=
  modify (fun w => mkWorld (searchHistory w) (feedbackHistory w)
                           (<[k := v]> (localStorage w))).

(** [Array.prototype.pop] *)
Definition pop (l : list jsval) : list jsval := removelast l.

Definition saveSearchHistory (query : string) : M World unit :=
  modify (fun w => set_searchHistory (JStr query :: searchHistory w) w) ;;
  h ← gets searchHistory;
  (if (10 <? length h)%nat then modify (set_searchHistory (pop h)) else ret tt) ;;
  h ← gets searchHistory;
  setItem "faqSearchHistory" (JSON_stringify (JArr h)).

Definition saveFeedbackHistory (feedback : jsval) : M World unit :=
  modify (fun w => set_feedbackHistory (feedback :: feedbackHistory w) w) ;;
  h ← gets feedbackHistory;
  (if (50 <? length h)%nat then modify (set_feedbackHistory (pop h)) else ret tt) ;;
  h ← gets feedbackHistory;
  setItem "faqFeedbackHistory" (JSON_stringify (JArr h)).

(** The constructor as far as the histories go: both start empty, and
    nothing reads what is stored. *)
Definition constructor : M World unit :=
  modify (set_searchHistory []) ;;
  modify (set_feedbackHistory []).

(** What is recorded after a page load. *)
Inductive entry :=
  | Searched (query : string)
  | Rated (feedback : jsval).

Definition record (e : entry) : M World unit :=
  match e with
  | Searched query => saveSearchHistory query
  | Rated feedback => saveFeedbackHistory feedback
  end.

Fixpoint record_all (es : list entry) : M World unit :=
  match es with
  | [] => ret tt
  | e :: r => record e ;; record_all r
  end.

(** *** Notions the properties are stated with *)

(** The queries and the feedbacks among the entries, latest first. *)
Definition queries (es : list entry) : list jsval :=
  rev (omap (fun e => match e with Searched q => Some (JStr q) | Rated _ => None end) es).

Definition feedbacks (es : list entry) : list jsval :=
  rev (omap (fun e => match e with Rated f => Some f | Searched _ => None end) es).

(** What is stored under a key once something was recorded under it. *)
Definition stored (k : string) (h : list jsval) (w : World) : Prop :=
  h <> [] -> localStorage w !! k = Some (JSON_stringify (JArr h)).

End WithPlatform.

End Faq.

(* ------------------------------------------------------------------ *)
(** ** DocumentProcessor: privacy settings and data deletion *)
(* ------------------------------------------------------------------ *)

Module Privacy.

Section WithPlatform.
Context `{P : Platform}.

(** [successes] lists the texts of the success alerts inserted into
    [.main-card], oldest first. [form] is [#privacySettingsForm] ([None]:
    not in the page) as the controls found in it by id: a checkbox with
    its [checked] state, the select with the value last assigned to it
    (the control holds the text of that value). *)
Record World := mkWorld {
  doc : Doc.World;
  successes : list string;
  form : option (gmap string jsval);
  localStorage : gmap string string
}.

Definition with_doc (f : Doc.World -> Doc.World) (w : World) : World :=
  mkWorld (f (doc w)) (successes w) (form w) (localStorage w).

Definition with_form (f : gmap string jsval -> gmap string jsval) (w : World) : World :=
  mkWorld (doc w) (successes w) (option_map f (form w)) (localStorage w).

Definition with_storage (f : gmap string string -> gmap string string) (w : World) : World :=
  mkWorld (doc w) (successes w) (form w) (f (localStorage w)).

Definition on_doc {A} (m : M Doc.World A) : M World A :=
  zoom doc (fun d => with_doc (fun _ => d)) m.

(** [showSuccess(message)]: the alert goes where [showError] puts its
    own. *)
Definition showSuccess (message : string) : M World unit :=
  card ← gets (fun w => Doc.main_card (doc w));
  match card with
  | None => throw TypeError
  | Some _ =>
      tab ← gets (fun w => Doc.tab_content_at (doc w));
      match tab with
      | Doc.TabElsewhere => throw NotFoundError
      | _ => modify (fun w => mkWorld (doc w) (successes w ++ [message]) (form w)
                                      (localStorage w))
      end
  end.

(** [form.querySelector('#' + id).p = settings[id]] for the property
    [p] that [convert] stands for; assigning to a property of [null] is a
    TypeError. *)
Definition assign (id : string) (convert : jsval -> res jsval) (settings : jsval)
    : M World unit :=
  f ← gets form;
  v ← lift (get_prop settings id);
  match f with
  | Some controls =>
      match controls !! id with
      | Some _ =>
          x ← lift (convert v);
          modify (with_form (insert id x))
      | None => throw TypeError
      end
  | None => throw TypeError
  end.

(** [checked] takes the value as a boolean. *)
Definition to_boolean (v : jsval) : res jsval := Ret (JBool (truthy v)).

(** [value] takes the value as a text, which a value that has none does
    not give; the form keeps the value the text is of. *)
Definition to_value (v : jsval) : res jsval :=
  if Text.has_text v then Ret v else Throw TypeError.

Definition applyPrivacySettings (settings : jsval) : M World unit :=
  f ← gets form;
  match f with
  | None => ret tt
  | Some _ =>
      assign "documentStorage" to_boolean settings ;;
      assign "analyticsConsent" to_boolean settings ;;
      assign "thirdPartySharing" to_boolean settings ;;
      assign "marketingConsent" to_boolean settings ;;
      assign "dataRetentionPeriod" to_value settings
  end.

Definition savePrivacySettingsToLocal (settings : jsval) : M World unit :=
  modify (with_storage (insert "privacySettings" (JSON_stringify settings))).

Definition loadPrivacySettings : M World unit :=
  savedSettings ← gets (fun w => localStorage w !! "privacySettings");
  match savedSettings with
  | Some text =>
      if string_truthy text then
        match JSON_parse text with
        | Some settings => applyPrivacySettings settings
        | None => throw SyntaxError
        end
      else ret tt
  | None => ret tt
  end.

Definition defaultSettings : jsval :=
  JObj [("documentStorage", JBool true);
        ("analyticsConsent", JBool true);
        ("thirdPartySharing", JBool false);
        ("marketingConsent", JBool false);
        ("dataRetentionPeriod", JStr "30days")].

Definition resetPrivacySettings : M World unit :=
  applyPrivacySettings defaultSettings ;;
  savePrivacySettingsToLocal defaultSettings.

Definition clearLocalStorage : M World unit :=
  modify (with_storage (fun _ => ∅)) ;;
  resetPrivacySettings.

(** [handleDataDeletion] up to its [await]; [confirmed] is the answer to
    the [confirm] dialog. *)
Definition handleDataDeletion_begin (confirmed : bool) : M World Doc.progress :=
  if negb confirmed then ret Doc.Finished
  else
    on_doc (Doc.fetch (Doc.mkRequest (Doc.apiBaseUrl +:+ "/privacy/delete-data")
                                     "POST" EmptyString)) ;;
    ret Doc.Awaiting.

(** The [catch] block of [handleDataDeletion]. *)
Definition handleDataDeletion_resume_handler (error : exn) : M World unit :=
  on_doc (Doc.showError (Doc.ErrorMsg "Error deleting data: " error)).

(** [handleDataDeletion] from its [await] on. *)
Definition handleDataDeletion_resume (r : response) : M World unit :=
  try_catch
    (match r with
     | Rejects => throw NetworkError
     | Status ok _ =>
         if ok then
           showSuccess "Your data has been deleted successfully" ;;
           clearLocalStorage ;;
           resetPrivacySettings
         else throw (Error (JStr "Failed to delete data"))
     end)
    handleDataDeletion_resume_handler.

(** *** Notions the properties are stated with *)

(** Whether an alert can be inserted into the page. *)
Definition can_alert (d : Doc.World) : bool :=
  match Doc.main_card d with
  | None => false
  | Some _ => match Doc.tab_content_at d with
              | Doc.TabElsewhere => false
              | _ => true
              end
  end.

Definition control_ids : list string :=
  ["documentStorage"; "analyticsConsent"; "thirdPartySharing"; "marketingConsent";
   "dataRetentionPeriod"].

(** The page has no settings form, or the form has its five controls. *)
Definition form_complete (f : option (gmap string jsval)) : bool :=
  match f with
  | None => true
  | Some controls => forallb (fun id => bool_decide (is_Some (controls !! id))) control_ids
  end.

End WithPlatform.

(** *** A concrete page *)

Definition settings_form : gmap string jsval :=
  <["documentStorage" := JBool false]>
  (<["analyticsConsent" := JBool false]>
  (<["thirdPartySharing" := JBool true]>
  (<["marketingConsent" := JBool true]>
  (<["dataRetentionPeriod" := JStr "1year"]> ∅)))).

Definition visited : World :=
  mkWorld (Doc.mkWorld JUndefined "en" "us" ∅ (Some []) Doc.TabInMainCard [])
          [] (Some settings_form)
          (<["chatHistory" := "[]"]> (<["theme" := "dark"]> ∅)).

Definition strict_settings : jsval :=
  JObj [("documentStorage", JBool false);
        ("analyticsConsent", JBool false);
        ("thirdPartySharing", JBool false);
        ("marketingConsent", JBool false);
        ("dataRetentionPeriod", JStr "7days")].

End Privacy.

(* ------------------------------------------------------------------ *)
(** ** DocumentProcessor: the star rating of a lawyer *)
(* ------------------------------------------------------------------ *)

Module Stars.
Import QArith Qround.
#[local] Open Scope Q_scope.

(** The three icons [generateStarRating] draws with. *)
Inductive icon :=
  | FullStar
  | HalfStar
  | EmptyStar.

(** What a call gives: the icons of the markup it returns, in the order
    of the text, or the RangeError that [Array(n)] raises for a length that
    is no array length. *)
Inductive drawn :=
  | Icons (l : list icon)
  | RangeError.

(** [Array(n).fill(x)] for an integer [n]. *)
Definition Array_fill (n : Z) (x : icon) : option (list icon) :=
  if ((0 <=? n) && (n <? 2 ^ 32))%Z then Some (replicate (Z.to_nat n) x) else None.

(** [rating % 1]: the remainder has the sign of the dividend. *)
Definition rem1 (rating : Q) : Q :=
  rating - inject_Z (if Qle_bool 0 rating then Qfloor rating else Qceiling rating).

(** [generateStarRating] for a rating that is a finite number; a double
    is a rational, and [Math.floor], [Math.ceil], [% 1] and the comparison
    are exact on it. *)
Definition generateStarRating (rating : Q) : drawn :=
  let fullStars := Qfloor rating in
  let hasHalfStar := Qle_bool (1 # 2) (rem1 rating) in
  let emptyStars := (5 - Qceiling rating)%Z in
  match Array_fill fullStars FullStar with
  | None => RangeError
  | Some full =>
      let half := if hasHalfStar then [HalfStar] else [] in
      match Array_fill emptyStars EmptyStar with
      | None => RangeError
      | Some empty => Icons (full ++ half ++ empty)
      end
  end.

(** The rating has a fractional part, and it is less than a half. *)
Definition small_fraction (rating : Q) : bool :=
  negb (Qle_bool (rem1 rating) 0) && negb (Qle_bool (1 # 2) (rem1 rating)).

End Stars.

(* ------------------------------------------------------------------ *)
(** ** DocumentManager: the document list of the documents page *)
(* ------------------------------------------------------------------ *)

Module Manager.

(** A [File] as far as the manager looks at it. *)
Record File := mkFile {
  name : string
}.

(** What is handed to [fetch]: the upload of a file
    ([POST apiUrl/documents/upload], the file as form data), the analysis of
    a document ([GET apiUrl/documents/<id>/analyze]) and the deletion of one
    ([DELETE apiUrl/documents/<id>]). *)
Inductive Request :=
  | Upload (file : File)
  | Analyze (documentId : jsval)
  | Delete (id : jsval).

(** [documents] is [this.documents]; [alerts] lists the texts handed to
    [alert], oldest first; [analysis_summary] and [analysis_points] are the
    text of [.analysis-summary p] and the items of
    [.analysis-details .list-group], [None] for an element that is not in
    the page. *)
Record World := mkWorld {
  documents : list jsval;
  alerts : list string;
  console : list string;
  network : list Request;
  analysis_summary : option jsval;
  analysis_points : option (list jsval)
}.

Definition with_documents (f : list jsval -> list jsval) (w : World) : World :=
  mkWorld (f (documents w)) (alerts w) (console w) (network w)
          (analysis_summary w) (analysis_points w).

Definition alert (text : string) : M World unit :=
  modify (fun w => mkWorld (documents w) (alerts w ++ [text]) (console w) (network w)
                           (analysis_summary w) (analysis_points w)).

Definition console_error (line : string) : M World unit :=
  modify (fun w => mkWorld (documents w) (alerts w) (console w ++ [line]) (network w)
                           (analysis_summary w) (analysis_points w)).

Definition fetch (r : Request) : M World unit :=
  modify (fun w => mkWorld (documents w) (alerts w) (console w) (network w ++ [r])
                           (analysis_summary w) (analysis_points w)).

(** Whether a handler is through or waits for its request. *)
Inductive progress (A : Type) :=
  | Finished
  | Awaiting (kept : A).

Arguments Finished {A}.

Arguments Awaiting {A} kept.

(** [String.prototype.toLowerCase] on the letters A to Z. A text is the
    sequence of its UTF-8 bytes; what the method does to other characters
    never yields one of the ASCII characters the suffixes below are made
    of. *)
Definition lower (c : ascii) : ascii :=
  let n := nat_of_ascii c in
  if ((65 <=? n) && (n <=? 90))%nat then ascii_of_nat (n + 32) else c.

Fixpoint toLowerCase (s : string) : string :=
  match s with
  | EmptyString => EmptyString
  | String c r => String (lower c) (toLowerCase r)
  end.

(** [s.endsWith(suffix)]: the text of the length of [suffix] that ends
    where [s] ends is [suffix]. *)
Definition endsWith (s suffix : string) : bool :=
  let n := String.length suffix in
  let l := String.length s in
  (n <=? l)%nat && String.eqb (String.substring (l - n) n s) suffix.

Definition validTypes : list string := [".pdf"; ".doc"; ".docx"; ".txt"].

Definition isValidFileType (file : File) : bool :=
  existsb (fun type => endsWith (toLowerCase (name file)) type) validTypes.

(** Calling a value: no value that [JSON.parse] gives is a function. *)
Definition call (f : jsval) : res jsval := Throw TypeError.

(** [v.m(...)] *)
Definition method (v : jsval) (m : string) : res jsval :=
  match get_prop v m with
  | Ret f => call f
  | Throw e => Throw e
  end.

(** [createDocumentCard(document)]: the parameter hides the page's
    [document], so [document.createElement] is looked up in the uploaded
    document's record. *)
Definition createDocumentCard (document : jsval) : M World jsval :=
  col ← lift (method document "createElement");
  title ← lift (get_prop document "title");
  uploadDate ← lift (get_prop document "uploadDate");
  previewButton ← lift (method col "querySelector");
  _ ← lift (method previewButton "addEventListener");
  deleteButton ← lift (method col "querySelector");
  _ ← lift (method deleteButton "addEventListener");
  ret col.

(** [addDocumentToList(document)]: here too [document] is the
    parameter. *)
Definition addDocumentToList (document : jsval) : M World unit :=
  documentList ← lift (method document "querySelector");
  documentCard ← createDocumentCard document;
  firstChild ← lift (get_prop documentList "firstChild");
  _ ← lift (method documentList "insertBefore");
  modify (with_documents (fun ds => ds ++ [document])).

Definition upload_failed : string := "Failed to upload document. Please try again.".

(** [uploadDocument] up to its [await]: the request leaves. *)
Definition uploadDocument_begin (file : File) : M World unit :=
  fetch (Upload file).

(** [uploadDocument] from its [await] on. *)
Definition uploadDocument_resume (o : response) : M World unit :=
  try_catch
    (match o with
     | Rejects => throw NetworkError
     | Status true None => throw SyntaxError
     | Status true (Some result) =>
         document ← lift (get_prop result "document");
         addDocumentToList document ;;
         alert "Document uploaded successfully!"
     | Status false _ => throw (Error (JStr "Failed to upload document"))
     end)
    (fun error =>
       console_error "Error uploading document:" ;;
       alert upload_failed).

Definition invalid_type (file : File) : string :=
  "Invalid file type: " +:+ name file
  +:+ ". Please upload PDF, DOC, DOCX, or TXT files only.".

(** [handleFileSelect(files)]: the loop awaits every upload before it
    goes on. [replies] holds the way the requests of this call end, in the
    order in which they are made; when it runs out the call waits for its
    request. Nothing else is taken to run while the call waits. *)
Fixpoint handleFileSelect (files : list File) (replies : list response)
  : M World (progress unit) :=
  match files with
  | [] => ret Finished
  | file :: rest =>
      if isValidFileType file then
        uploadDocument_begin file ;;
        match replies with
        | [] => ret (Awaiting tt)
        | o :: later =>
            uploadDocument_resume o ;;
            handleFileSelect rest later
        end
      else
        alert (invalid_type file) ;;
        handleFileSelect rest replies
  end.

(** [getCurrentDocumentId] *)
Definition getCurrentDocumentId : jsval := JNull.

Definition set_analysis (summary : jsval) (points : list jsval) (w : World) : World :=
  mkWorld (documents w) (alerts w) (console w) (network w) (Some summary) (Some points).

(** [displayAnalysisResults(analysis)] *)
Definition displayAnalysisResults (analysis : jsval) : M World unit :=
  summaryElement ← gets analysis_summary;
  keyPointsList ← gets analysis_points;
  summary ← lift (get_prop analysis "summary");
  match summaryElement with
  | None => throw TypeError
  | Some _ =>
      keyPoints ← lift (get_prop analysis "keyPoints");
      match keyPoints with
      | JArr points =>
          match keyPointsList with
          | None => throw TypeError
          | Some _ => modify (set_analysis summary points)
          end
      | _ => throw TypeError
      end
  end.

(** [analyzeCurrentDocument] up to its [await]. *)
Definition analyzeCurrentDocument_begin : M World (progress unit) :=
  let documentId := getCurrentDocumentId in
  if negb (truthy documentId) then
    alert "No document selected for analysis" ;;
    ret Finished
  else
    fetch (Analyze documentId) ;;
    ret (Awaiting tt).

(** [analyzeCurrentDocument] from its [await] on. *)
Definition analyzeCurrentDocument_resume (o : response) : M World unit :=
  try_catch
    (match o with
     | Rejects => throw NetworkError
     | Status true None => throw SyntaxError
     | Status true (Some analysis) => displayAnalysisResults analysis
     | Status false _ => throw (Error (JStr "Failed to analyze document"))
     end)
    (fun error =>
       console_error "Error analyzing document:" ;;
       alert "Failed to analyze document. Please try again.").

(** [doc.title === title] *)
Definition has_title (title : string) (doc : jsval) : res bool :=
  match get_prop doc "title" with
  | Ret (JStr t) => Ret (String.eqb t title)
  | Ret _ => Ret false
  | Throw e => Throw e
  end.

(** [this.documents.find(doc => doc.title === title)] *)
Fixpoint find_title (title : string) (docs : list jsval) : res (option jsval) :=
  match docs with
  | [] => Ret None
  | doc :: rest =>
      match has_title title doc with
      | Throw e => Throw e
      | Ret true => Ret (Some doc)
      | Ret false => find_title title rest
      end
  end.

(** [this.documents.filter(doc => doc.title !== title)] *)
Fixpoint without_title (title : string) (docs : list jsval) : res (list jsval) :=
  match docs with
  | [] => Ret []
  | doc :: rest =>
      match has_title title doc with
      | Throw e => Throw e
      | Ret same =>
          match without_title title rest with
          | Throw e => Throw e
          | Ret kept => Ret (if same then kept else doc :: kept)
          end
      end
  end.

Definition delete_failed : string := "Failed to delete document. Please try again.".

Definition delete_handler (error : exn) : M World unit :=
  console_error "Error deleting document:" ;;
  alert delete_failed.

(** [deleteDocument(title)] up to its [await]; [confirmed] is the answer
    to the [confirm] dialog. A call that waits keeps the record it found:
    the local [document], which hides the page's. *)
Definition deleteDocument_begin (title : string) (confirmed : bool)
  : M World (progress jsval) :=
  if confirmed then
    try_catch
      (docs ← gets documents;
       found ← lift (find_title title docs);
       match found with
       | None => ret Finished
       | Some document =>
           if negb (truthy document) then ret Finished
           else
             id ← lift (get_prop document "id");
             fetch (Delete id) ;;
             ret (Awaiting document)
       end)
      (fun error => delete_handler error ;; ret Finished)
  else ret Finished.

(** [deleteDocument] from its [await] on. *)
Definition deleteDocument_resume (title : string) (document : jsval) (o : response)
  : M World unit :=
  try_catch
    (match o with
     | Rejects => throw NetworkError
     | Status true _ =>
         title_node ← lift (method document "querySelector");
         card ← lift (method title_node "closest");
         _ ← lift (method card "remove");
         docs ← gets documents;
         kept ← lift (without_title title docs);
         modify (with_documents (fun _ => kept)) ;;
         alert "Document deleted successfully!"
     | Status false _ => throw (Error (JStr "Failed to delete document"))
     end)
    delete_handler.

(** The manager after its constructor; [summary] and [points] are the
    two analysis elements of the page. *)
Definition init (summary : option jsval) (points : option (list jsval)) : World :=
  mkWorld [] [] [] [] summary points.

(** What the event loop runs: the pieces of the handlers, in any
    order. *)
Inductive event :=
  | UploadStarts (file : File)
  | UploadSettles (o : response)
  | FileRefused (file : File)
  | AnalyzeClicked
  | AnalyzeSettles (o : response)
  | DeleteClicked (title : string) (confirmed : bool)
  | DeleteSettles (title : string) (document : jsval) (o : response).

Definition step (ev : event) (w : World) : World :=
  match ev with
  | UploadStarts file => exec (uploadDocument_begin file) w
  | UploadSettles o => exec (uploadDocument_resume o) w
  | FileRefused file => exec (alert (invalid_type file)) w
  | AnalyzeClicked => exec analyzeCurrentDocument_begin w
  | AnalyzeSettles o => exec (analyzeCurrentDocument_resume o) w
  | DeleteClicked title confirmed => exec (deleteDocument_begin title confirmed) w
  | DeleteSettles title document o => exec (deleteDocument_resume title document o) w
  end.

Definition run (evs : list event) (w : World) : World :=
  fold_left (fun w ev => step ev w) evs w.

Definition is_upload (r : Request) : Prop :=
  match r with Upload _ => True | _ => False end.

(** What the handlers keep: the list is empty and only uploads have been
    requested. *)
Definition unlisted (w : World) : Prop :=
  documents w = [] /\ Forall is_upload (network w).

(** The alert each chosen file ends with. *)
Definition alert_for (file : File) : string :=
  if isValidFileType file then upload_failed else invalid_type file.

(** Three files are chosen, the second of a type that is refused, and
    the server stores the other two. *)
Definition chosen : list File :=
  [mkFile "Lease.PDF"; mkFile "notes.md"; mkFile "will.docx"].

Definition stored (title : string) : response :=
  Status true (Some (JObj [("document", JObj [("id", JNum 1); ("title", JStr title)])])).

End Manager.

(* ================================================================== *)
(** * Part II. Properties *)
(* ================================================================== *)

(* ------------------------------------------------------------------ *)
(** ** The monad *)
(* ------------------------------------------------------------------ *)

Module JsFacts.

Section MonadEquations.

Context {S : Type}.

Lemma bind_ret_eq {A B} (m : M S A) (k : A -> M S B) w a w' :
  m w = (Ret a, w') -> bind m k w = k a w'.
Proof. intros H. unfold bind. rewrite H. reflexivity. Qed.

Lemma bind_throw_eq {A B} (m : M S A) (k : A -> M S B) w e w' :
  m w = (Throw e, w') -> bind m k w = (Throw e, w').
Proof. intros H. unfold bind. rewrite H. reflexivity. Qed.

Lemma try_catch_ret_eq {A} (body : M S A) handler w a w' :
  body w = (Ret a, w') -> try_catch body handler w = (Ret a, w').
Proof. intros H. unfold try_catch. rewrite H. reflexivity. Qed.

Lemma try_catch_throw_eq {A} (body : M S A) handler w e w' :
  body w = (Throw e, w') -> try_catch body handler w = handler e w'.
Proof. intros H. unfold try_catch. rewrite H. reflexivity. Qed.

Lemma try_finally_exec {A} (body : M S A) fin w :
  exec (try_finally body fin) w = exec fin (exec body w).
Proof.
  unfold exec, try_finally. destruct (body w) as [r w'].
  simpl. destruct (fin w') as [[u|e] w'']; reflexivity.
Qed.

End MonadEquations.

(** A relation between the world before and the world after that every
    step of a computation respects is respected by the computation,
    whether it returns or throws. *)
Section Preserves.

Context {S : Type} (R : S -> S -> Prop).

Hypothesis R_refl : forall w, R w w.

Hypothesis R_trans : forall w1 w2 w3, R w1 w2 -> R w2 w3 -> R w1 w3.

Lemma preserves_ret {A} (a : A) : preserves R (ret a).
Proof. intros w. apply R_refl. Qed.

Lemma preserves_throw {A} (e : exn) : preserves R (@throw S A e).
Proof. intros w. apply R_refl. Qed.

Lemma preserves_gets {A} (f : S -> A) : preserves R (gets f).
Proof. intros w. apply R_refl. Qed.

Lemma preserves_lift {A} (r : res A) : preserves R (@lift S A r).
Proof. intros w. apply R_refl. Qed.

Lemma preserves_modify (f : S -> S) :
  (forall w, R w (f w)) -> preserves R (modify f).
Proof. intros H w. apply H. Qed.

Lemma preserves_bind {A B} (m : M S A) (k : A -> M S B) :
  preserves R m -> (forall a, preserves R (k a)) -> preserves R (bind m k).
Proof.
  intros Hm Hk w. unfold exec, bind. specialize (Hm w). unfold exec in Hm.
  destruct (m w) as [[a|e] w']; simpl in *; [|exact Hm].
  eapply R_trans; [exact Hm|]. apply Hk.
Qed.

Lemma preserves_try_catch {A} (body : M S A) (handler : exn -> M S A) :
  preserves R body -> (forall e, preserves R (handler e)) ->
  preserves R (try_catch body handler).
Proof.
  intros Hb Hh w. unfold exec, try_catch. specialize (Hb w). unfold exec in Hb.
  destruct (body w) as [[a|e] w']; simpl in *; [exact Hb|].
  eapply R_trans; [exact Hb|]. apply Hh.
Qed.

Lemma preserves_try_finally {A} (body : M S A) (fin : M S unit) :
  preserves R body -> preserves R fin -> preserves R (try_finally body fin).
Proof.
  intros Hb Hf w. unfold exec, try_finally. specialize (Hb w). unfold exec in Hb.
  destruct (body w) as [r w']; simpl in *.
  specialize (Hf w'). unfold exec in Hf.
  destruct (fin w') as [[u|e] w'']; simpl in *; eapply R_trans; eauto.
Qed.

End Preserves.

Lemma spaced_snoc d l x :
  spaced d l -> (forall a, a ∈ l -> d <= x - a) -> spaced d (l ++ [x]).
Proof.
  induction l as [|a r IH]; intros Hs Hx; simpl.
  - auto.
  - destruct Hs as [Hh Hr]. split.
    + destruct r as [|b r']; simpl.
      * apply Hx. left.
      * exact Hh.
    + apply IH; [exact Hr|]. intros a' Ha'. apply Hx. right. exact Ha'.
Qed.

End JsFacts.
Import JsFacts.

(* ------------------------------------------------------------------ *)
(** ** The platform instance meets the assumptions *)
(* ------------------------------------------------------------------ *)

Module RefPlatformFacts.
Import RefPlatform.

Lemma of_to_tree : forall v, of_tree (to_tree v) = Some v.
Proof.
  fix IH 1. intros [| | b | n | s | xs | fs]; simpl; try reflexivity.
  - assert (H : mapM of_tree (map to_tree xs) = Some xs).
    { induction xs as [|x xs IHxs]; [reflexivity|].
      simpl. rewrite IH. simpl. rewrite IHxs. reflexivity. }
    rewrite H. reflexivity.
  - match goal with |- JObj <$> ?m = _ => assert (H : m = Some fs) end.
    { induction fs as [|[k x] fs IHfs]; [reflexivity|].
      simpl. rewrite IH. simpl. rewrite IHfs. reflexivity. }
    rewrite H. reflexivity.
Qed.

Lemma undigits_digits p : undigits (digits p) = Some p.
Proof. induction p; simpl; rewrite ?IHp; reflexivity. Qed.

Lemma parse_stringify v : parse (stringify v) = Some v.
Proof.
  unfold parse, stringify. simpl. rewrite undigits_digits. simpl.
  rewrite decode_encode. simpl. apply of_to_tree.
Qed.

#[global] Instance laws : PlatformLaws platform :=
  mkPlatformLaws platform (fun v _ => parse_stringify v) (fun _ => eq_refl).

End RefPlatformFacts.

(* ------------------------------------------------------------------ *)
(** ** ChatInterface *)
(* ------------------------------------------------------------------ *)

Module ChatSpec.
Import Chat.

Section WithPlatform.
Context `{P : Platform} {PL : PlatformLaws P}.

Ltac mrun :=
  repeat (unfold bind, ret, gets, modify, lift, throw, try_catch, getItem,
            setItem, removeItem, console_log; simpl).

Lemma chat_frame_refl w : chat_frame w w.
Proof. split; [intros k _|]; reflexivity. Qed.

Lemma chat_frame_trans w1 w2 w3 :
  chat_frame w1 w2 -> chat_frame w2 w3 -> chat_frame w1 w3.
Proof.
  intros [H12 S12] [H23 S23]. split; [|congruence].
  intros k Hk. rewrite (H23 k Hk). apply H12, Hk.
Qed.

Ltac framed :=
  repeat first
    [ match goal with
      | |- forall _, _ => intro
      | |- preserves _ (ret _) => apply (preserves_ret chat_frame chat_frame_refl)
      | |- preserves _ (throw _) => apply (preserves_throw chat_frame chat_frame_refl)
      | |- preserves _ (gets _) => apply (preserves_gets chat_frame chat_frame_refl)
      | |- preserves _ (lift _) => apply (preserves_lift chat_frame chat_frame_refl)
      | |- preserves _ (bind _ _) => apply (preserves_bind chat_frame chat_frame_trans)
      | |- preserves _ (try_catch _ _) =>
          apply (preserves_try_catch chat_frame chat_frame_trans)
      | |- preserves _ (match ?x with _ => _ end) => destruct x
      end ].

Lemma frame_setItem_chat_history v :
  preserves chat_frame (setItem "chat_history" v).
Proof.
  apply preserves_modify. intros w. split; [|reflexivity].
  intros k Hk. simpl. rewrite lookup_insert_ne; [reflexivity | congruence].
Qed.

Lemma chat_frame_same w w' :
  localStorage w' = localStorage w -> sessionId (this w') = sessionId (this w) ->
  chat_frame w w'.
Proof. intros Hs Hi. split; [intros k _; rewrite Hs|]; auto. Qed.

Lemma frame_with_dom f : preserves chat_frame (modify (with_dom f)).
Proof. apply preserves_modify. intros w. apply chat_frame_same; reflexivity. Qed.

Lemma frame_with_console f : preserves chat_frame (modify (with_console f)).
Proof. apply preserves_modify. intros w. apply chat_frame_same; reflexivity. Qed.

Lemma frame_set_messages v : preserves chat_frame (modify (with_this (set_messages v))).
Proof. apply preserves_modify. intros w. apply chat_frame_same; reflexivity. Qed.

Lemma addMessage_frame role content : preserves chat_frame (addMessage role content).
Proof.
  unfold addMessage, messages_push, saveChatHistory. framed;
    first [ apply frame_with_dom | apply frame_set_messages
          | apply frame_setItem_chat_history ].
Qed.

Lemma replay_frame msg : preserves chat_frame (replay msg).
Proof. unfold replay. framed. apply addMessage_frame. Qed.

Lemma forEach_replay_frame n : forall k,
  preserves chat_frame (forEach_messages n k replay).
Proof.
  induction n as [|n IH]; intros k; simpl; framed; auto using replay_frame.
Qed.

Lemma loadChatHistory_frame : preserves chat_frame loadChatHistory.
Proof.
  unfold loadChatHistory, getItem, console_log. framed;
    first [ apply frame_set_messages | apply frame_with_console
          | apply forEach_replay_frame ].
Qed.

(** [loadChatHistory] hands no exception to its caller. *)
Lemma loadChatHistory_returns w : outcome loadChatHistory w = Ret tt.
Proof.
  unfold outcome, loadChatHistory, getItem. unfold bind at 1, gets at 1. simpl.
  destruct (item_truthy _); [|reflexivity].
  match goal with |- context [try_catch ?b ?h] =>
    unfold try_catch; destruct (b w) as [[[]|e] w1] end; reflexivity.
Qed.

(** With the container in the page and an array in [this.messages], a
    call appends one message object stamped with the clock, renders one
    div and rewrites the stored transcript. *)
Lemma addMessage_appends role content w children xs :
  chat_messages (dom w) = Some children ->
  messages (this w) = JArr xs ->
  let ms := JArr (xs ++ [message_obj role content (toISOString (clock w))]) in
  addMessage role content w =
    (Ret tt,
     with_storage (insert "chat_history" (JSON_stringify ms))
       (with_this (set_messages ms)
          (with_dom (set_chat_messages (Some (children ++ [(role, content)]))) w))).
Proof.
  intros Hc Hm. unfold addMessage, messages_push. mrun. rewrite Hc. mrun.
  rewrite Hm. mrun. reflexivity.
Qed.

Lemma replay_step x w zs :
  has_props x = true -> messages (this w) = JArr zs ->
  replay x w = (Ret tt, exec (replay x) w)
  /\ exists tl, messages (this (exec (replay x) w)) = JArr (zs ++ tl).
Proof.
  intros Hx Hm. unfold exec, replay, addMessage, messages_push, saveChatHistory.
  destruct x; try discriminate Hx; mrun;
    (destruct (chat_messages (dom w)); mrun;
     [ rewrite Hm; mrun; split; [reflexivity | eexists; reflexivity]
     | split; [reflexivity | exists []; rewrite app_nil_r; exact Hm] ]).
Qed.

(** Walking [this.messages] by index while [replay] appends to it visits
    exactly the elements the array had when the walk began. *)
Lemma forEach_snapshot xs n : forall k ys w,
  messages (this w) = JArr (xs ++ ys) ->
  (k + n = length xs)%nat ->
  forallb has_props xs = true ->
  forEach_messages n k replay w = (Ret tt, replay_all (drop k xs) w).
Proof.
  induction n as [|n IH]; intros k ys w Hm Hk Hxs.
  - rewrite drop_ge by lia. reflexivity.
  - assert (Hlt : (k < length xs)%nat) by lia.
    destruct (lookup_lt_is_Some_2 xs k Hlt) as [x Hx].
    assert (Hpx : has_props x = true).
    { rewrite forallb_forall in Hxs. apply Hxs.
      apply list_elem_of_In. eapply list_elem_of_lookup_2; eauto. }
    rewrite (drop_S _ _ _ Hx). simpl.
    unfold bind at 1. unfold gets at 1. rewrite Hm.
    rewrite (lookup_app_l_Some _ _ _ _ Hx).
    destruct (replay_step x w (xs ++ ys) Hpx Hm) as [Hr [tl Hm']].
    unfold bind. rewrite Hr. rewrite <- app_assoc in Hm'.
    apply (IH (S k) (ys ++ tl) _ Hm'); [lia | exact Hxs].
Qed.

Lemma replay_all_absent zs : forall w,
  chat_messages (dom w) = None -> forallb has_props zs = true ->
  replay_all zs w = w.
Proof.
  induction zs as [|x zs IH]; intros w Hc Hzs; [reflexivity|].
  simpl in Hzs. apply andb_true_iff in Hzs as [Hx Hzs]. simpl.
  assert (Hstep : exec (replay x) w = w).
  { unfold exec, replay, addMessage. destruct x; try discriminate Hx; mrun;
      rewrite Hc; reflexivity. }
  rewrite Hstep. apply IH; assumption.
Qed.

Lemma replay_all_present zs : forall w ch base,
  chat_messages (dom w) = Some ch -> messages (this w) = JArr base ->
  forallb has_props zs = true ->
  messages (this (replay_all zs w)) = JArr (base ++ (restamp (clock w) <$> zs))
  /\ clock (replay_all zs w) = clock w
  /\ (zs <> [] ->
      localStorage (replay_all zs w) !! "chat_history" =
        Some (JSON_stringify (JArr (base ++ (restamp (clock w) <$> zs))))).
Proof.
  induction zs as [|x zs IH]; intros w ch base Hc Hm Hzs.
  - simpl. rewrite app_nil_r. repeat split; [exact Hm | congruence].
  - simpl in Hzs. apply andb_true_iff in Hzs as [Hx Hzs]. simpl.
    assert (Hstep : exists w1,
      exec (replay x) w = w1 /\ chat_messages (dom w1) = Some (ch ++ [(prop_of x "role", prop_of x "content")])
      /\ messages (this w1) = JArr (base ++ [restamp (clock w) x])
      /\ clock w1 = clock w
      /\ localStorage w1 !! "chat_history" =
           Some (JSON_stringify (JArr (base ++ [restamp (clock w) x])))).
    { eexists. split; [reflexivity|].
      unfold exec, replay, restamp, prop_of.
      destruct x; try discriminate Hx; mrun;
        rewrite (addMessage_appends _ _ w ch base Hc Hm); simpl;
        rewrite lookup_insert_eq; repeat split; reflexivity. }
    destruct Hstep as (w1 & -> & Hc1 & Hm1 & Hk1 & Hs1).
    destruct (IH w1 _ _ Hc1 Hm1 Hzs) as (Hm2 & Hk2 & Hs2).
    rewrite Hk1 in *. rewrite <- app_assoc in Hm2, Hs2. simpl in Hm2, Hs2.
    split; [exact Hm2|]. split; [exact Hk2|]. intros _.
    destruct zs as [|z zs']; [simpl; exact Hs1|]. apply Hs2. discriminate.
Qed.

Lemma addMessages_transcript calls : forall w ch base,
  chat_messages (dom w) = Some ch -> messages (this w) = JArr base ->
  messages (this (addMessages calls w)) = JArr (base ++ transcript calls)
  /\ (calls <> [] ->
      localStorage (addMessages calls w) !! "chat_history" =
        Some (JSON_stringify (JArr (base ++ transcript calls)))).
Proof.
  induction calls as [|[[t role] content] calls IH]; intros w ch base Hc Hm.
  - simpl. rewrite app_nil_r. split; [exact Hm | congruence].
  - set (m := message_obj (JStr role) (JStr content) (toISOString t)).
    set (w1 := exec (addMessage (JStr role) (JStr content)) (with_clock t w)).
    assert (Hw1 : chat_messages (dom w1) = Some (ch ++ [(JStr role, JStr content)])
                  /\ messages (this w1) = JArr (base ++ [m])
                  /\ localStorage w1 !! "chat_history" =
                       Some (JSON_stringify (JArr (base ++ [m])))).
    { subst w1. unfold exec.
      rewrite (addMessage_appends _ _ (with_clock t w) ch base Hc Hm). simpl.
      rewrite lookup_insert_eq. repeat split. }
    destruct Hw1 as (Hc1 & Hm1 & Hl1).
    change (addMessages ((t, role, content) :: calls) w) with (addMessages calls w1).
    change (transcript ((t, role, content) :: calls)) with (m :: transcript calls).
    destruct (IH w1 _ _ Hc1 Hm1) as [Hm2 Hs2].
    rewrite <- app_assoc in Hm2, Hs2. simpl in Hm2, Hs2.
    split; [exact Hm2|]. intros _.
    destruct calls as [|c calls']; [exact Hl1|]. apply Hs2. discriminate.
Qed.

Lemma transcript_has_props calls : forallb has_props (transcript calls) = true.
Proof. induction calls as [|[[t r] c] calls IH]; [reflexivity | exact IH]. Qed.

Lemma transcript_is_json calls : is_json (JArr (transcript calls)) = true.
Proof. induction calls as [|[[t r] c] calls IH]; [reflexivity | exact IH]. Qed.

Lemma pairs_of_transcript calls :
  pairs_of (JArr (transcript calls)) =
    (fun '(t, role, content) => (JStr role, JStr content)) <$> calls.
Proof.
  induction calls as [|[[t r] c] calls IH]; [reflexivity|].
  unfold pairs_of, transcript in *. rewrite !fmap_cons, IH. reflexivity.
Qed.

Lemma pairs_of_restamp now xs :
  pairs_of (JArr (restamp now <$> xs)) = pairs_of (JArr xs).
Proof.
  induction xs as [|x xs IH]; [reflexivity|].
  unfold pairs_of in *. rewrite !fmap_cons, IH. reflexivity.
Qed.

(** C1. The transcript does not survive a save and reload as the ordered
    sequence that was appended. After a non-empty sequence of [addMessage]
    calls the stored text is the serialised transcript; when the next page
    load runs [loadChatHistory] with the message container in the page, the
    transcript in memory is the stored one followed by a copy of each of its
    messages carrying the timestamp of the reload, so its sequence of
    (role, content) pairs is the appended sequence twice over, and that
    doubled transcript is what storage then holds. *)
Theorem reload_replays_transcript calls w0 ch0 w2 ch2 :
  chat_messages (dom w0) = Some ch0 ->
  messages (this w0) = JArr [] ->
  calls <> [] ->
  let w1 := addMessages calls w0 in
  localStorage w2 !! "chat_history" = localStorage w1 !! "chat_history" ->
  chat_messages (dom w2) = Some ch2 ->
  let w3 := exec loadChatHistory w2 in
  messages (this w1) = JArr (transcript calls)
  /\ localStorage w1 !! "chat_history" =
       Some (JSON_stringify (JArr (transcript calls)))
  /\ messages (this w3) =
       JArr (transcript calls ++ (restamp (clock w2) <$> transcript calls))
  /\ pairs_of (messages (this w3)) =
       pairs_of (messages (this w1)) ++ pairs_of (messages (this w1))
  /\ localStorage w3 !! "chat_history" =
       Some (JSON_stringify (messages (this w3))).
Proof.
  intros Hc0 Hm0 Hne w1 Hst Hc2 w3.
  destruct (addMessages_transcript calls w0 ch0 [] Hc0 Hm0) as [Hm1 Hs1].
  specialize (Hs1 Hne). simpl in Hm1, Hs1. fold w1 in Hm1, Hs1.
  rewrite Hs1 in Hst.
  set (T := transcript calls) in *.
  set (w2' := with_this (set_messages (JArr T)) w2).
  assert (Hload : loadChatHistory w2 = (Ret tt, replay_all T w2')).
  { unfold loadChatHistory, getItem. unfold bind at 1, gets at 1. rewrite Hst.
    simpl. rewrite JSON_stringify_nonempty.
    pose proof (JSON_parse_stringify _ (transcript_is_json calls)) as Hrt.
    fold T in Hrt. rewrite Hrt.
    unfold try_catch, bind at 1, modify at 1. fold w2'.
    rewrite (forEach_snapshot T (length T) 0 [] w2');
      [ rewrite drop_0; reflexivity
      | simpl; rewrite app_nil_r; reflexivity
      | lia
      | apply transcript_has_props ]. }
  destruct (replay_all_present T w2' ch2 T Hc2 eq_refl (transcript_has_props calls))
    as (Hm3 & _ & Hs3).
  assert (HT : T <> []).
  { subst T. destruct calls; [congruence | discriminate]. }
  specialize (Hs3 HT).
  subst w3. unfold exec. rewrite Hload. simpl.
  change (clock w2') with (clock w2) in *.
  repeat split; try assumption.
  - rewrite Hm3, Hm1. unfold pairs_of. rewrite fmap_app. f_equal.
    apply pairs_of_restamp.
  - rewrite Hs3, Hm3. reflexivity.
Qed.

(** When the message container is not in the page at the reload, nothing
    is replayed: the transcript in memory is the stored one, timestamps
    included. *)
Lemma reload_without_container calls w0 ch0 w2 :
  chat_messages (dom w0) = Some ch0 ->
  messages (this w0) = JArr [] ->
  calls <> [] ->
  localStorage w2 !! "chat_history" =
    localStorage (addMessages calls w0) !! "chat_history" ->
  chat_messages (dom w2) = None ->
  messages (this (exec loadChatHistory w2)) = JArr (transcript calls).
Proof.
  intros Hc0 Hm0 Hne Hst Hc2.
  destruct (addMessages_transcript calls w0 ch0 [] Hc0 Hm0) as [_ Hs1].
  rewrite (Hs1 Hne) in Hst. simpl in Hst.
  set (T := transcript calls) in *.
  unfold exec, loadChatHistory, getItem. unfold bind at 1, gets at 1.
  rewrite Hst. simpl. rewrite JSON_stringify_nonempty.
  pose proof (JSON_parse_stringify _ (transcript_is_json calls)) as Hrt.
  fold T in Hrt. rewrite Hrt.
  unfold try_catch, bind at 1, modify at 1.
  rewrite (forEach_snapshot T (length T) 0 [] (with_this (set_messages (JArr T)) w2));
    [ | simpl; rewrite app_nil_r; reflexivity | lia | apply transcript_has_props ].
  rewrite drop_0, replay_all_absent;
    [reflexivity | exact Hc2 | apply transcript_has_props].
Qed.

(** C2. On a stored transcript that is not valid JSON, [loadChatHistory]
    returns without throwing; apart from logging the failure it changes
    nothing: local storage is what it was, so the corrupted entry is still
    there, and the transcript in memory is what it was before the call
    (empty only if it was empty). *)
Theorem loadChatHistory_corrupt_entry_kept w s :
  localStorage w !! "chat_history" = Some s ->
  JSON_parse s = None ->
  outcome loadChatHistory w = Ret tt
  /\ localStorage (exec loadChatHistory w) = localStorage w
  /\ messages (this (exec loadChatHistory w)) = messages (this w).
Proof.
  intros Hs Hp. unfold outcome, exec, loadChatHistory, getItem. mrun.
  rewrite Hs. simpl. destruct (string_truthy s); [|auto].
  mrun. rewrite Hp. auto.
Qed.

(** The shadowed definition is the one that recovers: on a stored text
    that is not JSON it removes the entry and empties the list. *)
Lemma loadChatHistory_shadowed_recovers view w s :
  localStorage w !! "chatHistory" = Some s ->
  string_truthy s = true ->
  JSON_parse s = None ->
  outcome (loadChatHistory_shadowed view) w = Ret tt
  /\ localStorage (exec (loadChatHistory_shadowed view) w) !! "chatHistory" = None
  /\ chatHistory (this (exec (loadChatHistory_shadowed view) w)) = [].
Proof.
  intros Hs Ht Hp. unfold outcome, exec, loadChatHistory_shadowed, getItem. mrun.
  rewrite Hs. simpl. rewrite Ht, Hp. simpl.
  repeat split. apply lookup_delete_eq.
Qed.

(** C10. A call of [addMessage] made while [.chat-messages] is not in the
    page returns at once and leaves the whole world as it was: nothing is
    appended to the transcript and nothing is written to local storage. *)
Theorem addMessage_without_container role content w :
  chat_messages (dom w) = None ->
  addMessage role content w = (Ret tt, w).
Proof.
  intros Hc. unfold addMessage, bind, gets. rewrite Hc. reflexivity.
Qed.

Lemma checkApiAvailability_begin_frame : preserves chat_frame checkApiAvailability_begin.
Proof.
  unfold checkApiAvailability_begin, fetchWithCache_begin. framed;
    apply preserves_modify; intros w; apply chat_frame_same; reflexivity.
Qed.

Lemma checkApiAvailability_begin_returns w :
  exists a, outcome checkApiAvailability_begin w = Ret a.
Proof.
  unfold outcome, checkApiAvailability_begin, fetchWithCache_begin. mrun.
  destruct (_ && _); [eexists; reflexivity|]. mrun.
  destruct (cache (this w)) as [m|]; mrun; [|eexists; reflexivity].
  destruct (truthy _); eexists; reflexivity.
Qed.

(** The session id a construction ends with, and what it leaves under
    [chat_session_id]. *)
Lemma constructor_session rnd w :
  let stored := localStorage w !! "chat_session_id" in
  let sid := if item_truthy stored then default EmptyString stored
             else "session_" +:+ rnd in
  returns (outcome (constructor rnd) w) = true
  /\ sessionId (this (exec (constructor rnd) w)) = sid
  /\ localStorage (exec (constructor rnd) w) !! "chat_session_id" =
       (if item_truthy stored then stored else Some sid).
Proof.
  intros stored sid.
  set (w_a := if item_truthy stored then w
              else with_storage (insert "chat_session_id" sid) w).
  set (w_b := with_this (fun _ => mkChatInterface None [] (JBool false) sid (JArr []) 0 30000 None) w_a).
  assert (Hb : sessionId (this w_b) = sid
               /\ localStorage w_b !! "chat_session_id" =
                    (if item_truthy stored then stored else Some sid)).
  { subst w_b w_a. fold stored. destruct (item_truthy stored); simpl.
    - auto.
    - rewrite lookup_insert_eq. auto. }
  destruct Hb as [Hb1 Hb2].
  pose proof (loadChatHistory_returns w_b) as Hl.
  pose proof (loadChatHistory_frame w_b) as [Hlf Hls].
  unfold outcome, exec in Hl, Hlf, Hls.
  destruct (loadChatHistory w_b) as [r w_c] eqn:Hload. simpl in Hl, Hlf, Hls.
  subst r.
  destruct (checkApiAvailability_begin_returns w_c) as [a Ha].
  pose proof (checkApiAvailability_begin_frame w_c) as [Hcf Hcs].
  unfold outcome, exec in Ha, Hcf, Hcs.
  destruct (checkApiAvailability_begin w_c) as [r w_d] eqn:Hcheck.
  simpl in Ha, Hcf, Hcs. subst r.
  assert (Hrun : constructor rnd w = (Ret a, with_this (set_cache (Some ∅)) w_d)).
  { unfold constructor, constructor_fields, getItem, generateSessionId, setItem.
    unfold bind at 1, bind at 1, gets at 1. fold stored.
    subst w_b w_a. fold stored in Hload. subst sid.
    destruct (item_truthy stored); mrun; rewrite Hload; mrun; rewrite Hcheck;
      reflexivity. }
  unfold outcome, exec. rewrite Hrun. simpl.
  split; [reflexivity|]. split.
  - congruence.
  - rewrite Hcf, Hlf by discriminate. exact Hb2.
Qed.

(** C8. A construction that finds a (non-empty) session id in local
    storage takes it over unchanged and leaves it stored; one that finds
    none takes ["session_"] followed by the random text and stores it; and
    in both cases the next construction over the storage the first one left
    ends with the same session id. *)
Theorem sessionId_stable_across_loads rnd1 rnd2 w :
  let w1 := exec (constructor rnd1) w in
  let w2 := exec (constructor rnd2) w1 in
  (forall s, localStorage w !! "chat_session_id" = Some s ->
             string_truthy s = true ->
             sessionId (this w1) = s
             /\ localStorage w1 !! "chat_session_id" = Some s)
  /\ (item_truthy (localStorage w !! "chat_session_id") = false ->
      sessionId (this w1) = "session_" +:+ rnd1
      /\ localStorage w1 !! "chat_session_id" = Some ("session_" +:+ rnd1))
  /\ sessionId (this w2) = sessionId (this w1).
Proof.
  intros w1 w2.
  destruct (constructor_session rnd1 w) as (_ & Hs1 & Hl1). fold w1 in Hs1, Hl1.
  destruct (constructor_session rnd2 w1) as (_ & Hs2 & _). fold w2 in Hs2.
  split; [|split].
  - intros s Hs Ht. rewrite Hs in Hs1, Hl1. simpl in Hs1, Hl1.
    rewrite Ht in Hs1, Hl1. auto.
  - intros Hf. rewrite Hf in Hs1, Hl1. auto.
  - rewrite Hs2, Hl1, Hs1.
    destruct (localStorage w !! "chat_session_id") as [s|] eqn:Hs; simpl;
      [destruct (string_truthy s) eqn:Ht; simpl; [rewrite Ht|]|]; reflexivity.
Qed.

Lemma poll_frame_refl w : poll_frame w w.
Proof. repeat split. Qed.

Lemma poll_frame_trans w1 w2 w3 :
  poll_frame w1 w2 -> poll_frame w2 w3 -> poll_frame w1 w3.
Proof. intros (?&?&?) (?&?&?). repeat split; congruence. Qed.

Ltac polled :=
  repeat first
    [ match goal with
      | |- forall _, _ => intro
      | |- preserves _ (ret _) => apply (preserves_ret poll_frame poll_frame_refl)
      | |- preserves _ (throw _) => apply (preserves_throw poll_frame poll_frame_refl)
      | |- preserves _ (gets _) => apply (preserves_gets poll_frame poll_frame_refl)
      | |- preserves _ (lift _) => apply (preserves_lift poll_frame poll_frame_refl)
      | |- preserves _ (bind _ _) => apply (preserves_bind poll_frame poll_frame_trans)
      | |- preserves _ (try_catch _ _) =>
          apply (preserves_try_catch poll_frame poll_frame_trans)
      | |- preserves _ (modify _) =>
          apply preserves_modify; intros ?; repeat split
      | |- preserves _ (match ?x with _ => _ end) => destruct x
      end ].

Lemma checkApiAvailability_resume_frame a o :
  preserves poll_frame (checkApiAvailability_resume a o).
Proof.
  unfold checkApiAvailability_resume, fetchWithCache_resume,
    updateApiStatusIndicator, console_log.
  polled.
Qed.

(** The throttle: an invocation that starts less than the interval after
    the last one that got past the throttle returns at once; it issues no
    request and changes nothing. *)
Lemma checkApiAvailability_throttled now w :
  lastApiCheck (this w) <> 0 ->
  now - lastApiCheck (this w) < apiCheckInterval (this w) ->
  checkApiAvailability_begin (with_clock now w) = (Ret None, with_clock now w).
Proof.
  intros Hz Hlt. unfold checkApiAvailability_begin. mrun.
  destruct (Z.ltb_spec (now - lastApiCheck (this w)) (apiCheckInterval (this w)));
    [|lia].
  destruct (Z.eqb_spec (lastApiCheck (this w)) 0); [contradiction|]. reflexivity.
Qed.

(** An invocation that gets past the throttle records its start time. *)
Lemma checkApiAvailability_begin_cases now w :
  let w' := exec checkApiAvailability_begin (with_clock now w) in
  apiCheckInterval (this w') = apiCheckInterval (this w)
  /\ ((w' = with_clock now w
       /\ lastApiCheck (this w) <> 0
       /\ now - lastApiCheck (this w) < apiCheckInterval (this w))
      \/ (lastApiCheck (this w') = now
          /\ (lastApiCheck (this w) = 0
              \/ apiCheckInterval (this w) <= now - lastApiCheck (this w)))).
Proof.
  unfold exec, checkApiAvailability_begin, fetchWithCache_begin. mrun.
  destruct (Z.ltb_spec (now - lastApiCheck (this w)) (apiCheckInterval (this w)));
    destruct (Z.eqb_spec (lastApiCheck (this w)) 0); mrun;
    try (split; [reflexivity|left; repeat split; assumption]).
  all: destruct (cache (this w)) as [m|]; mrun;
    [destruct (truthy _); mrun|];
    (split; [reflexivity|right; split; [reflexivity|]; first [left; assumption | right; lia]]).
Qed.

Lemma request_times_spaced d evs : forall w,
  0 <= d -> apiCheckInterval (this w) = d -> nonzero_starts evs ->
  spaced d (request_times evs w)
  /\ forall a, head (request_times evs w) = Some a ->
       lastApiCheck (this w) = 0 \/ d <= a - lastApiCheck (this w).
Proof.
  induction evs as [|ev evs IH]; intros w Hd Hi Hnz.
  - split; [exact I | discriminate].
  - assert (Hnz' : nonzero_starts evs) by (intros t Ht; apply Hnz; right; exact Ht).
    destruct ev as [now|a o].
    + pose proof (checkApiAvailability_begin_cases now w) as [Hi' Hcase].
      assert (Hnow : now <> 0) by (apply Hnz; left; reflexivity).
      cbn [request_times]. fold (step (Start now) w) in Hi', Hcase.
      set (w' := step (Start now) w) in *.
      destruct (IH w' Hd ltac:(congruence) Hnz') as [Hsp Hhd].
      destruct Hcase as [(Hw' & Hz & Hlt) | (Hl' & Hpass)].
      * assert (Hno : issued (Start now) w = 0%nat).
        { unfold issued. fold w'. rewrite Hw'. simpl. lia. }
        rewrite bool_decide_eq_true_2 by exact Hno.
        split; [exact Hsp|]. intros a Ha. specialize (Hhd a Ha).
        rewrite Hw' in Hhd. exact Hhd.
      * rewrite Hl' in Hhd.
        case_bool_decide.
        -- split; [exact Hsp|]. intros a Ha.
           destruct (Hhd a Ha) as [?|Hge]; [contradiction|].
           destruct Hpass as [?|Hge']; [left; assumption | right; lia].
        -- split.
           ++ simpl. split; [|exact Hsp].
              destruct (request_times evs w') as [|b l] eqn:Hl; [exact I|].
              destruct (Hhd b eq_refl) as [?|Hge]; [contradiction | exact Hge].
           ++ intros a Ha. simpl in Ha. injection Ha as <-.
              destruct Hpass as [?|Hge']; [left; assumption | right; lia].
    + pose proof (checkApiAvailability_resume_frame a o w) as (Hl & Hi' & _).
      cbn [request_times]. fold (step (Settle a o) w) in Hl, Hi'.
      destruct (IH (step (Settle a o) w) Hd ltac:(congruence) Hnz') as [Hsp Hhd].
      split; [exact Hsp|]. intros b Hb. rewrite <- Hl. apply Hhd, Hb.
Qed.

(** C5. Health requests are throttled against the last invocation that got
    past the throttle: an invocation starting less than the polling interval
    after it issues no request and changes nothing; and in every run of the
    poller (invocations starting and waiting invocations being resumed in
    any order, clock readings non-zero, interval non-negative) two
    successive health requests are issued by invocations that start at
    least one interval apart. *)
Theorem health_requests_spaced evs w now :
  0 <= apiCheckInterval (this w) ->
  nonzero_starts evs ->
  (lastApiCheck (this w) <> 0 ->
   now - lastApiCheck (this w) < apiCheckInterval (this w) ->
   issued (Start now) w = 0%nat
   /\ step (Start now) w = with_clock now w)
  /\ spaced (apiCheckInterval (this w)) (request_times evs w).
Proof.
  intros Hd Hnz. split.
  - intros Hz Hlt. unfold issued, step, exec.
    rewrite (checkApiAvailability_throttled now w Hz Hlt). simpl.
    split; [lia | reflexivity].
  - apply (request_times_spaced _ evs w Hd eq_refl Hnz).
Qed.

Lemma updateApiStatusIndicator_writable w :
  indicator_writable (dom w) = true ->
  exists w', updateApiStatusIndicator w = (Ret tt, w') /\ this w' = this w.
Proof.
  unfold indicator_writable, updateApiStatusIndicator. mrun.
  destruct (api_status (dom w)) as [el|]; mrun.
  - destruct (status_text el); [eauto | discriminate].
  - destruct (chat_header (dom w)); eauto.
Qed.

Lemma resume_with_body w a o data ok :
  fetchWithCache_resume health_url a o w =
    (Ret data, match a with
               | AwaitFetch => with_this (set_cache
                   (Some (<[health_url := data]> (default ∅ (cache (this w)))))) w
               | _ => w
               end) ->
  get_prop data "ok" = Ret ok ->
  indicator_writable (dom w) = true ->
  exists w',
    checkApiAvailability_resume a o w = (Ret ok, w')
    /\ apiAvailable (this w') = ok
    /\ cache (this w') = match a with
                         | AwaitFetch =>
                             Some (<[health_url := data]> (default ∅ (cache (this w))))
                         | _ => cache (this w)
                         end.
Proof.
  intros Hf Hok Hind. unfold checkApiAvailability_resume.
  set (w1 := match a with AwaitFetch => _ | _ => w end) in Hf.
  assert (Hd1 : dom w1 = dom w) by (subst w1; destruct a; reflexivity).
  set (w2 := with_this (set_apiAvailable ok) w1).
  destruct (updateApiStatusIndicator_writable w2) as (w3 & Hu & Ht).
  { subst w2. simpl. rewrite Hd1. exact Hind. }
  exists (with_console (fun c => c ++ ["API status"]) w3).
  split; [|split].
  - apply try_catch_ret_eq.
    rewrite (bind_ret_eq _ _ _ _ _ Hf).
    erewrite bind_ret_eq; [|unfold lift; rewrite Hok; reflexivity].
    erewrite bind_ret_eq; [|reflexivity]. fold w2.
    rewrite (bind_ret_eq _ _ _ _ _ Hu).
    erewrite bind_ret_eq; [|reflexivity]. unfold gets. simpl.
    rewrite Ht. reflexivity.
  - simpl. rewrite Ht. reflexivity.
  - simpl. rewrite Ht. subst w2 w1. destruct a; reflexivity.
Qed.

(** C6. The reachability flag is not the success of the health request: a
    completed check stores in [apiAvailable] the [ok] property of the
    parsed response body (which [fetchWithCache] returns and caches), and
    resolves to it. The flag is whatever the body holds under [ok],
    [undefined] when the body has no such property. *)
Theorem health_flag_is_body_property w m data ok :
  cache (this w) = Some m ->
  get_prop data "ok" = Ret ok ->
  indicator_writable (dom w) = true ->
  outcome (checkApiAvailability_resume AwaitFetch (Body data)) w = Ret ok
  /\ apiAvailable (this (exec (checkApiAvailability_resume AwaitFetch (Body data)) w)) = ok
  /\ cache (this (exec (checkApiAvailability_resume AwaitFetch (Body data)) w)) =
       Some (<[health_url := data]> m).
Proof.
  intros Hc Hok Hind.
  destruct (resume_with_body w AwaitFetch (Body data) data ok) as (w' & Hr & Ha & Hca);
    try assumption.
  { unfold fetchWithCache_resume. mrun. rewrite Hc. reflexivity. }
  unfold outcome, exec. rewrite Hr. simpl. rewrite Hc in Hca. auto.
Qed.

(** Once a truthy body is cached, later checks that get past the throttle
    issue no request at all and set the flag from the cached body. *)
Lemma health_check_served_from_cache now w m data ok :
  cache (this w) = Some m ->
  m !! health_url = Some data -> truthy data = true ->
  (lastApiCheck (this w) = 0 \/ apiCheckInterval (this w) <= now - lastApiCheck (this w)) ->
  get_prop data "ok" = Ret ok ->
  indicator_writable (dom w) = true ->
  let w1 := exec checkApiAvailability_begin (with_clock now w) in
  outcome checkApiAvailability_begin (with_clock now w) = Ret (Some (AwaitCached data))
  /\ network w1 = network w
  /\ forall o, apiAvailable (this (exec (checkApiAvailability_resume (AwaitCached data) o) w1)) = ok.
Proof.
  intros Hc Hm Ht Hpass Hok Hind.
  assert (Hb : checkApiAvailability_begin (with_clock now w) =
               (Ret (Some (AwaitCached data)),
                with_this (set_lastApiCheck now) (with_clock now w))).
  { unfold checkApiAvailability_begin, fetchWithCache_begin. mrun.
    assert (Hg : (now - lastApiCheck (this w) <? apiCheckInterval (this w))
                 && negb (lastApiCheck (this w) =? 0) = false).
    { destruct Hpass as [Hz|Hge].
      - rewrite Hz. simpl. apply andb_false_r.
      - apply andb_false_iff. left. apply Z.ltb_ge. exact Hge. }
    rewrite Hg. simpl. rewrite Hc. mrun. rewrite Hm. simpl. rewrite Ht.
    reflexivity. }
  unfold outcome, exec. rewrite Hb. simpl. repeat split.
  intros o.
  destruct (resume_with_body (with_this (set_lastApiCheck now) (with_clock now w))
              (AwaitCached data) o data ok eq_refl Hok Hind) as (w' & Hr & Ha & _).
  rewrite Hr. exact Ha.
Qed.

(** A request that fails on the network is not propagated: the flag
    becomes [false] and the check resolves to [false]. *)
Lemma health_check_network_error w :
  indicator_writable (dom w) = true ->
  outcome (checkApiAvailability_resume AwaitFetch FetchRejects) w = Ret (JBool false)
  /\ apiAvailable (this (exec (checkApiAvailability_resume AwaitFetch FetchRejects) w)) =
       JBool false.
Proof.
  intros Hind. unfold checkApiAvailability_resume.
  set (w1 := with_this (set_apiAvailable (JBool false))
               (with_console (fun c => c ++ ["Error checking API availability"]) w)).
  destruct (updateApiStatusIndicator_writable w1 Hind) as (w2 & Hu & Ht).
  assert (Hr : forall body : M World jsval,
    body w = (Throw NetworkError, w) ->
    try_catch body
      (fun _ => console_log "Error checking API availability" ;;
                modify (with_this (set_apiAvailable (JBool false))) ;;
                updateApiStatusIndicator ;; ret (JBool false)) w
    = (Ret (JBool false), w2)).
  { intros body Hb. erewrite try_catch_throw_eq by exact Hb.
    erewrite bind_ret_eq; [|reflexivity].
    erewrite bind_ret_eq; [|reflexivity]. fold w1.
    rewrite (bind_ret_eq _ _ _ _ _ Hu). reflexivity. }
  unfold outcome, exec. rewrite Hr; [simpl; rewrite Ht; auto|].
  apply bind_throw_eq. reflexivity.
Qed.

#[local] Instance by_recency_trans : Transitive by_recency.
Proof. intros a b c. unfold by_recency. lia. Qed.

Lemma sort_insert_perm x l : sort_insert x l ≡ₚ x :: l.
Proof.
  induction l as [|y r IH]; simpl; [reflexivity|].
  destruct (decide (by_recency x y)); [reflexivity|].
  rewrite IH. apply Permutation_swap.
Qed.

Lemma sort_by_recency_perm l : sort_by_recency l ≡ₚ l.
Proof.
  induction l as [|x l IH]; simpl; [reflexivity|].
  rewrite sort_insert_perm, IH. reflexivity.
Qed.

Lemma sort_insert_sorted x l :
  StronglySorted by_recency l -> StronglySorted by_recency (sort_insert x l).
Proof.
  induction l as [|y r IH]; intros Hs; simpl.
  - repeat constructor.
  - destruct (decide (by_recency x y)) as [Hxy|Hxy].
    + constructor; [exact Hs|]. constructor; [exact Hxy|].
      apply StronglySorted_inv in Hs as [_ Hy].
      eapply Forall_impl; [exact Hy|]. intros z Hz. simpl in Hz.
      etransitivity; eassumption.
    + apply StronglySorted_inv in Hs as [Hr Hy].
      constructor; [apply IH, Hr|].
      rewrite sort_insert_perm. constructor; [|exact Hy].
      unfold by_recency in *. lia.
Qed.

Lemma sort_by_recency_sorted l : StronglySorted by_recency (sort_by_recency l).
Proof.
  induction l as [|x l IH]; simpl; [constructor | apply sort_insert_sorted, IH].
Qed.

Lemma updateChatHistoryList_run w :
  exists w', updateChatHistoryList w = (Ret tt, w')
             /\ this w' = this w /\ localStorage w' = localStorage w.
Proof.
  unfold updateChatHistoryList. mrun.
  destruct (chatHistoryList (dom w)); eauto.
Qed.

Lemma updateChatHistory_cases w :
  exists w',
    updateChatHistory w = (Ret tt, w')
    /\ ((localStorage w' = localStorage w
         /\ chatHistory (this w') = chatHistory (this w))
        \/ exists children msgs,
             chatMessages (dom w) = Some children
             /\ read_nodes children = Ret msgs
             /\ chatHistory (this w') = take 20 (sort_by_recency (candidates w msgs))
             /\ localStorage w' =
                  <["chatHistory" := JSON_stringify (history_to_json
                     (take 20 (sort_by_recency (candidates w msgs))))]> (localStorage w)).
Proof.
  destruct (chatMessages (dom w)) as [children|] eqn:Hc.
  2: { exists w. split; [|left; split; reflexivity].
       unfold updateChatHistory. mrun. rewrite Hc. reflexivity. }
  destruct (read_nodes children) as [msgs|e] eqn:Hr.
  2: { eexists. split;
         [ unfold updateChatHistory; mrun; rewrite Hc; mrun; rewrite Hr; reflexivity
         | left; split; reflexivity ]. }
  destruct (bool_decide (length msgs <= 1)%nat) eqn:Hlen.
  { exists w. split; [|left; split; reflexivity].
    unfold updateChatHistory. mrun. rewrite Hc. mrun. rewrite Hr. mrun.
    rewrite Hlen. reflexivity. }
  destruct (chatHistoryList (dom w)) as [items|] eqn:Hl.
  all: eexists; split;
    [ unfold updateChatHistory, updateChatHistoryList; mrun; rewrite Hc; mrun;
      rewrite Hr; mrun; rewrite Hlen; mrun; rewrite Hl; reflexivity
    | right; exists children, msgs; repeat split; assumption ].
Qed.

Lemma stored_summary_is_json i t msgs u :
  is_json (stored_summary i t msgs u) = true.
Proof.
  unfold stored_summary. cbn [is_json forallb fst snd plain_key].
  assert (Hm : forallb is_json
                 ((fun m => JObj [("sender", JStr (sender m));
                                  ("content", JStr (hm_content m));
                                  ("timestamp", JStr (hm_timestamp m))]) <$> msgs) = true).
  { induction msgs as [|m msgs IH]; [reflexivity|]. cbn. rewrite IH. reflexivity. }
  rewrite Hm. destruct i; reflexivity.
Qed.

Lemma stored_history_is_json h : is_json (stored_history h) = true.
Proof.
  unfold stored_history. cbn [is_json].
  induction h as [|c h IH]; [reflexivity|].
  cbn [fmap list_fmap forallb]. rewrite stored_summary_is_json. exact IH.
Qed.

(** A call that finds more than one readable message: what it leaves. *)
Lemma updateChatHistory_run w children msgs :
  chatMessages (dom w) = Some children ->
  read_nodes children = Ret msgs ->
  (1 < length msgs)%nat ->
  let kept := take 20 (sort_by_recency (candidates w msgs)) in
  exists w1,
    updateChatHistory w = (Ret tt, w1)
    /\ chatHistory (this w1) = kept
    /\ localStorage w1 =
         <["chatHistory" := JSON_stringify (stored_history kept)]> (localStorage w).
Proof.
  intros Hc Hr Hlen.
  assert (Hb : bool_decide (length msgs <= 1)%nat = false)
    by (apply bool_decide_eq_false; lia).
  destruct (chatHistoryList (dom w)) as [items|] eqn:Hl.
  all: eexists; split;
    [ unfold updateChatHistory, updateChatHistoryList; mrun; rewrite Hc; mrun;
      rewrite Hr; mrun; rewrite Hb; mrun; rewrite ?Hl; reflexivity
    | split; reflexivity ].
Qed.

(** Within one page visit the history is capped and ordered: a call
    that finds more than one readable message keeps, and stores, the first
    20 of the candidate summaries sorted by decreasing [lastUpdated]; what
    is stored parses to the array of the kept summaries, every summary kept
    is at least as recent as every one dropped, and kept and dropped
    together are the candidates. *)
Lemma updateChatHistory_sorts_candidates w children msgs :
  chatMessages (dom w) = Some children ->
  read_nodes children = Ret msgs ->
  (1 < length msgs)%nat ->
  let w' := exec updateChatHistory w in
  let sorted := sort_by_recency (candidates w msgs) in
  let kept := take 20 sorted in
  let dropped := drop 20 sorted in
  chatHistory (this w') = kept
  /\ (exists s, localStorage w' !! "chatHistory" = Some s
                /\ JSON_parse s = Some (stored_history kept))
  /\ (length kept <= 20)%nat
  /\ StronglySorted by_recency kept
  /\ (forall k d, k ∈ kept -> d ∈ dropped -> lastUpdated d <= lastUpdated k)
  /\ kept ++ dropped ≡ₚ candidates w msgs.
Proof.
  intros Hc Hr Hlen.
  destruct (updateChatHistory_run w children msgs Hc Hr Hlen) as (w1 & Hrun & Hh & Hs).
  cbv zeta in *. unfold exec. rewrite Hrun. cbn [snd].
  set (sorted := sort_by_recency (candidates w msgs)) in *.
  assert (Hsorted : StronglySorted by_recency (take 20 sorted ++ drop 20 sorted)).
  { rewrite take_drop. apply sort_by_recency_sorted. }
  split; [exact Hh|]. split.
  { eexists. split; [rewrite Hs; apply lookup_insert_eq|].
    apply JSON_parse_stringify, stored_history_is_json. }
  split; [rewrite length_take; lia|].
  split; [eapply StronglySorted_app_1_l, Hsorted|]. split.
  - intros k d Hk Hd.
    apply (StronglySorted_app_1_elem_of by_recency _ _ k d Hsorted Hk Hd).
  - rewrite take_drop. apply sort_by_recency_perm.
Qed.


End WithPlatform.

Lemma reload_replays_transcript_witness :
  pairs_of (messages (this first_load)) = [(JStr "user", JStr "hi")]
  /\ pairs_of (messages (this (exec (loadChatHistory (P:=RefPlatform.platform)) second_load))) =
       [(JStr "user", JStr "hi"); (JStr "user", JStr "hi")].
Proof.
  destruct (reload_replays_transcript (P:=RefPlatform.platform) one_call
              first_visit [] second_load [])
    as (H1 & _ & _ & H4 & _);
    [reflexivity | reflexivity | discriminate | reflexivity | reflexivity |].
  fold first_load in H1, H4.
  split; [rewrite H1; reflexivity | rewrite H4, H1; reflexivity].
Defined.

(** The whole second visit ends with the doubled transcript. *)
Example second_visit_doubles :
  pairs_of (messages (this (visit "zzzzzzzzz"
                              (browser (localStorage first_load) page_dom 2000)))) =
    [(JStr "user", JStr "hi"); (JStr "user", JStr "hi")].
Proof. vm_compute. reflexivity. Qed.

Lemma loadChatHistory_corrupt_entry_kept_witness :
  outcome (loadChatHistory (P:=RefPlatform.platform)) corrupt_load = Ret tt
  /\ localStorage (exec (loadChatHistory (P:=RefPlatform.platform)) corrupt_load)
       !! "chat_history" = Some "{oops"
  /\ messages (this (exec (loadChatHistory (P:=RefPlatform.platform)) corrupt_load)) = JArr [].
Proof.
  destruct (loadChatHistory_corrupt_entry_kept (P:=RefPlatform.platform) corrupt_load "{oops")
    as (H1 & H2 & H3); [reflexivity | reflexivity |].
  split; [exact H1|]. split; [rewrite H2; reflexivity | rewrite H3; reflexivity].
Defined.

Lemma addMessage_without_container_witness :
  chat_messages (dom bare_visit) = None
  /\ addMessage (P:=RefPlatform.platform) (JStr "user") (JStr "hi") bare_visit =
       (Ret tt, bare_visit).
Proof.
  split; [reflexivity|].
  apply (addMessage_without_container (P:=RefPlatform.platform)); reflexivity.
Defined.

Lemma sessionId_stable_across_loads_witness :
  sessionId (this first_visit) = "session_k3j9x2m1q"
  /\ sessionId (this (visit "zzzzzzzzz" first_visit)) = sessionId (this first_visit).
Proof.
  destruct (sessionId_stable_across_loads (P:=RefPlatform.platform)
              "k3j9x2m1q" "zzzzzzzzz" (browser ∅ page_dom 1000)) as (_ & H2 & H3).
  split; [apply H2; reflexivity | exact H3].
Defined.

Lemma health_flag_is_body_property_witness :
  apiAvailable (this (exec (checkApiAvailability_resume AwaitFetch (Body healthy_body))
                           first_visit)) = JUndefined
  /\ is_boolean JUndefined = false.
Proof.
  split; [|reflexivity].
  apply (health_flag_is_body_property first_visit ∅ healthy_body JUndefined);
    reflexivity.
Defined.

Lemma health_requests_spaced_witness :
  request_times three_checks first_visit = [100000; 135000]
  /\ spaced 30000 (request_times three_checks first_visit).
Proof.
  split; [vm_compute; reflexivity|].
  apply (health_requests_spaced three_checks first_visit 0).
  - vm_compute. discriminate.
  - intros now [H|[H|[H|[H|[H|[]]]]]]; try discriminate H; injection H as <-; lia.
Defined.

(** Two invocations start ten seconds apart, with an interval of thirty
    seconds, and the second one issues a health request. *)
Lemma close_pair_second_issues_request :
  clock after_two_checks = 125000
  /\ 135000 - clock after_two_checks < apiCheckInterval (this after_two_checks)
  /\ issued (Start 125000) (run [Settle (AwaitRejected TypeError) FetchRejects;
                                 Start 100000; Settle AwaitFetch FetchRejects]
                                first_visit) = 0%nat
  /\ network after_two_checks = [health_url]
  /\ issued (Start 135000) after_two_checks = 1%nat
  /\ network (step (Start 135000) after_two_checks) = [health_url; health_url].
Proof. vm_compute. repeat split; try reflexivity. Qed.


End ChatSpec.

(* ------------------------------------------------------------------ *)
(** ** DocumentProcessor: handlers *)
(* ------------------------------------------------------------------ *)

Module DocSpec.
Import Doc.

Section WithPlatform.
Context `{P : Platform} {PL : PlatformLaws P}.

Ltac mrun :=
  repeat (unfold bind, ret, gets, modify, lift, throw, try_catch,
            getElementById, fetch; simpl).

Lemma add_class_elem c l : c ∈ add_class c l.
Proof.
  unfold add_class. case_bool_decide; [assumption|].
  apply elem_of_app. right. apply list_elem_of_singleton. reflexivity.
Qed.

Lemma remove_class_not_elem c l : c ∉ remove_class c l.
Proof.
  unfold remove_class. intros H. apply list_elem_of_filter in H as [H _].
  apply H. reflexivity.
Qed.

Lemma showLoading_loading i w :
  outcome (showLoading i) w = Ret tt /\ loading i (exec (showLoading i) w).
Proof.
  unfold outcome, exec, showLoading, loading. mrun.
  destruct (elements w !! i) as [e|] eqn:He; simpl.
  - split; [reflexivity|]. intros el Hel. rewrite lookup_insert_eq in Hel.
    injection Hel as <-. simpl. split; [reflexivity | apply add_class_elem].
  - split; [reflexivity|]. intros el Hel. congruence.
Qed.

Lemma hideLoading_cleared i w :
  outcome (hideLoading i) w = Ret tt /\ cleared i (exec (hideLoading i) w).
Proof.
  unfold outcome, exec, hideLoading, cleared. mrun.
  destruct (elements w !! i) as [e|] eqn:He; simpl.
  - split; [reflexivity|]. intros el Hel. rewrite lookup_insert_eq in Hel.
    injection Hel as <-. simpl. split; [reflexivity | apply remove_class_not_elem].
  - split; [reflexivity|]. intros el Hel. congruence.
Qed.

Lemma quiet_refl w : quiet w w.
Proof. split; reflexivity. Qed.

Lemma quiet_trans w1 w2 w3 : quiet w1 w2 -> quiet w2 w3 -> quiet w1 w3.
Proof. intros [? ?] [? ?]. split; congruence. Qed.

Ltac quieted :=
  repeat first
    [ match goal with
      | |- forall _, _ => intro
      | |- preserves _ (ret _) => apply (preserves_ret quiet quiet_refl)
      | |- preserves _ (throw _) => apply (preserves_throw quiet quiet_refl)
      | |- preserves _ (gets _) => apply (preserves_gets quiet quiet_refl)
      | |- preserves _ (lift _) => apply (preserves_lift quiet quiet_refl)
      | |- preserves _ (bind _ _) => apply (preserves_bind quiet quiet_trans)
      | |- preserves _ (modify (with_main_card _)) =>
          apply preserves_modify; intros ?; split; reflexivity
      | |- preserves _ (match ?x with _ => _ end) => destruct x
      end ].

Lemma showError_quiet m : preserves quiet (showError m).
Proof. unfold showError. quieted. Qed.

Lemma collect_parameters_pure ps : forall acc w,
  exec (collect_parameters ps acc) w = w.
Proof.
  induction ps as [|param r IH]; intros acc w; [reflexivity|].
  unfold exec in *. simpl. unfold value_of, getElementById. mrun.
  destruct (elements w !! id param) as [e|]; [|reflexivity]. simpl.
  destruct (string_truthy (value e)); [apply IH|].
  unfold fill_in_message. mrun.
  destruct (translations w); try reflexivity;
    destruct (translation _ _); reflexivity.
Qed.

Lemma handleDocumentGeneration_begin_awaits w et ej el ps parameters :
  elements w !! "template-select" = Some et ->
  elements w !! "jurisdiction" = Some ej ->
  elements w !! "document-language" = Some el ->
  string_truthy (value et) = true ->
  string_truthy (value ej) = true ->
  getTemplateParameters (value et) = Some ps ->
  outcome (collect_parameters ps []) w = Ret parameters ->
  handleDocumentGeneration_begin w =
    (Ret Awaiting,
     with_network (fun n => n ++
         [generate_request w (value et) (value ej) (value el) parameters])
       (exec (showLoading "generate-document") w)).
Proof.
  intros Ht Hj Hl Hgt Hgj Hps Hc.
  pose proof (collect_parameters_pure ps [] w) as Hpure.
  unfold outcome, exec in Hc, Hpure.
  destruct (collect_parameters ps [] w) as [r w1] eqn:Hcol.
  simpl in Hc, Hpure. subst r w1.
  unfold handleDocumentGeneration_begin, value_of, showLoading, generate_request,
    exec.
  mrun. rewrite Ht. simpl. rewrite Hj. simpl. rewrite Hl. simpl.
  rewrite Hgt, Hgj. simpl. rewrite Hps, Hcol.
  destruct (elements w !! "generate-document"); reflexivity.
Qed.

(** A start of [handleDocumentGeneration] either ends before the
    [try], having touched neither a control nor the network, or gets to its
    [await] with the control in its loading state and one request out. *)
Lemma handleDocumentGeneration_begin_cases w :
  (outcome handleDocumentGeneration_begin w <> Ret Awaiting
   /\ quiet w (exec handleDocumentGeneration_begin w))
  \/ exists et ej el ps parameters,
       elements w !! "template-select" = Some et
       /\ elements w !! "jurisdiction" = Some ej
       /\ elements w !! "document-language" = Some el
       /\ string_truthy (value et) = true
       /\ string_truthy (value ej) = true
       /\ getTemplateParameters (value et) = Some ps
       /\ outcome (collect_parameters ps []) w = Ret parameters
       /\ handleDocumentGeneration_begin w =
            (Ret Awaiting,
             with_network (fun n => n ++
                 [generate_request w (value et) (value ej) (value el) parameters])
               (exec (showLoading "generate-document") w)).
Proof.
  unfold outcome, exec.
  destruct (elements w !! "template-select") as [et|] eqn:Ht.
  2: { left. unfold handleDocumentGeneration_begin, value_of. mrun. rewrite Ht.
       simpl. split; [discriminate | apply quiet_refl]. }
  destruct (elements w !! "jurisdiction") as [ej|] eqn:Hj.
  2: { left. unfold handleDocumentGeneration_begin, value_of. mrun. rewrite Ht.
       simpl. rewrite Hj. simpl. split; [discriminate | apply quiet_refl]. }
  destruct (elements w !! "document-language") as [el|] eqn:Hl.
  2: { left. unfold handleDocumentGeneration_begin, value_of. mrun. rewrite Ht.
       simpl. rewrite Hj. simpl. rewrite Hl. simpl.
       split; [discriminate | apply quiet_refl]. }
  destruct (negb (string_truthy (value et)) || negb (string_truthy (value ej)))
    eqn:Hguard.
  { left. unfold handleDocumentGeneration_begin, value_of. mrun. rewrite Ht.
    simpl. rewrite Hj. simpl. rewrite Hl. simpl. rewrite Hguard.
    match goal with |- context [showError ?m w] =>
      pose proof (showError_quiet m w) as Hq; unfold exec in Hq;
      destruct (showError m w) as [[u|e] w1] end;
      simpl in *; split; [discriminate | exact Hq | discriminate | exact Hq]. }
  apply orb_false_iff in Hguard as Hguard'. destruct Hguard' as [Hgt Hgj].
  apply negb_false_iff in Hgt, Hgj.
  destruct (getTemplateParameters (value et)) as [ps|] eqn:Hps.
  2: { left. unfold handleDocumentGeneration_begin, value_of. mrun. rewrite Ht.
       simpl. rewrite Hj. simpl. rewrite Hl. simpl. rewrite Hguard, Hps.
       simpl. split; [discriminate | apply quiet_refl]. }
  pose proof (collect_parameters_pure ps [] w) as Hpure. unfold exec in Hpure.
  destruct (collect_parameters ps [] w) as [[parameters|e] w1] eqn:Hcol;
    simpl in Hpure; subst w1.
  2: { left. unfold handleDocumentGeneration_begin, value_of. mrun. rewrite Ht.
       simpl. rewrite Hj. simpl. rewrite Hl. simpl. rewrite Hguard, Hps, Hcol.
       simpl. split; [discriminate | apply quiet_refl]. }
  right. exists et, ej, el, ps, parameters.
  repeat (split; [assumption || reflexivity|]).
  assert (Hc : outcome (collect_parameters ps []) w = Ret parameters)
    by (unfold outcome; rewrite Hcol; reflexivity).
  split; [exact Hc|].
  apply (handleDocumentGeneration_begin_awaits w et ej el ps); assumption.
Qed.

(** The same for [handleDocumentAnalysis]. *)
Lemma handleDocumentAnalysis_begin_cases w :
  (outcome handleDocumentAnalysis_begin w <> Ret Awaiting
   /\ quiet w (exec handleDocumentAnalysis_begin w))
  \/ exists req,
       handleDocumentAnalysis_begin w =
         (Ret Awaiting,
          with_network (fun n => n ++ [req]) (exec (showLoading "analyze-document") w)).
Proof.
  unfold outcome, exec.
  destruct (elements w !! "document-text") as [e1|] eqn:H1.
  2: { left. unfold handleDocumentAnalysis_begin, value_of. mrun. rewrite H1.
       simpl. split; [discriminate | apply quiet_refl]. }
  destruct (elements w !! "document-type") as [e2|] eqn:H2.
  2: { left. unfold handleDocumentAnalysis_begin, value_of. mrun. rewrite H1.
       simpl. rewrite H2. simpl. split; [discriminate | apply quiet_refl]. }
  destruct (elements w !! "document-jurisdiction") as [e3|] eqn:H3.
  2: { left. unfold handleDocumentAnalysis_begin, value_of. mrun. rewrite H1.
       simpl. rewrite H2. simpl. rewrite H3. simpl.
       split; [discriminate | apply quiet_refl]. }
  destruct (elements w !! "document-language") as [e4|] eqn:H4.
  2: { left. unfold handleDocumentAnalysis_begin, value_of. mrun. rewrite H1.
       simpl. rewrite H2. simpl. rewrite H3. simpl. rewrite H4. simpl.
       split; [discriminate | apply quiet_refl]. }
  destruct (negb (string_truthy (trim (value e1)))) eqn:Hguard.
  { left. unfold handleDocumentAnalysis_begin, value_of. mrun. rewrite H1.
    simpl. rewrite H2. simpl. rewrite H3. simpl. rewrite H4. simpl.
    rewrite Hguard.
    match goal with |- context [showError ?m w] =>
      pose proof (showError_quiet m w) as Hq; unfold exec in Hq;
      destruct (showError m w) as [[u|e] w1] end;
      simpl in *; split; [discriminate | exact Hq | discriminate | exact Hq]. }
  right. exists (analyze_request w (value e1) (value e2) (value e3) (value e4)).
  unfold handleDocumentAnalysis_begin, value_of, showLoading, analyze_request.
  mrun. rewrite H1. simpl. rewrite H2. simpl. rewrite H3. simpl. rewrite H4. simpl.
  rewrite Hguard.
  destruct (elements w !! "analyze-document"); reflexivity.
Qed.

(** C9. A handler that got to its request leaves its control, when the
    control is in the page, disabled and with the class [loading]; a handler
    that ended before its request left every control as it was. However the
    request ends (rejected, unreadable body, or a body, whether it can be
    displayed or not, and even when showing the error fails) and whatever the
    page has become in the meantime, when the handler is through, its
    control, if in the page, is enabled and without the class [loading]. *)
Theorem loading_cleared_at_completion w :
  ((outcome handleDocumentAnalysis_begin w <> Ret Awaiting
    /\ elements (exec handleDocumentAnalysis_begin w) = elements w)
   \/ (outcome handleDocumentAnalysis_begin w = Ret Awaiting
       /\ loading "analyze-document" (exec handleDocumentAnalysis_begin w)))
  /\ (forall o w2,
        cleared "analyze-document" (exec (handleDocumentAnalysis_resume o) w2))
  /\ ((outcome handleDocumentGeneration_begin w <> Ret Awaiting
       /\ elements (exec handleDocumentGeneration_begin w) = elements w)
      \/ (outcome handleDocumentGeneration_begin w = Ret Awaiting
          /\ loading "generate-document" (exec handleDocumentGeneration_begin w)))
  /\ (forall o w2,
        cleared "generate-document" (exec (handleDocumentGeneration_resume o) w2)).
Proof.
  split; [|split; [|split]].
  - destruct (handleDocumentAnalysis_begin_cases w) as [[Hn [He _]] | [req Hr]].
    + left. auto.
    + right. unfold outcome, exec. rewrite Hr. simpl. split; [reflexivity|].
      apply (showLoading_loading "analyze-document" w).
  - intros o w2. unfold handleDocumentAnalysis_resume.
    rewrite try_finally_exec. apply hideLoading_cleared.
  - destruct (handleDocumentGeneration_begin_cases w)
      as [[Hn [He _]] | (et & ej & el & ps & pa & _ & _ & _ & _ & _ & _ & _ & Hr)].
    + left. auto.
    + right. unfold outcome, exec. rewrite Hr. simpl. split; [reflexivity|].
      apply (showLoading_loading "generate-document" w).
  - intros o w2. unfold handleDocumentGeneration_resume.
    rewrite try_finally_exec. apply hideLoading_cleared.
Qed.

Lemma audio_only_refl w : audio_only w w.
Proof. exists []. rewrite app_nil_r. split; [reflexivity | constructor]. Qed.

Lemma audio_only_same w w' : network w' = network w -> audio_only w w'.
Proof.
  intros H. exists []. rewrite app_nil_r. split; [exact H | constructor].
Qed.

Lemma audio_only_trans w1 w2 w3 :
  audio_only w1 w2 -> audio_only w2 w3 -> audio_only w1 w3.
Proof.
  intros (x1 & H1 & F1) (x2 & H2 & F2). exists (x1 ++ x2).
  rewrite H2, H1, app_assoc. split; [reflexivity | apply Forall_app; auto].
Qed.

Ltac audio :=
  repeat first
    [ match goal with
      | |- forall _, _ => intro
      | |- preserves _ (ret _) => apply (preserves_ret audio_only audio_only_refl)
      | |- preserves _ (throw _) => apply (preserves_throw audio_only audio_only_refl)
      | |- preserves _ (gets _) => apply (preserves_gets audio_only audio_only_refl)
      | |- preserves _ (lift _) => apply (preserves_lift audio_only audio_only_refl)
      | |- preserves _ (bind _ _) => apply (preserves_bind audio_only audio_only_trans)
      | |- preserves _ (try_catch _ _) =>
          apply (preserves_try_catch audio_only audio_only_trans)
      | |- preserves _ (try_finally _ _) =>
          apply (preserves_try_finally audio_only audio_only_trans)
      | |- preserves _ (modify (with_main_card _)) =>
          apply preserves_modify; intros ?; apply audio_only_same; reflexivity
      | |- preserves _ (modify (with_elements _)) =>
          apply preserves_modify; intros ?; apply audio_only_same; reflexivity
      | |- preserves _ (match ?x with _ => _ end) => destruct x
      end ].

Lemma offerAudioVersion_audio text : preserves audio_only (offerAudioVersion text).
Proof.
  unfold offerAudioVersion, fetch. apply preserves_modify. intros w.
  eexists. split; [reflexivity|]. repeat constructor.
Qed.

Lemma handleDocumentGeneration_resume_audio o :
  preserves audio_only (handleDocumentGeneration_resume o).
Proof.
  unfold handleDocumentGeneration_resume, awaited, displayGeneratedDocument,
    set_innerHTML, translated, showError, hideLoading, getElementById.
  audio; apply offerAudioVersion_audio.
Qed.

Lemma audio_is_no_generation : audio_url <> generate_url.
Proof. vm_compute. discriminate. Qed.

Lemma generation_requests_audio n extra :
  Forall (fun r => url r = audio_url) extra ->
  generation_requests (n ++ extra) = generation_requests n.
Proof.
  intros Hf. unfold generation_requests. rewrite filter_app.
  assert (Hnil : filter (fun r => url r = generate_url) extra = []).
  { induction Hf as [|r extra Hr Hf IH]; [reflexivity|].
    rewrite filter_cons_False; [exact IH|].
    intros Hg. apply audio_is_no_generation. congruence. }
  rewrite Hnil. apply app_nil_r.
Qed.

Lemma collect_nda w e1 e2 e3 e4 :
  elements w !! "party1" = Some e1 ->
  elements w !! "party2" = Some e2 ->
  elements w !! "confidentiality_period" = Some e3 ->
  elements w !! "purpose" = Some e4 ->
  let filled := string_truthy (value e1) && string_truthy (value e2)
                && string_truthy (value e3) && string_truthy (value e4) in
  (filled = true ->
   outcome (collect_parameters nda []) w =
     Ret (nda_parameters (value e1) (value e2) (value e3) (value e4)))
  /\ (filled = false ->
      exists e, outcome (collect_parameters nda []) w = Throw e).
Proof.
  intros H1 H2 H3 H4 filled. subst filled.
  unfold outcome, nda. simpl. unfold value_of, getElementById. mrun.
  rewrite H1. simpl.
  destruct (string_truthy (value e1)); simpl.
  2: { split; [discriminate|]. intros _.
       destruct (fill_in_message _ w) as [[m|e] w']; eexists; reflexivity. }
  rewrite H2. simpl.
  destruct (string_truthy (value e2)); simpl.
  2: { split; [discriminate|]. intros _.
       destruct (fill_in_message _ w) as [[m|e] w']; eexists; reflexivity. }
  rewrite H3. simpl.
  destruct (string_truthy (value e3)); simpl.
  2: { split; [discriminate|]. intros _.
       destruct (fill_in_message _ w) as [[m|e] w']; eexists; reflexivity. }
  rewrite H4. simpl.
  destruct (string_truthy (value e4)); simpl.
  2: { split; [discriminate|]. intros _.
       destruct (fill_in_message _ w) as [[m|e] w']; eexists; reflexivity. }
  split; [reflexivity | discriminate].
Qed.

(** C3. With the NDA template selected, a jurisdiction given, and the
    language control and the four parameter fields in the page: when the
    four fields are all non-empty, starting [handleDocumentGeneration] puts
    exactly one request on the network, a POST to the generation endpoint
    whose body is the serialisation of an object with [template_key] "nda"
    and, under [parameters], the four values keyed by their field ids; when
    one of the four fields is empty, the handler ends before its request and
    the network log is what it was. Completing the handler adds no
    generation request. *)
Theorem nda_generation_request w et ej el e1 e2 e3 e4 :
  elements w !! "template-select" = Some et -> value et = "nda" ->
  elements w !! "jurisdiction" = Some ej -> string_truthy (value ej) = true ->
  elements w !! "document-language" = Some el ->
  elements w !! "party1" = Some e1 ->
  elements w !! "party2" = Some e2 ->
  elements w !! "confidentiality_period" = Some e3 ->
  elements w !! "purpose" = Some e4 ->
  let filled := string_truthy (value e1) && string_truthy (value e2)
                && string_truthy (value e3) && string_truthy (value e4) in
  (filled = true ->
   outcome handleDocumentGeneration_begin w = Ret Awaiting
   /\ network (exec handleDocumentGeneration_begin w) =
        network w ++
        [mkRequest generate_url "POST"
           (JSON_stringify
              (generate_body "nda" (value ej)
                 (or_else (value el) (currentLanguage w))
                 (nda_parameters (value e1) (value e2) (value e3) (value e4))))])
  /\ (filled = false ->
      outcome handleDocumentGeneration_begin w <> Ret Awaiting
      /\ network (exec handleDocumentGeneration_begin w) = network w)
  /\ (forall o w2,
        generation_requests (network (exec (handleDocumentGeneration_resume o) w2)) =
        generation_requests (network w2)).
Proof.
  intros Ht Hnda Hj Hjt Hl H1 H2 H3 H4 filled.
  destruct (collect_nda w e1 e2 e3 e4 H1 H2 H3 H4) as [Hfull Hmiss].
  fold filled in Hfull, Hmiss.
  assert (Hps : getTemplateParameters (value et) = Some nda)
    by (rewrite Hnda; reflexivity).
  split; [|split].
  - intros Hf. specialize (Hfull Hf).
    assert (Hgt : string_truthy (value et) = true) by (rewrite Hnda; reflexivity).
    unfold outcome, exec.
    rewrite (handleDocumentGeneration_begin_awaits w et ej el nda _
               Ht Hj Hl Hgt Hjt Hps Hfull).
    simpl. split; [reflexivity|].
    unfold generate_request. rewrite Hnda.
    unfold showLoading, exec. mrun.
    destruct (elements w !! "generate-document"); reflexivity.
  - intros Hf. destruct (Hmiss Hf) as [e He].
    destruct (handleDocumentGeneration_begin_cases w)
      as [[Hn [_ Hq]] | (et' & ej' & el' & ps & pa & Ht' & _ & _ & _ & _ & Hps' & Hc & _)].
    + auto.
    + exfalso. rewrite Ht in Ht'. injection Ht' as <-.
      rewrite Hps in Hps'. injection Hps' as <-. congruence.
  - intros o w2.
    destruct (handleDocumentGeneration_resume_audio o w2) as (extra & Hn & Hx).
    rewrite Hn. apply generation_requests_audio, Hx.
Qed.

End WithPlatform.

Lemma nda_generation_request_witness :
  outcome (handleDocumentGeneration_begin (P:=RefPlatform.platform)) (nda_page "us") =
    Ret Awaiting
  /\ network (exec (handleDocumentGeneration_begin (P:=RefPlatform.platform)) (nda_page "us")) =
       [mkRequest generate_url "POST"
          (@JSON_stringify RefPlatform.platform
             (generate_body "nda" "us" "en"
                (nda_parameters "Acme Ltd" "Bolt LLC" "24" "Evaluation of a merger")))].
Proof.
  destruct (nda_generation_request (P:=RefPlatform.platform) (nda_page "us")
              (control "nda") (control "us") (control "en")
              (control "Acme Ltd") (control "Bolt LLC") (control "24")
              (control "Evaluation of a merger"))
    as (H & _ & _); try reflexivity.
  apply H. reflexivity.
Defined.

(** The NDA template is selected and its four fields are filled in, the
    jurisdiction field is empty: the handler shows the message of its first
    check and sends nothing. *)
Lemma nda_without_jurisdiction_sends_nothing :
  (value <$> nda_form EmptyString !! "template-select") = Some "nda"
  /\ (string_truthy <$> (value <$> nda_form EmptyString !! "party1")) = Some true
  /\ (string_truthy <$> (value <$> nda_form EmptyString !! "party2")) = Some true
  /\ (string_truthy <$> (value <$> nda_form EmptyString !! "confidentiality_period"))
       = Some true
  /\ (string_truthy <$> (value <$> nda_form EmptyString !! "purpose")) = Some true
  /\ outcome (handleDocumentGeneration_begin (P:=RefPlatform.platform))
             (nda_page EmptyString) = Ret Finished
  /\ network (exec (handleDocumentGeneration_begin (P:=RefPlatform.platform))
                   (nda_page EmptyString)) = []
  /\ main_card (exec (handleDocumentGeneration_begin (P:=RefPlatform.platform))
                     (nda_page EmptyString)) =
       Some [Msg (JStr "Please select a template and specify jurisdiction")].
Proof. vm_compute. repeat split; reflexivity. Qed.

(** One of the four fields is empty: the handler throws before its
    [try], so no alert is shown and nothing is sent. *)
Lemma nda_empty_field_throws :
  handleDocumentGeneration_begin (P:=RefPlatform.platform)
    (with_elements (insert "purpose" (control EmptyString)) (nda_page "us")) =
  (Throw (Error (JStr "Please fill in Purpose of Agreement")),
   with_elements (insert "purpose" (control EmptyString)) (nda_page "us")).
Proof. vm_compute. reflexivity. Qed.

End DocSpec.

(* ------------------------------------------------------------------ *)
(** ** DocumentProcessor: news socket *)
(* ------------------------------------------------------------------ *)

Module NewsSpec.
Import News.

Lemma invariant_init t0 constructs : invariant (init t0 constructs).
Proof.
  unfold invariant, init, setupNewsWebSocket. simpl.
  repeat split.
  - destruct constructs; simpl; lia.
  - intros a Ha. apply list_elem_of_singleton in Ha. lia.
  - intros due a Hd. inversion Hd.
Qed.

Lemma invariant_step ev s s' :
  invariant s -> step ev s = Some s' -> invariant s'.
Proof.
  intros (Hone & Hcount & Hsp & Hpast & Hdue) Hstep.
  destruct ev as [|d|i constructs]; simpl in Hstep.
  - destruct (sockets s) as [|n] eqn:Hs; [discriminate|].
    injection Hstep as <-.
    assert (Ht : timers s = []) by (destruct (timers s); [reflexivity | simpl in Hone; lia]).
    unfold invariant, onclose. simpl. rewrite Ht in *. simpl in *.
    rewrite length_app. simpl.
    repeat split; try assumption; try lia.
    intros due a Hd Ha. apply list_elem_of_singleton in Hd. subst due.
    specialize (Hpast a Ha). lia.
  - case_bool_decide; [|discriminate]. injection Hstep as <-.
    unfold invariant. simpl. repeat split; try assumption.
    intros a Ha. specialize (Hpast a Ha). lia.
  - destruct (timers s !! i) as [due|] eqn:Hi; [|discriminate].
    case_bool_decide as Hle; [|discriminate]. injection Hstep as <-.
    assert (Ht : timers s = [due] /\ i = O).
    { destruct (timers s) as [|x [|y r]]; simpl in *.
      - discriminate.
      - destruct i; simpl in Hi; [injection Hi as ->; auto | discriminate].
      - lia. }
    destruct Ht as [Ht ->]. rewrite Ht in *. simpl in *.
    assert (Hs : sockets s = O) by lia.
    unfold invariant, setupNewsWebSocket. simpl. rewrite Hs.
    rewrite length_app. simpl.
    split; [destruct constructs; simpl; lia|].
    split; [lia|]. split; [|split].
    + apply spaced_snoc; [exact Hsp|]. intros a Ha.
      assert (a + reconnect_delay <= due) by (apply Hdue; [left | exact Ha]).
      lia.
    + intros a Ha. apply elem_of_app in Ha as [Ha|Ha].
      * apply Hpast, Ha.
      * apply list_elem_of_singleton in Ha. lia.
    + intros d a Hd. inversion Hd.
Qed.

Lemma invariant_run evs : forall s s',
  invariant s -> run evs s = Some s' -> invariant s'.
Proof.
  induction evs as [|ev evs IH]; intros s s' Hinv Hrun; simpl in Hrun.
  - injection Hrun as <-. exact Hinv.
  - destruct (step ev s) as [s1|] eqn:Hstep; [|discriminate].
    eapply IH; [|exact Hrun]. eapply invariant_step; eauto.
Qed.

(** With a socket open and no timer pending, [n] rounds of closure,
    delay and retry all happen, and leave a socket open again. *)
Lemma closures_and_retries_run n : forall s,
  sockets s = 1%nat -> timers s = [] ->
  run (closures_and_retries n) s =
    Some (mkState (now s + reconnect_delay * Z.of_nat n) [] 1
            (attempts s ++ times_from (now s + reconnect_delay) n)
            (closures s ++ times_from (now s) n)).
Proof.
  induction n as [|n IH]; intros s Hs Ht.
  - simpl. rewrite !app_nil_r, Z.mul_0_r, Z.add_0_r.
    destruct s; simpl in *; subst; reflexivity.
  - cbn [closures_and_retries run step]. rewrite Hs, Ht.
    unfold onclose. cbn [now timers sockets attempts closures app].
    rewrite bool_decide_eq_true_2 by (unfold reconnect_delay; lia).
    cbn [now timers sockets attempts closures lookup list_lookup].
    rewrite bool_decide_eq_true_2 by lia.
    rewrite IH by reflexivity.
    unfold setupNewsWebSocket. cbn [now timers sockets attempts closures].
    f_equal. f_equal.
    + lia.
    + rewrite <- app_assoc. reflexivity.
    + rewrite <- app_assoc. reflexivity.
Qed.

(** C4. In every run of the client from its construction: a closure of
    the open socket schedules exactly one timer, due the fixed delay of five
    seconds later whatever the number of closures before it, and leaves the
    attempts as they are; the callback of a due timer makes exactly one
    connection attempt; every closure is matched by an attempt made or by
    its pending timer, so after N closures at least N attempts have been
    made; and successive attempts are at least the delay apart. There is no
    ceiling: for every N, N rounds of closure, delay and retry all happen and
    leave N + 1 attempts, exactly one delay apart, and a socket open. *)
Theorem reconnects_after_every_closure t0 constructs evs s :
  run evs (init t0 constructs) = Some s ->
  (forall s', step Close s = Some s' ->
     timers s' = timers s ++ [now s + reconnect_delay]
     /\ attempts s' = attempts s
     /\ closures s' = closures s ++ [now s])
  /\ (forall i c s', step (Timeout i c) s = Some s' ->
        attempts s' = attempts s ++ [now s]
        /\ length (timers s') < length (timers s))%nat
  /\ (length (attempts s) + length (timers s) = S (length (closures s)))%nat
  /\ (length (closures s) <= length (attempts s))%nat
  /\ spaced reconnect_delay (attempts s)
  /\ (forall N, exists sN,
        run (closures_and_retries N) (init t0 true) = Some sN
        /\ length (closures sN) = N
        /\ attempts sN = times_from t0 (S N)
        /\ sockets sN = 1%nat).
Proof.
  intros Hrun.
  pose proof (invariant_run evs _ _ (invariant_init t0 constructs) Hrun)
    as (Hone & Hcount & Hsp & _ & _).
  split; [|split; [|split; [|split; [|split]]]].
  - intros s' Hstep. simpl in Hstep.
    destruct (sockets s); [discriminate|]. injection Hstep as <-. auto.
  - intros i c s' Hstep. simpl in Hstep.
    destruct (timers s !! i) as [due|] eqn:Hi; [|discriminate].
    case_bool_decide; [|discriminate]. injection Hstep as <-. simpl.
    split; [reflexivity|]. rewrite length_delete by (eexists; exact Hi).
    apply lookup_lt_Some in Hi. lia.
  - exact Hcount.
  - lia.
  - exact Hsp.
  - intros N. eexists. split.
    + apply (closures_and_retries_run N (init t0 true)); reflexivity.
    + simpl. split; [|split; reflexivity].
      clear. generalize t0. induction N as [|N IH]; intros t; simpl; [reflexivity|].
      rewrite IH. reflexivity.
Qed.

Lemma reconnects_after_every_closure_witness :
  run (closures_and_retries 2) (init 0 true) = Some after_two_rounds
  /\ (length (closures after_two_rounds) <= length (attempts after_two_rounds))%nat
  /\ spaced reconnect_delay (attempts after_two_rounds).
Proof.
  assert (H : run (closures_and_retries 2) (init 0 true) = Some after_two_rounds)
    by reflexivity.
  split; [exact H|].
  destruct (reconnects_after_every_closure 0 true (closures_and_retries 2)
              after_two_rounds H) as (_ & _ & _ & H4 & H5 & _).
  split; [exact H4 | exact H5].
Defined.

End NewsSpec.

(* ------------------------------------------------------------------ *)
(** ** Shared parts *)
(* ------------------------------------------------------------------ *)

Module FocusFacts.

Lemma zoom_exec {S T A} (get : T -> S) (set : S -> T -> T) (m : M S A) t :
  exec (zoom get set m) t = set (exec m (get t)) t.
Proof. unfold exec, zoom. destruct (m (get t)). reflexivity. Qed.

Lemma zoom_outcome {S T A} (get : T -> S) (set : S -> T -> T) (m : M S A) t :
  outcome (zoom get set m) t = outcome m (get t).
Proof. unfold outcome, zoom. destruct (m (get t)). reflexivity. Qed.

Lemma zoom_eq {S T A} (get : T -> S) (set : S -> T -> T) (m : M S A) t r s :
  m (get t) = (r, s) -> zoom get set m t = (r, set s t).
Proof. intros H. unfold zoom. rewrite H. reflexivity. Qed.

(** What a computation respects on the part, it respects on the world. *)
Lemma preserves_zoom {S T A} (R : S -> S -> Prop) (Q : T -> T -> Prop)
    (get : T -> S) (set : S -> T -> T) (m : M S A) :
  (forall t s, R (get t) s -> Q t (set s t)) ->
  preserves R m -> preserves Q (zoom get set m).
Proof. intros H Hm t. rewrite zoom_exec. apply H, Hm. Qed.

Lemma preserves_detached {S A} (R : S -> S -> Prop) (m : M S A) :
  preserves R m -> preserves R (detached m).
Proof.
  intros Hm w. specialize (Hm w). unfold exec, detached in *.
  destruct (m w). exact Hm.
Qed.

(** The continuation of [gets] knows the world it read from. *)
Lemma preserves_bind_gets {S A B} (R : S -> S -> Prop) (f : S -> A) (k : A -> M S B) :
  (forall w, R w (exec (k (f w)) w)) -> preserves R (bind (gets f) k).
Proof. intros H w. exact (H w). Qed.

(** Decomposes a goal [preserves R m] along the structure of [m]. *)
Ltac through refl trans :=
  repeat first
    [ match goal with
      | |- forall _, _ => intro
      | |- preserves _ (ret _) => apply (preserves_ret _ refl)
      | |- preserves _ (throw _) => apply (preserves_throw _ refl)
      | |- preserves _ (gets _) => apply (preserves_gets _ refl)
      | |- preserves _ (lift _) => apply (preserves_lift _ refl)
      | |- preserves _ (bind _ _) => apply (preserves_bind _ trans)
      | |- preserves _ (try_catch _ _) => apply (preserves_try_catch _ trans)
      | |- preserves _ (match ?x with _ => _ end) => destruct x
      end ].

End FocusFacts.
Import FocusFacts.

(* ------------------------------------------------------------------ *)
(** ** Texts *)
(* ------------------------------------------------------------------ *)

Module TextSpec.
Import Text.

Lemma chars_app a b : chars (a +:+ b) = chars a ++ chars b.
Proof. induction a as [|c a IH]; simpl; [reflexivity | rewrite IH; reflexivity]. Qed.

Lemma sanitizeInput_cases c r :
  (exists ent rest, sanitizeInput (String c r) = ent +:+ sanitizeInput rest
      /\ ent ∈ ["&amp;"; "&lt;"; "&gt;"; "&nbsp;"]
      /\ (String.length rest <= String.length r)%nat)
  \/ (sanitizeInput (String c r) = String c (sanitizeInput r)
      /\ c <> "<"%char /\ c <> ">"%char).
Proof.
  simpl.
  destruct (Ascii.eqb_spec c "&"); [left; exists "&amp;", r; set_solver|].
  destruct (Ascii.eqb_spec c "<"); [left; exists "&lt;", r; set_solver|].
  destruct (Ascii.eqb_spec c ">"); [left; exists "&gt;", r; set_solver|].
  destruct (Ascii.eqb_spec c (byte 194)); [|right; auto].
  destruct r as [|c' r']; [right; auto|].
  destruct (Ascii.eqb_spec c' (byte 160)); [|right; auto].
  left. exists "&nbsp;", r'. split; [reflexivity|]. split; [set_solver|]. simpl. lia.
Qed.

Lemma sanitizeInput_markup_free n : forall s, (String.length s <= n)%nat ->
  ("<"%char ∉ chars (sanitizeInput s)) /\ (">"%char ∉ chars (sanitizeInput s)).
Proof.
  induction n as [|n IH]; intros [|c r] Hn; simpl in Hn; try lia;
    try (simpl; split; apply not_elem_of_nil).
  destruct (sanitizeInput_cases c r) as [(ent & rest & -> & Hent & Hlen)|(-> & Hlt & Hgt)].
  - destruct (IH rest ltac:(lia)) as [H1 H2]. rewrite chars_app.
    rewrite !not_elem_of_app.
    assert (He : ("<"%char ∉ chars ent) /\ (">"%char ∉ chars ent)).
    { set_unfold in Hent. destruct Hent as [->|[->|[->|[->|[]]]]]; simpl; split;
        intros H; repeat (apply elem_of_cons in H as [H|H]; [discriminate H|]);
        inversion H. }
    tauto.
  - destruct (IH r ltac:(lia)) as [H1 H2]. simpl.
    rewrite !not_elem_of_cons. split; split; auto.
Qed.

Lemma sanitizeInput_truthy s : string_truthy (sanitizeInput s) = string_truthy s.
Proof.
  destruct s as [|c r]; [reflexivity|].
  destruct (sanitizeInput_cases c r) as [(ent & rest & -> & Hent & _)|(-> & _)];
    [|reflexivity].
  set_unfold. destruct Hent as [->|[->|[->|[->|[]]]]]; reflexivity.
Qed.

End TextSpec.

(* ------------------------------------------------------------------ *)
(** ** ChatInterface: sending a message *)
(* ------------------------------------------------------------------ *)

Module AppSpec.
Import Text App.

Section WithPlatform.
Context `{P : Platform}.

Lemma same_gate_refl c : same_gate c c.
Proof. split; reflexivity. Qed.

Lemma same_gate_trans c1 c2 c3 : same_gate c1 c2 -> same_gate c2 c3 -> same_gate c1 c3.
Proof. intros [? ?] [? ?]. split; congruence. Qed.

Lemma same_gate_this c c' : Chat.this c' = Chat.this c -> same_gate c c'.
Proof. intros H. split; rewrite H; reflexivity. Qed.

Ltac gate_chat :=
  through same_gate_refl same_gate_trans;
  try (apply preserves_modify; intros ?; split; reflexivity).

Lemma addMessage_same_gate role content :
  preserves same_gate (Chat.addMessage role content).
Proof.
  unfold Chat.addMessage, Chat.messages_push, Chat.saveChatHistory, Chat.setItem.
  gate_chat.
Qed.

Lemma console_log_same_gate line : preserves same_gate (Chat.console_log line).
Proof. unfold Chat.console_log. gate_chat. Qed.

Lemma setItem_same_gate k v : preserves same_gate (Chat.setItem k v).
Proof. unfold Chat.setItem. gate_chat. Qed.

Lemma updateApiStatusIndicator_same_gate :
  preserves same_gate Chat.updateApiStatusIndicator.
Proof. unfold Chat.updateApiStatusIndicator. gate_chat. Qed.

Lemma checkApiAvailability_begin_same_gate :
  preserves same_gate Chat.checkApiAvailability_begin.
Proof.
  unfold Chat.checkApiAvailability_begin, Chat.fetchWithCache_begin. gate_chat.
Qed.

Lemma keeps_gate_refl w : keeps_gate w w.
Proof. repeat split. Qed.

Lemma keeps_gate_trans w1 w2 w3 : keeps_gate w1 w2 -> keeps_gate w2 w3 -> keeps_gate w1 w3.
Proof.
  intros (G12 & ? & ?) (G23 & ? & ?). split; [|split; congruence].
  eapply same_gate_trans; eassumption.
Qed.

Lemma stays_gated_refl w : stays_gated w w.
Proof. intros H. split; [exact H | reflexivity]. Qed.

Lemma stays_gated_trans w1 w2 w3 :
  stays_gated w1 w2 -> stays_gated w2 w3 -> stays_gated w1 w3.
Proof.
  intros H12 H23 Hg. destruct (H12 Hg) as [Hg2 Hp2].
  destruct (H23 Hg2) as [Hg3 Hp3]. split; [exact Hg3 | congruence].
Qed.

Lemma keeps_stays w w' : keeps_gate w w' -> stays_gated w w'.
Proof.
  intros ([Hf Hc] & Hp & Hposts) (Hflag & Hcache & Htasks).
  split; [|exact Hposts]. unfold gated. rewrite Hf, Hc, Hp. auto.
Qed.

Lemma preserves_keeps_stays {A} (m : M World A) :
  preserves keeps_gate m -> preserves stays_gated m.
Proof. intros H w. apply keeps_stays, H. Qed.

Lemma on_chat_keeps {A} (m : M Chat.World A) :
  preserves same_gate m -> preserves keeps_gate (on_chat m).
Proof.
  apply preserves_zoom. intros t s Hs. split; [exact Hs | split; reflexivity].
Qed.

Ltac keep :=
  through keeps_gate_refl keeps_gate_trans;
  try (apply preserves_modify; intros ?; repeat split).

Lemma log_keeps message : preserves keeps_gate (log message).
Proof. apply on_chat_keeps, console_log_same_gate. Qed.

Lemma showTypingIndicator_keeps : preserves keeps_gate showTypingIndicator.
Proof. unfold showTypingIndicator. keep. Qed.

Lemma hideTypingIndicator_keeps : preserves keeps_gate hideTypingIndicator.
Proof. unfold hideTypingIndicator. keep. Qed.

Lemma showSuccess_keeps message : preserves keeps_gate (showSuccess message).
Proof. unfold showSuccess. keep. Qed.

Lemma addMessage_keeps role content :
  preserves keeps_gate (on_chat (Chat.addMessage role content)).
Proof. apply on_chat_keeps, addMessage_same_gate. Qed.

Lemma updateApiStatusIndicator_keeps :
  preserves keeps_gate (on_chat Chat.updateApiStatusIndicator).
Proof. apply on_chat_keeps, updateApiStatusIndicator_same_gate. Qed.

Lemma set_false_stays :
  preserves stays_gated
    (on_chat (modify (Chat.with_this (Chat.set_apiAvailable (JBool false))))).
Proof.
  intros w (Hflag & Hcache & Htasks). split; [|reflexivity].
  split; [reflexivity|]. split; [exact Hcache | exact Htasks].
Qed.

Lemma await_stays t : task_no_ok t -> preserves stays_gated (await t).
Proof.
  intros Ht w (Hflag & Hcache & Htasks). split; [|reflexivity].
  split; [exact Hflag|]. split; [exact Hcache|].
  simpl. apply Forall_app. split; [exact Htasks|]. constructor; [exact Ht | constructor].
Qed.

Ltac stay :=
  through stays_gated_refl stays_gated_trans;
  first [ apply set_false_stays
        | apply preserves_keeps_stays;
          first [ apply log_keeps | apply showTypingIndicator_keeps
                | apply hideTypingIndicator_keeps | apply showSuccess_keeps
                | apply addMessage_keeps | apply updateApiStatusIndicator_keeps ]
        | idtac ].

Lemma send_failed_stays error : preserves stays_gated (send_failed error).
Proof. unfold send_failed. stay. Qed.

(** A check that starts on a page where nothing cached has a truthy
    [ok] awaits nothing that has one. *)
Lemma checkApiAvailability_begin_no_ok c :
  cache_no_ok c ->
  exists a c', Chat.checkApiAvailability_begin c = (Ret a, c')
    /\ same_gate c c'
    /\ forall a', a = Some a' -> awaits_no_ok a'.
Proof.
  intros Hc. pose proof (checkApiAvailability_begin_same_gate c) as Hs.
  unfold exec in Hs. revert Hs.
  unfold Chat.checkApiAvailability_begin, Chat.fetchWithCache_begin.
  unfold bind, gets, modify, ret. simpl.
  destruct (_ && _); simpl.
  { intros Hs. eexists _, _. split; [reflexivity|]. split; [exact Hs|]. discriminate. }
  destruct (Chat.cache (Chat.this c)) as [m|] eqn:Em; simpl.
  - destruct (m !! Chat.health_url) as [hit|] eqn:Eh; simpl.
    + destruct (truthy hit) eqn:Et; simpl; intros Hs;
        (eexists _, _; split; [reflexivity|]; split; [exact Hs|]);
        intros a' [= <-]; simpl; [|exact I].
      exact (Hc m _ _ Em Eh).
    + intros Hs. eexists _, _. split; [reflexivity|]. split; [exact Hs|].
      intros a' [= <-]. exact I.
  - intros Hs. eexists _, _. split; [reflexivity|]. split; [exact Hs|].
    intros a' [= <-]. exact I.
Qed.

Lemma gated_same_gate w c' :
  gated w -> same_gate (chat w) c' -> gated (with_chat (fun _ => c') w).
Proof.
  intros (Hflag & Hcache & Htasks) [Hf Hc]. unfold gated. simpl.
  rewrite Hf, Hc. auto.
Qed.

Lemma begin_then_stays {A} (k : option Chat.awaiting -> M World A) :
  (forall a, (forall a', a = Some a' -> awaits_no_ok a') -> preserves stays_gated (k a)) ->
  preserves stays_gated (bind (on_chat Chat.checkApiAvailability_begin) k).
Proof.
  intros Hk w Hg.
  destruct (checkApiAvailability_begin_no_ok (chat w)) as (a & c' & Hb & Hs & Ha).
  { destruct Hg as (_ & Hcache & _). exact Hcache. }
  unfold exec. erewrite bind_ret_eq; [|apply zoom_eq; exact Hb].
  destruct (Hk a Ha (with_chat (fun _ => c') w)) as [Hg' Hp'].
  { apply gated_same_gate; assumption. }
  split; [exact Hg' | exact Hp'].
Qed.

Lemma checkApiAvailability_stays : preserves stays_gated checkApiAvailability.
Proof.
  unfold checkApiAvailability. apply begin_then_stays.
  intros [a|] Ha; [apply await_stays; simpl; apply Ha; reflexivity|].
  apply (preserves_ret _ stays_gated_refl).
Qed.

Lemma handleSendMessage_begin_stays : preserves stays_gated handleSendMessage_begin.
Proof.
  unfold handleSendMessage_begin.
  apply preserves_bind_gets. intros w.
  destruct (user_input w) as [raw|]; [|apply (preserves_throw _ stays_gated_refl)].
  destruct (negb (string_truthy _)); [apply (preserves_ret _ stays_gated_refl)|].
  revert w. change (preserves stays_gated
    (on_chat (Chat.addMessage (JStr "user") (JStr (sanitizeInput (trim raw)))) ;;
     log ("User sent a message: " +:+ sanitizeInput (trim raw)) ;;
     try_catch
       (available ← gets (fun w => Chat.apiAvailable (Chat.this (chat w)));
        if negb (truthy available)
        then a ← on_chat Chat.checkApiAvailability_begin;
             await (SendChecking (sanitizeInput (trim raw)) a)
        else post (sanitizeInput (trim raw)))
       send_failed)).
  apply (preserves_bind _ stays_gated_trans); [stay|]. intros _.
  apply (preserves_bind _ stays_gated_trans); [stay|]. intros _.
  apply (preserves_try_catch _ stays_gated_trans); [|apply send_failed_stays].
  apply preserves_bind_gets. intros w Hg.
  destruct Hg as (Hflag & Hcache & Htasks). rewrite Hflag. simpl.
  apply begin_then_stays; [|repeat split; assumption].
  intros a Ha. apply await_stays. destruct a as [a|]; simpl; [apply Ha; reflexivity | exact I].
Qed.

Lemma handleSendMessage_checked_stays message checked :
  not_truthy checked -> preserves stays_gated (handleSendMessage_checked message checked).
Proof.
  intros Hc. unfold handleSendMessage_checked.
  apply (preserves_try_catch _ stays_gated_trans); [|apply send_failed_stays].
  destruct checked as [v|e].
  - intros w. unfold exec, bind, lift. rewrite (Hc v eq_refl). simpl.
    apply (preserves_keeps_stays _ (addMessage_keeps _ _)).
  - intros w. apply stays_gated_refl.
Qed.

Lemma handleSendMessage_fetched_stays response :
  preserves stays_gated (handleSendMessage_fetched response).
Proof.
  unfold handleSendMessage_fetched.
  apply (preserves_try_catch _ stays_gated_trans); [|apply send_failed_stays].
  destruct response as [[|]|]; stay. apply await_stays. exact I.
Qed.

Lemma handleSendMessage_read_stays body :
  preserves stays_gated (handleSendMessage_read body).
Proof.
  unfold handleSendMessage_read, addMessage, log_value.
  apply (preserves_try_catch _ stays_gated_trans); [|apply send_failed_stays].
  destruct body as [data|]; stay.
Qed.

Lemma toggleOfflineMode_stays : preserves stays_gated toggleOfflineMode.
Proof.
  unfold toggleOfflineMode.
  apply (preserves_bind _ stays_gated_trans).
  { apply preserves_keeps_stays, preserves_modify. intros w. repeat split. }
  intros _. stay. apply checkApiAvailability_stays.
Qed.

Lemma updateApiStatusIndicator_this c :
  Chat.this (exec Chat.updateApiStatusIndicator c) = Chat.this c.
Proof.
  unfold exec, Chat.updateApiStatusIndicator, bind, gets, modify, ret, throw. simpl.
  destruct (Chat.api_status (Chat.dom c)) as [el|]; simpl.
  - destruct (Chat.status_text el); reflexivity.
  - destruct (Chat.chat_header (Chat.dom c)); reflexivity.
Qed.

Lemma cache_no_ok_this c c' :
  Chat.cache (Chat.this c') = Chat.cache (Chat.this c) -> cache_no_ok c -> cache_no_ok c'.
Proof. intros H Hc m url data Hm. rewrite H in Hm. exact (Hc m url data Hm). Qed.

Lemma fetchWithCache_resume_no_ok url a o c r c1 :
  cache_no_ok c -> awaits_no_ok a -> outcome_no_ok o ->
  Chat.fetchWithCache_resume url a o c = (r, c1) ->
  cache_no_ok c1 /\ forall data, r = Ret data -> no_ok data.
Proof.
  intros Hc Ha Ho. unfold Chat.fetchWithCache_resume.
  destruct a as [e|cached|].
  - intros [= <- <-]. split; [exact Hc | discriminate].
  - intros [= <- <-]. split; [exact Hc|]. intros data [= <-]. exact Ha.
  - destruct o as [| |data].
    + intros [= <- <-]. split; [exact Hc | discriminate].
    + intros [= <- <-]. split; [exact Hc | discriminate].
    + unfold bind, gets. simpl. destruct (Chat.cache (Chat.this c)) as [m|] eqn:Em.
      * intros [= <- <-]. split; [|intros d [= <-]; exact Ho].
        intros m' url' data'. simpl. intros [= <-] Hl.
        destruct (decide (url' = url)) as [->|Hne].
        -- rewrite lookup_insert_eq in Hl. injection Hl as <-. exact Ho.
        -- rewrite lookup_insert_ne in Hl by congruence. exact (Hc m url' data' Em Hl).
      * intros [= <- <-]. split; [exact Hc | discriminate].
Qed.

(** A check that is resumed where nothing cached, awaited or answered
    has a truthy [ok] leaves the flag not truthy and does not resolve to a
    truthy value. *)
Lemma checkApiAvailability_resume_no_ok a o c r c' :
  cache_no_ok c -> awaits_no_ok a -> outcome_no_ok o ->
  Chat.checkApiAvailability_resume a o c = (r, c') ->
  truthy (Chat.apiAvailable (Chat.this c')) = false /\ cache_no_ok c' /\ not_truthy r.
Proof.
  intros Hc Ha Ho. unfold Chat.checkApiAvailability_resume.
  assert (Hhandler : forall c0 r0 c0', cache_no_ok c0 ->
    (Chat.console_log "Error checking API availability" ;;
     modify (Chat.with_this (Chat.set_apiAvailable (JBool false))) ;;
     Chat.updateApiStatusIndicator ;; ret (JBool false)) c0 = (r0, c0') ->
    truthy (Chat.apiAvailable (Chat.this c0')) = false /\ cache_no_ok c0' /\ not_truthy r0).
  { intros c0 r0 c0' Hc0. unfold Chat.console_log, bind at 1 2, modify at 1 2. simpl.
    set (c2 := Chat.with_this _ _).
    pose proof (updateApiStatusIndicator_this c2) as Ht. unfold exec in Ht.
    unfold bind, ret. destruct (Chat.updateApiStatusIndicator c2) as [[[]|e] c3];
      simpl in Ht; intros [= <- <-]; rewrite Ht; simpl;
      (split; [reflexivity|]; split; [eapply cache_no_ok_this; [|exact Hc0]; rewrite Ht; reflexivity|]).
    - intros v [= <-]. reflexivity.
    - intros v Hv. discriminate Hv. }
  unfold try_catch.
  match goal with |- context [bind ?f ?k] => set (body := bind f k) end.
  destruct (body c) as [[v|e] c1] eqn:Eb.
  2:{ intros Hh. subst body. unfold bind at 1 in Eb.
      destruct (Chat.fetchWithCache_resume Chat.health_url a o c) as [[data|e0] c0] eqn:Ef;
        destruct (fetchWithCache_resume_no_ok _ _ _ _ _ _ Hc Ha Ho Ef) as [Hc0 Hd].
      2:{ injection Eb as <- <-. exact (Hhandler _ _ _ Hc0 Hh). }
      apply (Hhandler c1 r c'); [|exact Hh].
      unfold bind at 1, lift in Eb.
      destruct (get_prop data "ok") as [ok|e1]; [|injection Eb as <- <-; exact Hc0].
      unfold bind at 1, modify at 1 in Eb. simpl in Eb.
      set (c2 := Chat.with_this _ _) in Eb.
      pose proof (updateApiStatusIndicator_this c2) as Ht. unfold exec in Ht.
      unfold bind at 1 in Eb.
      destruct (Chat.updateApiStatusIndicator c2) as [[[]|e2] c3]; simpl in Ht.
      - unfold bind, Chat.console_log, modify, gets in Eb. simpl in Eb. discriminate Eb.
      - injection Eb as <- <-. eapply cache_no_ok_this; [|exact Hc0]. rewrite Ht. reflexivity. }
  intros [= <- <-]. subst body. unfold bind at 1 in Eb.
  destruct (Chat.fetchWithCache_resume Chat.health_url a o c) as [[data|e0] c0] eqn:Ef;
    destruct (fetchWithCache_resume_no_ok _ _ _ _ _ _ Hc Ha Ho Ef) as [Hc0 Hd];
    [|discriminate Eb].
  specialize (Hd data eq_refl). unfold no_ok, Chat.prop_of in Hd.
  unfold bind at 1, lift in Eb.
  destruct (get_prop data "ok") as [ok|e1]; [|discriminate Eb].
  unfold bind at 1, modify at 1 in Eb. simpl in Eb.
  set (c2 := Chat.with_this _ _) in Eb.
  pose proof (updateApiStatusIndicator_this c2) as Ht. unfold exec in Ht.
  unfold bind at 1 in Eb.
  destruct (Chat.updateApiStatusIndicator c2) as [[[]|e2] c3]; simpl in Ht;
    [|discriminate Eb].
  unfold bind, Chat.console_log, modify, gets in Eb. simpl in Eb.
  injection Eb as <- <-. simpl. rewrite Ht. simpl.
  split; [exact Hd|]. split.
  - eapply cache_no_ok_this; [|exact Hc0]. simpl. rewrite Ht. reflexivity.
  - intros v [= <-]. exact Hd.
Qed.

Lemma resume_stays t i m w :
  resume t i = Some m -> task_no_ok t -> input_no_ok i -> stays_gated w (exec m w).
Proof.
  intros Hr Ht Hi.
  assert (Hcheck : forall a o, awaits_no_ok a -> outcome_no_ok o -> gated w ->
    forall r c', Chat.checkApiAvailability_resume a o (chat w) = (r, c') ->
      gated (with_chat (fun _ => c') w) /\ not_truthy r).
  { intros a o Ha Ho (Hflag & Hcache & Htasks) r c' Hc.
    destruct (checkApiAvailability_resume_no_ok a o (chat w) r c' Hcache Ha Ho Hc)
      as (Hf' & Hc' & Hr').
    split; [|exact Hr']. split; [exact Hf'|]. split; [exact Hc' | exact Htasks]. }
  destruct t as [a|message [a|]| |]; destruct i as [o| |response|body];
    try discriminate Hr; simpl in Hr; injection Hr as <-.
  - intros Hg.
    destruct (Chat.checkApiAvailability_resume a o (chat w)) as [r c'] eqn:Ec.
    destruct (Hcheck a o Ht ltac:(destruct o; exact Hi || exact I) Hg r c' Ec) as [Hg' _].
    unfold exec, detached, on_chat, zoom. rewrite Ec. simpl. split; [exact Hg' | reflexivity].
  - intros Hg.
    destruct (Chat.checkApiAvailability_resume a o (chat w)) as [r c'] eqn:Ec.
    destruct (Hcheck a o Ht ltac:(destruct o; exact Hi || exact I) Hg r c' Ec) as [Hg' Hr'].
    unfold exec. erewrite bind_ret_eq;
      [|unfold settled, on_chat; erewrite zoom_eq; [reflexivity | exact Ec]].
    destruct (handleSendMessage_checked_stays message r Hr' _ Hg') as [Hg2 Hp2].
    split; [exact Hg2 | exact Hp2].
  - apply handleSendMessage_checked_stays. intros v [= <-]. reflexivity.
  - apply handleSendMessage_fetched_stays.
  - apply handleSendMessage_read_stays.
Qed.

Lemma step_stays now act w w' :
  health_without_ok (now, act) -> step now act w = Some w' -> stays_gated w w'.
Proof.
  intros Hev Hs Hg.
  assert (Hg0 : gated (with_chat (Chat.with_clock now) w)).
  { destruct Hg as (? & ? & ?). repeat split; assumption. }
  unfold step in Hs. destruct act as [text| | | |k i].
  - simpl in Hs. destruct (user_input w); [|discriminate Hs].
    injection Hs as <-. split; [|reflexivity].
    destruct Hg0 as (? & ? & ?). repeat split; assumption.
  - injection Hs as <-. exact (handleSendMessage_begin_stays _ Hg0).
  - injection Hs as <-. exact (toggleOfflineMode_stays _ Hg0).
  - injection Hs as <-. exact (checkApiAvailability_stays _ Hg0).
  - simpl in Hs. destruct (pending w !! k) as [t|] eqn:Et; [|discriminate Hs].
    destruct (resume t i) as [m|] eqn:Er; [|discriminate Hs].
    injection Hs as <-.
    destruct Hg0 as (Hflag & Hcache & Htasks). simpl in Htasks.
    refine (resume_stays t i m _ Er _ Hev _).
    + rewrite Forall_lookup in Htasks. exact (Htasks k t Et).
    + split; [exact Hflag|]. split; [exact Hcache|]. simpl.
      apply Forall_delete. exact Htasks.
Qed.

Lemma run_stays evs : forall w w',
  Forall health_without_ok evs -> run evs w = Some w' -> stays_gated w w'.
Proof.
  induction evs as [|[now act] evs IH]; intros w w' Hev Hr.
  - injection Hr as <-. apply stays_gated_refl.
  - simpl in Hr. destruct (step now act w) as [w1|] eqn:Es; [|discriminate Hr].
    inversion Hev as [|? ? H1 H2]; subst.
    eapply stays_gated_trans; [exact (step_stays _ _ _ _ H1 Es) | exact (IH _ _ H2 Hr)].
Qed.

Lemma forEach_replay_same_gate n : forall k,
  preserves same_gate (Chat.forEach_messages n k Chat.replay).
Proof.
  induction n as [|n IH]; intros k; simpl; gate_chat; try apply IH.
  all: unfold Chat.replay; gate_chat; apply addMessage_same_gate.
Qed.

Lemma loadChatHistory_same_gate : preserves same_gate Chat.loadChatHistory.
Proof.
  unfold Chat.loadChatHistory, Chat.getItem, Chat.console_log. gate_chat.
  apply forEach_replay_same_gate.
Qed.

Lemma constructor_fields_run rnd c :
  exists c1, Chat.constructor_fields rnd c = (Ret tt, c1)
    /\ Chat.apiAvailable (Chat.this c1) = JBool false
    /\ Chat.cache (Chat.this c1) = None.
Proof.
  unfold Chat.constructor_fields, Chat.getItem, Chat.generateSessionId, Chat.setItem.
  unfold bind, gets, modify, ret. simpl.
  destruct (Chat.item_truthy _); simpl; eexists; repeat split.
Qed.

(** The constructor of the [Chat] model ends with the flag [false] and
    an empty cache; the check it started awaits nothing cached. *)
Lemma chat_constructor_closed rnd c :
  exists a c', Chat.constructor rnd c = (Ret a, c')
    /\ Chat.apiAvailable (Chat.this c') = JBool false
    /\ Chat.cache (Chat.this c') = Some ∅
    /\ forall a', a = Some a' -> awaits_no_ok a'.
Proof.
  destruct (constructor_fields_run rnd c) as (c1 & E1 & Hf1 & Hc1).
  pose proof (ChatSpec.loadChatHistory_returns c1) as Hl.
  pose proof (loadChatHistory_same_gate c1) as [Hf2 Hc2].
  unfold outcome, exec in *.
  destruct (Chat.loadChatHistory c1) as [r2 c2] eqn:E2. simpl in *. subst r2.
  destruct (checkApiAvailability_begin_no_ok c2) as (a & c3 & E3 & [Hf3 Hc3] & Ha).
  { intros m url data Hm. rewrite Hc2, Hc1 in Hm. discriminate Hm. }
  exists a, (Chat.with_this (Chat.set_cache (Some ∅)) c3).
  split; [|split; [|split]].
  - unfold Chat.constructor.
    erewrite bind_ret_eq; [|exact E1]. erewrite bind_ret_eq; [|exact E2].
    erewrite bind_ret_eq; [|exact E3]. reflexivity.
  - simpl. congruence.
  - reflexivity.
  - exact Ha.
Qed.

(** The page is gated when its constructor is through. *)
Lemma constructor_gated rnd w :
  pending w = [] ->
  gated (exec (constructor rnd) w) /\ posts (exec (constructor rnd) w) = posts w.
Proof.
  intros Hp. unfold constructor, exec.
  erewrite bind_ret_eq; [|reflexivity]. erewrite bind_ret_eq; [|reflexivity].
  destruct (chat_constructor_closed rnd (chat w)) as (a & c' & Ec & Hf & Hc & Ha).
  erewrite bind_ret_eq; [|unfold on_chat; apply zoom_eq; exact Ec].
  assert (Hg : forall ts, Forall task_no_ok ts ->
    gated (mkWorld c' (stored_offlineMode (Chat.localStorage (chat w))) (user_input w)
             (typing w) (posts w) (chat_container w) (notices w) ts)).
  { intros ts Hts. split; [simpl; rewrite Hf; reflexivity|]. split; [|exact Hts].
    intros m url data. simpl. rewrite Hc. intros [= <-] Hl.
    rewrite lookup_empty in Hl. discriminate Hl. }
  destruct a as [a|]; (split; [|reflexivity]).
  - unfold await, modify, with_pending. simpl. rewrite Hp. apply Hg.
    constructor; [apply Ha; reflexivity | constructor].
  - unfold ret, with_chat, set_offlineMode. simpl. rewrite Hp. apply Hg. constructor.
Qed.

(** X1. On a page where no continuation waits, after the constructor and any
    sequence of runs of the function [handleSendMessage] debounces, polls,
    offline toggles, edits of the input and resumed continuations in which
    no health response has a body with a truthy [ok] property, the
    [apiAvailable] flag is not truthy and no request has gone to the chat
    endpoint. *)
Theorem chat_endpoint_never_reached rnd w0 evs w :
  pending w0 = [] ->
  Forall health_without_ok evs ->
  run evs (exec (constructor rnd) w0) = Some w ->
  posts w = posts w0
  /\ truthy (Chat.apiAvailable (Chat.this (chat w))) = false.
Proof.
  intros Hp Hev Hr. destruct (constructor_gated rnd w0 Hp) as [Hg Hposts].
  destruct (run_stays evs _ _ Hev Hr Hg) as [(Hflag & _) Hp'].
  split; [congruence | exact Hflag].
Qed.

Lemma on_chat_addMessage role content w ch xs :
  Chat.chat_messages (Chat.dom (chat w)) = Some ch ->
  Chat.messages (Chat.this (chat w)) = JArr xs ->
  let ms := JArr (xs ++ [Chat.message_obj role content (toISOString (Chat.clock (chat w)))]) in
  on_chat (Chat.addMessage role content) w =
    (Ret tt,
     with_chat (fun c =>
       Chat.with_storage (insert "chat_history" (JSON_stringify ms))
         (Chat.with_this (Chat.set_messages ms)
            (Chat.with_dom (Chat.set_chat_messages (Some (ch ++ [(role, content)]))) c))) w).
Proof.
  intros Hc Hm ms. unfold on_chat.
  erewrite zoom_eq; [|apply (ChatSpec.addMessage_appends _ _ _ ch xs Hc Hm)].
  reflexivity.
Qed.

Lemma on_chat_addMessage_appended role content w ch xs :
  Chat.chat_messages (Chat.dom (chat w)) = Some ch ->
  Chat.messages (Chat.this (chat w)) = JArr xs ->
  on_chat (Chat.addMessage role content) w =
    (Ret tt, with_chat (appended role content ch xs) w).
Proof. apply on_chat_addMessage. Qed.

Lemma checkApiAvailability_throttled_here c :
  Chat.lastApiCheck (Chat.this c) <> 0 ->
  Chat.clock c - Chat.lastApiCheck (Chat.this c) < Chat.apiCheckInterval (Chat.this c) ->
  Chat.checkApiAvailability_begin c = (Ret None, c).
Proof.
  destruct c as [this storage dom clock console network]. intros Hz Hlt.
  exact (ChatSpec.checkApiAvailability_throttled clock _ Hz Hlt).
Qed.

Lemma handleSendMessage_begin_throttled w raw ch xs :
  user_input w = Some raw ->
  string_truthy (sanitizeInput (trim raw)) = true ->
  truthy (Chat.apiAvailable (Chat.this (chat w))) = false ->
  Chat.lastApiCheck (Chat.this (chat w)) <> 0 ->
  Chat.clock (chat w) - Chat.lastApiCheck (Chat.this (chat w))
    < Chat.apiCheckInterval (Chat.this (chat w)) ->
  Chat.chat_messages (Chat.dom (chat w)) = Some ch ->
  Chat.messages (Chat.this (chat w)) = JArr xs ->
  let message := sanitizeInput (trim raw) in
  handleSendMessage_begin w =
    (Ret tt,
     with_pending (fun p => p ++ [SendChecking message None])
       (with_chat (fun c =>
          Chat.with_console (fun l => l ++ ["User sent a message: " +:+ message])
            (appended (JStr "user") (JStr message) ch xs c)) w)).
Proof.
  intros Hin Hmsg Hflag Hz Hlt Hc Hm message.
  unfold handleSendMessage_begin.
  erewrite bind_ret_eq; [|reflexivity]. cbn [user_input]. rewrite Hin.
  rewrite Hmsg. cbn [negb]. fold message.
  erewrite bind_ret_eq; [|apply (on_chat_addMessage_appended _ _ _ ch xs Hc Hm)].
  erewrite bind_ret_eq; [|reflexivity].
  erewrite try_catch_ret_eq.
  2:{ erewrite bind_ret_eq; [|reflexivity]. cbn. rewrite Hflag. cbn [negb].
      erewrite bind_ret_eq.
      2:{ unfold on_chat. apply zoom_eq. cbn [chat with_chat].
          apply checkApiAvailability_throttled_here; assumption. }
      reflexivity. }
  reflexivity.
Qed.

(** X2. While [apiAvailable] is not truthy and the last health check is less
    than [apiCheckInterval] old, a run of the function [handleSendMessage]
    debounces, on a non-blank input, makes no request at all: it waits for
    the check that resolved at once, and when it resumes the transcript has
    gained the escaped user message and the assistant notice that the server
    is offline, and what waits is what waited before the send. *)
Theorem send_refused_while_throttled w raw ch xs now :
  user_input w = Some raw ->
  string_truthy (sanitizeInput (trim raw)) = true ->
  truthy (Chat.apiAvailable (Chat.this (chat w))) = false ->
  Chat.lastApiCheck (Chat.this (chat w)) <> 0 ->
  now - Chat.lastApiCheck (Chat.this (chat w)) < Chat.apiCheckInterval (Chat.this (chat w)) ->
  Chat.chat_messages (Chat.dom (chat w)) = Some ch ->
  Chat.messages (Chat.this (chat w)) = JArr xs ->
  let message := sanitizeInput (trim raw) in
  exists w1,
    step now UserSends w = Some w1
    /\ pending w1 = pending w ++ [SendChecking message None]
    /\ forall later, exists w2,
          step later (Resumes (length (pending w)) Resolved) w1 = Some w2
          /\ transcript w2 =
               xs ++ [Chat.message_obj (JStr "user") (JStr message) (toISOString now);
                      Chat.message_obj (JStr "assistant") (JStr server_offline)
                                       (toISOString later)]
          /\ Chat.network (chat w2) = Chat.network (chat w)
          /\ posts w2 = posts w
          /\ pending w2 = pending w.
Proof.
  intros Hin Hmsg Hflag Hz Hlt Hc Hm message.
  pose proof (handleSendMessage_begin_throttled (with_chat (Chat.with_clock now) w)
                raw ch xs Hin Hmsg Hflag Hz Hlt Hc Hm) as Hb.
  cbv zeta in Hb. fold message in Hb.
  eexists. split; [|split].
  - unfold step, exec. rewrite Hb. cbn [snd]. reflexivity.
  - reflexivity.
  - intros later. eexists. split; [|split; [|split; [|split]]].
    + unfold step. cbn [pending with_pending with_chat].
      rewrite lookup_app_r by lia. rewrite Nat.sub_diag. cbn [lookup list_lookup resume].
      unfold exec, handleSendMessage_checked.
      erewrite try_catch_ret_eq.
      2:{ erewrite bind_ret_eq; [|reflexivity]. cbn [truthy negb].
          apply (on_chat_addMessage_appended _ _ _ (ch ++ [(JStr "user", JStr message)])
                   (xs ++ [Chat.message_obj (JStr "user") (JStr message) (toISOString now)]));
            reflexivity. }
      reflexivity.
    + unfold transcript. cbn. rewrite <- app_assoc. reflexivity.
    + reflexivity.
    + reflexivity.
    + cbn. rewrite delete_middle. apply app_nil_r.
Qed.


Lemma send_failed_run error w ch xs :
  Chat.chat_messages (Chat.dom (chat w)) = Some ch ->
  Chat.messages (Chat.this (chat w)) = JArr xs ->
  let w' := exec (send_failed error) w in
  transcript w' =
    xs ++ [Chat.message_obj (JStr "assistant") (JStr request_error)
             (toISOString (Chat.clock (chat w)))]
  /\ Chat.apiAvailable (Chat.this (chat w')) = JBool false
  /\ typing w' = pred (typing w)
  /\ pending w' = pending w
  /\ posts w' = posts w.
Proof.
  intros Hc Hm. unfold send_failed, exec.
  erewrite bind_ret_eq; [|reflexivity]. erewrite bind_ret_eq; [|reflexivity].
  erewrite bind_ret_eq; [|apply (on_chat_addMessage_appended _ _ _ ch xs); assumption].
  erewrite bind_ret_eq; [|reflexivity].
  unfold on_chat, zoom.
  match goal with |- context [Chat.updateApiStatusIndicator ?c] =>
    pose proof (updateApiStatusIndicator_this c) as Ht; unfold exec in Ht;
    destruct (Chat.updateApiStatusIndicator c) as [r c'] end.
  unfold transcript. simpl in *. rewrite Ht. simpl. repeat split.
Qed.

(** X3. On a page with the message container: posting a message shows one
    more typing indicator, adds one request body and leaves the transcript;
    when the request settles one indicator goes and, unless the response is
    [ok], the transcript gains exactly the error notice (a rejected request
    also clears [apiAvailable]); when the body of an [ok] response settles
    the transcript gains exactly one assistant message, the [response] of
    the body, or the error notice when the body cannot be read, has no
    properties, or has a [response] that has no text. None of these steps
    posts to the chat endpoint again. *)
Theorem every_post_ends_with_one_reply w ch xs :
  Chat.chat_messages (Chat.dom (chat w)) = Some ch ->
  Chat.messages (Chat.this (chat w)) = JArr xs ->
  let said content :=
    xs ++ [Chat.message_obj (JStr "assistant") content (toISOString (Chat.clock (chat w)))] in
  (forall response,
     let w' := exec (handleSendMessage_fetched response) w in
     typing w' = pred (typing w)
     /\ posts w' = posts w
     /\ match response with
        | Some true => transcript w' = xs /\ pending w' = pending w ++ [SendReading]
        | Some false => transcript w' = said (JStr request_error) /\ pending w' = pending w
        | None =>
            transcript w' = said (JStr request_error) /\ pending w' = pending w
            /\ Chat.apiAvailable (Chat.this (chat w')) = JBool false
        end)
  /\ (forall body,
        let w' := exec (handleSendMessage_read body) w in
        transcript w' = said (reply body)
        /\ posts w' = posts w
        /\ pending w' = pending w)
  /\ (forall message,
        let w' := exec (post message) w in
        typing w' = S (typing w)
        /\ posts w' = posts w ++ [chat_request message (Chat.sessionId (Chat.this (chat w)))]
        /\ pending w' = pending w ++ [SendPosting]
        /\ transcript w' = xs).
Proof.
  intros Hc Hm said. split; [|split].
  3:{ intros message w'. subst w'. unfold exec, post, showTypingIndicator.
      erewrite bind_ret_eq; [|erewrite bind_ret_eq; [|reflexivity]; cbn; rewrite Hc; reflexivity].
      cbn. unfold transcript. cbn. rewrite Hm. repeat split. }
  - intros response w'. subst w'. unfold handleSendMessage_fetched.
    destruct response as [[|]|].
    + unfold exec. erewrite try_catch_ret_eq; [|reflexivity]. cbn.
      unfold transcript. cbn. rewrite Hm. repeat split.
    + unfold exec. erewrite try_catch_ret_eq.
      2:{ erewrite bind_ret_eq; [|reflexivity].
          erewrite bind_ret_eq;
            [|apply (on_chat_addMessage_appended _ _ _ ch xs); assumption].
          reflexivity. }
      unfold transcript. cbn. repeat split.
    + unfold exec. erewrite try_catch_throw_eq; [|reflexivity].
      destruct (send_failed_run NetworkError w ch xs Hc Hm) as (H1 & H2 & H3 & H4 & H5).
      unfold exec in *. repeat split; assumption.
  - intros body w'. subst w'. unfold handleSendMessage_read, reply.
    destruct body as [data|].
    + destruct (get_prop data "response") as [response|e] eqn:Eg.
      * assert (Hp : Chat.has_props data = true) by (destruct data; try discriminate Eg; reflexivity).
        rewrite Hp. unfold Chat.prop_of. rewrite Eg. cbn [andb].
        destruct (has_text response) eqn:Ht.
        -- unfold exec. erewrite try_catch_ret_eq.
           2:{ erewrite bind_ret_eq; [|reflexivity].
               erewrite bind_ret_eq.
               2:{ unfold addMessage. erewrite bind_ret_eq; [|reflexivity].
                   cbn beta. rewrite Hc, Ht.
                   apply (on_chat_addMessage_appended _ _ _ ch xs); assumption. }
               unfold log_value. rewrite Ht. reflexivity. }
           unfold transcript. cbn. repeat split.
        -- unfold exec. erewrite try_catch_throw_eq.
           2:{ erewrite bind_ret_eq; [|reflexivity].
               erewrite bind_throw_eq; [reflexivity|].
               unfold addMessage. erewrite bind_ret_eq; [|reflexivity].
               cbn beta. rewrite Hc, Ht. reflexivity. }
           destruct (send_failed_run TypeError w ch xs Hc Hm) as (H1 & H2 & H3 & H4 & H5).
           unfold exec in *. repeat split; assumption.
      * assert (Hp : Chat.has_props data = false) by (destruct data; try discriminate Eg; reflexivity).
        rewrite Hp.
        unfold exec. erewrite try_catch_throw_eq;
          [|erewrite bind_throw_eq; [reflexivity | reflexivity]].
        destruct (send_failed_run e w ch xs Hc Hm) as (H1 & H2 & H3 & H4 & H5).
        unfold exec in *. repeat split; assumption.
    + unfold exec. erewrite try_catch_throw_eq; [|reflexivity].
      destruct (send_failed_run SyntaxError w ch xs Hc Hm) as (H1 & H2 & H3 & H4 & H5).
      unfold exec in *. repeat split; assumption.
Qed.

Lemma same_transcript_refl c : same_transcript c c.
Proof. split; reflexivity. Qed.

Lemma same_transcript_trans c1 c2 c3 :
  same_transcript c1 c2 -> same_transcript c2 c3 -> same_transcript c1 c3.
Proof. intros [? ?] [? ?]. split; congruence. Qed.

Ltac kept :=
  through same_transcript_refl same_transcript_trans;
  try (apply preserves_modify; intros ?; split; reflexivity).

Lemma checkApiAvailability_begin_same_transcript :
  preserves same_transcript Chat.checkApiAvailability_begin.
Proof.
  unfold Chat.checkApiAvailability_begin, Chat.fetchWithCache_begin. kept.
Qed.

Lemma updateApiStatusIndicator_same_transcript :
  preserves same_transcript Chat.updateApiStatusIndicator.
Proof. unfold Chat.updateApiStatusIndicator. kept. Qed.

Lemma checkApiAvailability_begin_eq c :
  exists a c', Chat.checkApiAvailability_begin c = (Ret a, c') /\ same_transcript c c'
               /\ same_gate c c'.
Proof.
  destruct (ChatSpec.checkApiAvailability_begin_returns c) as [a Ha].
  pose proof (checkApiAvailability_begin_same_transcript c) as Hs.
  pose proof (checkApiAvailability_begin_same_gate c) as Hg.
  unfold outcome, exec in *.
  destruct (Chat.checkApiAvailability_begin c) as [r c']. simpl in *. subst r.
  eauto.
Qed.

(** X4. The message the function [handleSendMessage] debounces works with,
    the trimmed input passed through [sanitizeInput], holds no [<] and no
    [>]. A blank input makes the call return with no effect; otherwise, on a
    page with the message container, the call returns normally and the user
    message it appends to the transcript and saves under [chat_history] has
    the escaped text as its content. *)
Theorem user_message_is_escaped w raw :
  user_input w = Some raw ->
  let message := sanitizeInput (trim raw) in
  ("<"%char ∉ chars message) /\ (">"%char ∉ chars message)
  /\ (string_truthy (trim raw) = false -> handleSendMessage_begin w = (Ret tt, w))
  /\ (string_truthy (trim raw) = true -> forall ch xs,
        Chat.chat_messages (Chat.dom (chat w)) = Some ch ->
        Chat.messages (Chat.this (chat w)) = JArr xs ->
        let ms := xs ++ [Chat.message_obj (JStr "user") (JStr message)
                           (toISOString (Chat.clock (chat w)))] in
        outcome handleSendMessage_begin w = Ret tt
        /\ transcript (exec handleSendMessage_begin w) = ms
        /\ Chat.localStorage (chat (exec handleSendMessage_begin w)) !! "chat_history"
             = Some (JSON_stringify (JArr ms))).
Proof.
  intros Hin message.
  destruct (TextSpec.sanitizeInput_markup_free _ (trim raw) (Nat.le_refl _)) as [Hlt Hgt].
  split; [exact Hlt|]. split; [exact Hgt|]. split.
  - intros Hb. unfold handleSendMessage_begin.
    erewrite bind_ret_eq; [|reflexivity]. rewrite Hin.
    rewrite TextSpec.sanitizeInput_truthy, Hb. reflexivity.
  - intros Hb ch xs Hc Hm ms.
    assert (He : exists w', handleSendMessage_begin w = (Ret tt, w')
      /\ same_transcript
           (Chat.with_console (fun l => l ++ ["User sent a message: " +:+ message])
              (appended (JStr "user") (JStr message) ch xs (chat w)))
           (chat w')).
    { unfold handleSendMessage_begin.
      erewrite bind_ret_eq; [|reflexivity]. rewrite Hin.
      rewrite TextSpec.sanitizeInput_truthy, Hb. cbn [negb]. fold message.
      erewrite bind_ret_eq; [|apply (on_chat_addMessage_appended _ _ _ ch xs Hc Hm)].
      erewrite bind_ret_eq; [|reflexivity].
      match goal with |- context [try_catch ?b _ ?w0] =>
        assert (Hbody : exists w', b w0 = (Ret tt, w')
          /\ same_transcript (chat w0) (chat w')) end.
      { erewrite bind_ret_eq; [|reflexivity].
        destruct (negb (truthy _)).
        - match goal with |- context [on_chat Chat.checkApiAvailability_begin ;; _] =>
            idtac | _ => idtac end.
          match goal with |- exists w', bind _ _ ?w0 = _ /\ _ =>
            destruct (checkApiAvailability_begin_eq (chat w0)) as (a & c' & Eb & Hs & _) end.
          eexists. split.
          + erewrite bind_ret_eq; [|unfold on_chat; apply zoom_eq; exact Eb]. reflexivity.
          + exact Hs.
        - eexists. split.
          + unfold post, showTypingIndicator.
            erewrite bind_ret_eq;
              [|erewrite bind_ret_eq; [|reflexivity]; cbn; reflexivity].
            reflexivity.
          + split; reflexivity. }
      destruct Hbody as (w' & Eb & Hs). exists w'.
      split; [apply try_catch_ret_eq; exact Eb | exact Hs]. }
    destruct He as (w' & Eb & [Hs1 Hs2]).
    unfold outcome, exec, transcript. rewrite Eb. simpl in *.
    rewrite Hs1, Hs2. split; [reflexivity|]. split; [reflexivity|].
    apply lookup_insert_eq.
Qed.

Lemma same_transcript_this_storage c c' :
  Chat.messages (Chat.this c') = Chat.messages (Chat.this c) ->
  Chat.localStorage c' = Chat.localStorage c -> same_transcript c c'.
Proof. intros ? ?. split; assumption. Qed.

Lemma checkApiAvailability_run w :
  exists w', checkApiAvailability w = (Ret tt, w')
    /\ offlineMode w' = offlineMode w
    /\ same_transcript (chat w) (chat w')
    /\ same_gate (chat w) (chat w').
Proof.
  unfold checkApiAvailability.
  destruct (checkApiAvailability_begin_eq (chat w)) as (a & c' & Eb & Hs & Hg).
  destruct a as [a|]; eexists;
    (split; [erewrite bind_ret_eq; [|unfold on_chat; apply zoom_eq; exact Eb]; reflexivity|]);
    repeat split; first [apply Hs | apply Hg].
Qed.

Lemma on_chat_updateApiStatusIndicator w :
  exists r c', on_chat Chat.updateApiStatusIndicator w = (r, with_chat (fun _ => c') w)
    /\ Chat.this c' = Chat.this (chat w)
    /\ Chat.localStorage c' = Chat.localStorage (chat w)
    /\ Chat.network c' = Chat.network (chat w).
Proof.
  unfold on_chat, zoom.
  pose proof (updateApiStatusIndicator_this (chat w)) as Ht.
  pose proof (updateApiStatusIndicator_same_transcript (chat w)) as [_ Hs].
  assert (Hn : Chat.network (exec Chat.updateApiStatusIndicator (chat w))
               = Chat.network (chat w)).
  { unfold exec, Chat.updateApiStatusIndicator, bind, gets, modify, ret, throw. simpl.
    destruct (Chat.api_status (Chat.dom (chat w))) as [el|]; simpl.
    - destruct (Chat.status_text el); reflexivity.
    - destruct (Chat.chat_header (Chat.dom (chat w))); reflexivity. }
  unfold exec in *. destruct (Chat.updateApiStatusIndicator (chat w)) as [r c'].
  exists r, c'. simpl in *. auto.
Qed.

Lemma constructor_offlineMode rnd page :
  offlineMode (exec (constructor rnd) page)
  = stored_offlineMode (Chat.localStorage (chat page)).
Proof.
  unfold constructor, exec.
  erewrite bind_ret_eq; [|reflexivity]. erewrite bind_ret_eq; [|reflexivity].
  destruct (chat_constructor_closed rnd (chat page)) as (a & c' & Ec & _).
  erewrite bind_ret_eq; [|unfold on_chat; apply zoom_eq; exact Ec].
  destruct a; reflexivity.
Qed.

(** X5. [toggleOfflineMode] flips [offlineMode] and stores it as the text
    [true] or [false] under [offlineMode], changing no other key; switching
    it on sets [apiAvailable] to [false] and makes no request; a page
    constructed later over that storage starts with the same [offlineMode]. *)
Theorem offline_mode_survives_reload w :
  let w' := exec toggleOfflineMode w in
  offlineMode w' = negb (offlineMode w)
  /\ Chat.localStorage (chat w') =
       <["offlineMode" := bool_text (offlineMode w')]> (Chat.localStorage (chat w))
  /\ (offlineMode w' = true ->
        Chat.apiAvailable (Chat.this (chat w')) = JBool false
        /\ Chat.network (chat w') = Chat.network (chat w))
  /\ (forall rnd page,
        Chat.localStorage (chat page) = Chat.localStorage (chat w') ->
        offlineMode (exec (constructor rnd) page) = offlineMode w').
Proof.
  assert (H : let w' := exec toggleOfflineMode w in
    offlineMode w' = negb (offlineMode w)
    /\ Chat.localStorage (chat w') =
         <["offlineMode" := bool_text (negb (offlineMode w))]> (Chat.localStorage (chat w))
    /\ (negb (offlineMode w) = true ->
          Chat.apiAvailable (Chat.this (chat w')) = JBool false
          /\ Chat.network (chat w') = Chat.network (chat w))).
  { assert (Hshow : forall message w0, exists r w1,
      showSuccess message w0 = (r, w1) /\ chat w1 = chat w0
      /\ offlineMode w1 = offlineMode w0).
    { intros message w0. unfold showSuccess.
      destruct (chat_container w0) as [[| |]|] eqn:Ecc; eexists; eexists;
        (split; [unfold bind, gets; rewrite Ecc; reflexivity|]);
        split; reflexivity. }
    unfold toggleOfflineMode, exec.
    erewrite bind_ret_eq; [|reflexivity]. erewrite bind_ret_eq; [|reflexivity].
    erewrite bind_ret_eq; [|reflexivity]. cbn [offlineMode set_offlineMode].
    destruct (offlineMode w); cbn [negb].
    - match goal with |- context [bind (bind (showSuccess ?m) _) _ ?w0] =>
        destruct (Hshow m w0) as (r1 & w1 & E1 & Hc1 & Ho1) end.
      destruct r1 as [[]|e].
      + destruct (checkApiAvailability_run w1) as (w2 & E2 & Ho2 & [_ Hs2] & _).
        erewrite bind_ret_eq;
          [|erewrite bind_ret_eq; [|exact E1]; exact E2].
        destruct (on_chat_updateApiStatusIndicator w2) as (r & c' & Eu & Ht & Hst & Hn).
        rewrite Eu. simpl. rewrite Hst, Hs2, Hc1, Ho2, Ho1. simpl.
        split; [reflexivity|]. split; [reflexivity|]. discriminate.
      + erewrite bind_throw_eq; [|erewrite bind_throw_eq; [reflexivity | exact E1]].
        simpl. rewrite Hc1, Ho1. simpl.
        split; [reflexivity|]. split; [reflexivity|]. discriminate.
    - match goal with |- context [bind (bind _ (fun _ => showSuccess ?m)) _ ?w0] =>
        destruct (Hshow m
          (with_chat (Chat.with_this (Chat.set_apiAvailable (JBool false))) w0))
          as (r1 & w1 & E1 & Hc1 & Ho1) end.
      destruct r1 as [[]|e].
      + erewrite bind_ret_eq;
          [|erewrite bind_ret_eq; [|reflexivity]; exact E1].
        destruct (on_chat_updateApiStatusIndicator w1) as (r & c' & Eu & Ht & Hst & Hn).
        rewrite Eu. simpl. rewrite Hst, Ht, Hn, Hc1, Ho1. simpl. repeat split.
      + erewrite bind_throw_eq;
          [|erewrite bind_ret_eq; [|reflexivity]; exact E1].
        simpl. rewrite Hc1, Ho1. simpl. repeat split. }
  cbv zeta in *. destruct H as (H1 & H2 & H3).
  split; [exact H1|]. rewrite H1. split; [exact H2|]. split; [exact H3|].
  intros rnd page Hp. rewrite constructor_offlineMode, Hp, H2.
  unfold stored_offlineMode. rewrite lookup_insert_eq.
  destruct (offlineMode w); reflexivity.
Qed.

Lemma checkApiAvailability_begin_passes c m :
  Chat.lastApiCheck (Chat.this c) = 0
  \/ Chat.apiCheckInterval (Chat.this c) <= Chat.clock c - Chat.lastApiCheck (Chat.this c) ->
  Chat.cache (Chat.this c) = Some m ->
  m !! Chat.health_url = None ->
  Chat.checkApiAvailability_begin c =
    (Ret (Some Chat.AwaitFetch),
     Chat.with_network (fun n => n ++ [Chat.health_url])
       (Chat.with_this (Chat.set_lastApiCheck (Chat.clock c)) c)).
Proof.
  intros Hopen Hc Hm.
  unfold Chat.checkApiAvailability_begin, Chat.fetchWithCache_begin.
  unfold bind, gets, modify, ret. simpl.
  assert (Hcond : (Chat.clock c - Chat.lastApiCheck (Chat.this c)
                     <? Chat.apiCheckInterval (Chat.this c))
                  && negb (Chat.lastApiCheck (Chat.this c) =? 0) = false).
  { destruct Hopen as [H0|Hi].
    - rewrite H0. simpl. apply andb_false_r.
    - apply andb_false_iff. left. apply Z.ltb_ge. exact Hi. }
  rewrite Hcond, Hc, Hm. reflexivity.
Qed.

(** X6. Offline mode does not keep the page from the network: with
    [offlineMode] on, [apiAvailable] not truthy, no health check made yet or
    the check interval elapsed, and nothing cached for the health URL, a run
    of the function [handleSendMessage] debounces, on a non-blank input,
    makes a request to the health endpoint and waits for it; [offlineMode]
    stays on. *)
Theorem offline_mode_still_asks w raw ch xs m :
  offlineMode w = true ->
  user_input w = Some raw ->
  string_truthy (sanitizeInput (trim raw)) = true ->
  truthy (Chat.apiAvailable (Chat.this (chat w))) = false ->
  Chat.lastApiCheck (Chat.this (chat w)) = 0
  \/ Chat.apiCheckInterval (Chat.this (chat w))
       <= Chat.clock (chat w) - Chat.lastApiCheck (Chat.this (chat w)) ->
  Chat.cache (Chat.this (chat w)) = Some m ->
  m !! Chat.health_url = None ->
  Chat.chat_messages (Chat.dom (chat w)) = Some ch ->
  Chat.messages (Chat.this (chat w)) = JArr xs ->
  let w' := exec handleSendMessage_begin w in
  offlineMode w' = true
  /\ Chat.network (chat w') = Chat.network (chat w) ++ [Chat.health_url]
  /\ pending w' =
       pending w ++ [SendChecking (sanitizeInput (trim raw)) (Some Chat.AwaitFetch)].
Proof.
  intros Hoff Hin Hmsg Hflag Hopen Hcache Hm Hc Hms.
  unfold handleSendMessage_begin, exec.
  erewrite bind_ret_eq; [|reflexivity]. rewrite Hin, Hmsg. cbn [negb].
  erewrite bind_ret_eq; [|apply (on_chat_addMessage_appended _ _ _ ch xs Hc Hms)].
  erewrite bind_ret_eq; [|reflexivity].
  erewrite try_catch_ret_eq.
  2:{ erewrite bind_ret_eq; [|reflexivity]. cbn. rewrite Hflag. cbn [negb].
      erewrite bind_ret_eq.
      2:{ unfold on_chat. apply zoom_eq. cbn [chat with_chat].
          apply (checkApiAvailability_begin_passes _ m); [exact Hopen | exact Hcache | exact Hm]. }
      reflexivity. }
  cbn. rewrite Hoff. repeat split.
Qed.

End WithPlatform.

Lemma chat_endpoint_never_reached_witness :
  match run (P:=RefPlatform.platform) two_sends loaded_page with
  | Some w => posts w = [] /\ truthy (Chat.apiAvailable (Chat.this (chat w))) = false
  | None => False
  end.
Proof.
  destruct (run (P:=RefPlatform.platform) two_sends loaded_page) as [w|] eqn:E.
  - apply (chat_endpoint_never_reached (P:=RefPlatform.platform)
             "k3j9x2m1q" fresh_page two_sends w).
    + reflexivity.
    + repeat constructor.
    + exact E.
  - vm_compute in E. discriminate E.
Defined.

Lemma send_refused_while_throttled_witness :
  let message := sanitizeInput (RefPlatform.strip question) in
  exists w1,
    step (P:=RefPlatform.platform) 2000 UserSends asking_page = Some w1
    /\ pending w1 = pending asking_page ++ [SendChecking message None]
    /\ forall later, exists w2,
          step (P:=RefPlatform.platform) later
               (Resumes (length (pending asking_page)) Resolved) w1 = Some w2
          /\ transcript w2 =
               [] ++ [Chat.message_obj (JStr "user") (JStr message) (RefPlatform.iso 2000);
                      Chat.message_obj (JStr "assistant") (JStr server_offline)
                                       (RefPlatform.iso later)]
          /\ Chat.network (chat w2) = Chat.network (chat asking_page)
          /\ posts w2 = posts asking_page
          /\ pending w2 = pending asking_page.
Proof.
  apply (send_refused_while_throttled (P:=RefPlatform.platform)
           asking_page question [] [] 2000); try reflexivity.
  vm_compute. discriminate.
Defined.

Lemma every_post_ends_with_one_reply_witness :
  transcript (exec (handleSendMessage_read (P:=RefPlatform.platform)
                      (Some (JObj [("response", JStr "It can be.")]))) asking_page)
  = [Chat.message_obj (JStr "assistant") (JStr "It can be.") (RefPlatform.iso 2000)]
  /\ transcript (exec (handleSendMessage_read (P:=RefPlatform.platform)
                         (Some (JObj [("response", JObj [("toString", JNum 1)])])))
                      asking_page)
     = [Chat.message_obj (JStr "assistant") (JStr request_error) (RefPlatform.iso 2000)].
Proof.
  destruct (every_post_ends_with_one_reply (P:=RefPlatform.platform) asking_page [] []
              eq_refl eq_refl) as (_ & H & _).
  split.
  - exact (proj1 (H (Some (JObj [("response", JStr "It can be.")])))).
  - exact (proj1 (H (Some (JObj [("response", JObj [("toString", JNum 1)])])))).
Defined.

Lemma user_message_is_escaped_witness :
  sanitizeInput (RefPlatform.strip question)
    = "Is a &lt;b&gt;verbal&lt;/b&gt; contract binding?"
  /\ ("<"%char ∉ chars (sanitizeInput (RefPlatform.strip question))).
Proof.
  split; [reflexivity|].
  exact (proj1 (user_message_is_escaped (P:=RefPlatform.platform)
                  asking_page question eq_refl)).
Defined.

Lemma offline_mode_still_asks_witness :
  offlineMode offline_page = true
  /\ Chat.network (chat (exec (handleSendMessage_begin (P:=RefPlatform.platform))
                              offline_page))
     = Chat.network (chat offline_page) ++ [Chat.health_url].
Proof.
  split; [reflexivity|].
  assert (Hopen : Chat.lastApiCheck (Chat.this (chat offline_page)) = 0
    \/ Chat.apiCheckInterval (Chat.this (chat offline_page))
         <= Chat.clock (chat offline_page)
            - Chat.lastApiCheck (Chat.this (chat offline_page))).
  { right. vm_compute. discriminate. }
  exact (proj1 (proj2 (offline_mode_still_asks (P:=RefPlatform.platform)
                         offline_page question [] [] ∅
                         eq_refl eq_refl eq_refl eq_refl Hopen eq_refl eq_refl
                         eq_refl eq_refl))).
Defined.

End AppSpec.

(* ------------------------------------------------------------------ *)
(** ** ChatInterface: [debounce] *)
(* ------------------------------------------------------------------ *)

Module DebounceSpec.
Import Debounce.

Section Debounced.
Context {A : Type} (wait : Z).

Lemma settled_calls_only_called (l : list (entry A)) t args :
  settled_calls_only wait l -> settled_calls_only wait (l ++ [Called t args]).
Proof.
  intros Hl before t' args' after He.
  destruct (decide (after = [])) as [->|Hne].
  - apply app_inj_tail in He as [_ He]. discriminate He.
  - destruct (exists_last Hne) as (after' & x & ->).
    rewrite app_comm_cons, app_assoc in He.
    apply app_inj_tail in He as [He _].
    exact (Hl _ _ _ _ He).
Qed.

Lemma settled_calls_only_invoked (earlier : list (entry A)) t0 t args :
  settled_calls_only wait (earlier ++ [Called t0 args]) ->
  due_after wait t0 <= t ->
  settled_calls_only wait ((earlier ++ [Called t0 args]) ++ [Invoked t args]).
Proof.
  intros Hl Hd before t' args' after He.
  destruct (decide (after = [])) as [->|Hne].
  - apply app_inj_tail in He as [<- He]. injection He as <- <-.
    exists earlier, t0. split; [reflexivity | exact Hd].
  - destruct (exists_last Hne) as (after' & x & ->).
    rewrite app_comm_cons, app_assoc in He.
    apply app_inj_tail in He as [He _].
    exact (Hl _ _ _ _ He).
Qed.

Lemma debounce_invariant_init t : invariant wait (init (A:=A) t).
Proof.
  split.
  - intros i due args H. simpl in H. rewrite lookup_empty in H. discriminate H.
  - intros [|x before] t' args after He; discriminate He.
Qed.

Lemma invariant_timers_cleared (s : State A) :
  invariant wait s -> clearTimeout (timeout s) (timers s) = ∅.
Proof.
  intros [Ht _]. apply map_eq. intros i. rewrite lookup_empty.
  destruct (clearTimeout (timeout s) (timers s) !! i) as [[due args]|] eqn:E; [|reflexivity].
  exfalso. unfold clearTimeout in E. destruct (timeout s) as [j|] eqn:Ej.
  - destruct (decide (i = j)) as [->|Hne].
    + rewrite lookup_delete_eq in E. discriminate E.
    + rewrite lookup_delete_ne in E by congruence.
      destruct (Ht i due args E) as [Hi _]. congruence.
  - destruct (Ht i due args E) as [Hi _]. discriminate Hi.
Qed.

Lemma debounce_invariant_step ev (s s' : State A) :
  invariant wait s -> step wait ev s = Some s' -> invariant wait s'.
Proof.
  intros Hinv Hs. pose proof Hinv as [Ht Hl].
  destruct ev as [args|d|i]; simpl in Hs.
  - injection Hs as <-. unfold call. rewrite (invariant_timers_cleared s Hinv).
    split; simpl.
    + intros i due args' Hi.
      destruct (decide (i = next_timer s)) as [->|Hne].
      * rewrite lookup_insert_eq in Hi. injection Hi as <- <-.
        split; [reflexivity|]. eexists _, _. split; reflexivity.
      * rewrite lookup_insert_ne, lookup_empty in Hi by congruence. discriminate Hi.
    + apply settled_calls_only_called, Hl.
  - destruct (bool_decide (0 <= d)); [|discriminate Hs]. injection Hs as <-.
    split; simpl; assumption.
  - destruct (timers s !! i) as [[due args]|] eqn:Ei; [|discriminate Hs].
    destruct (bool_decide (due <= now s)) eqn:Ed; [|discriminate Hs].
    apply bool_decide_eq_true in Ed. injection Hs as <-.
    destruct (Ht i due args Ei) as (Hto & earlier & t0 & Hlog & Hdue).
    split; simpl.
    + intros j due' args' Hj.
      destruct (decide (j = i)) as [->|Hne].
      * rewrite lookup_delete_eq in Hj. discriminate Hj.
      * rewrite lookup_delete_ne in Hj by congruence.
        destruct (Ht j due' args' Hj) as [Hj' _]. congruence.
    + rewrite Hlog. apply settled_calls_only_invoked.
      * rewrite <- Hlog. exact Hl.
      * rewrite <- Hdue. exact Ed.
Qed.

Lemma debounce_invariant_run evs : forall s s' : State A,
  invariant wait s -> run wait evs s = Some s' -> invariant wait s'.
Proof.
  induction evs as [|ev evs IH]; intros s s' Hinv Hr; simpl in Hr.
  - injection Hr as <-. exact Hinv.
  - destruct (step wait ev s) as [s1|] eqn:Es; [|discriminate Hr].
    exact (IH _ _ (debounce_invariant_step _ _ _ Hinv Es) Hr).
Qed.

(** X7. For the function [debounce(func, wait)] returns, over any sequence
    of calls, passing time and timers firing: every invocation of [func]
    carries the arguments of the call directly before it, and that call was
    made at least the delay before, which is [wait] as the 32-bit signed
    integer [setTimeout] makes of it, or none if that is negative; at no
    time is more than one timer pending; and for a [wait] from 0 up to 2^31
    - 1 the delay is [wait] itself. *)
Theorem debounced_invocations_follow_silence t evs (s : State A) :
  run wait evs (init t) = Some s ->
  settled_calls_only wait (log s)
  /\ (forall i j x y, timers s !! i = Some x -> timers s !! j = Some y -> i = j)
  /\ (0 <= wait < 2 ^ 31 -> forall t0, due_after wait t0 = t0 + wait).
Proof.
  intros Hr. pose proof (debounce_invariant_run evs _ _ (debounce_invariant_init t) Hr) as [Ht Hl].
  split; [exact Hl|]. split.
  - intros i j [d1 a1] [d2 a2] Hi Hj.
    destruct (Ht i d1 a1 Hi) as [Hi' _]. destruct (Ht j d2 a2 Hj) as [Hj' _]. congruence.
  - intros Hw t0. unfold due_after, delay, to_int32.
    rewrite Z.mod_small by lia.
    destruct (Z.leb_spec (2 ^ 31) wait); lia.
Qed.

Lemma final_cons (args : A) d' args' cs :
  final args ((d', args') :: cs) = final args' cs.
Proof.
  revert args d' args'. induction cs as [|[d'' args''] cs IH]; intros args d' args';
    [reflexivity|].
  transitivity (final args'' cs); [|symmetry; apply IH].
  rewrite <- (IH args d'' args''). reflexivity.
Qed.

Lemma burst_run cs : forall d args (s : State A),
  invariant wait s -> 0 <= d -> Forall (fun c => 0 <= c.1) cs ->
  exists s1 i,
    run wait (burst ((d, args) :: cs)) s = Some s1
    /\ log s1 = log s ++ calls_from (now s) ((d, args) :: cs)
    /\ timers s1 = {[ i := (due_after wait (now s1), final args cs) ]}.
Proof.
  induction cs as [|[d' args'] cs IH]; intros d args s Hinv Hd Hcs.
  - simpl. rewrite bool_decide_eq_true_2 by exact Hd. eexists _, _.
    split; [reflexivity|]. split; [reflexivity|]. simpl.
    rewrite (invariant_timers_cleared _ Hinv). reflexivity.
  - inversion Hcs as [|? ? Hd' Hcs']; subst. simpl in Hd'.
    assert (Hs1 : exists s1, run wait [Elapse d; Call args] s = Some s1
      /\ invariant wait s1 /\ now s1 = now s + d
      /\ log s1 = log s ++ [Called (now s + d) args]).
    { simpl. rewrite bool_decide_eq_true_2 by exact Hd. eexists.
      split; [reflexivity|]. split; [|split; reflexivity].
      eapply (debounce_invariant_run [Elapse d; Call args] s); [exact Hinv|].
      simpl. rewrite bool_decide_eq_true_2 by exact Hd. reflexivity. }
    destruct Hs1 as (s1 & Hr1 & Hinv1 & Hnow1 & Hlog1).
    destruct (IH d' args' s1 Hinv1 Hd' Hcs') as (s2 & i & Hr2 & Hlog2 & Ht2).
    exists s2, i. split; [|split].
    + change (burst ((d, args) :: (d', args') :: cs))
        with ([Elapse d; Call args] ++ burst ((d', args') :: cs)).
      simpl in Hr1 |- *. destruct (bool_decide (0 <= d)); [|discriminate Hr1].
      injection Hr1 as <-. exact Hr2.
    + rewrite Hlog2, Hlog1, Hnow1, <- app_assoc. reflexivity.
    + rewrite Ht2, final_cons. reflexivity.
Qed.

(** X8. After a burst of calls, each any time after the one before, whatever
    happened to the closure earlier: the burst invokes nothing; the pending
    timer can fire at once exactly when [wait], as the 32-bit signed integer
    [setTimeout] makes of it, is not positive; and once the delay has passed
    since the last call it fires, invoking [func] once, with the arguments
    of the last call of the burst, after which no timer is pending. *)
Theorem burst_invokes_last_call_once t evs (s : State A) d args cs :
  run wait evs (init t) = Some s ->
  0 <= d -> Forall (fun c => 0 <= c.1) cs ->
  exists s1 i,
    run wait (burst ((d, args) :: cs)) s = Some s1
    /\ log s1 = log s ++ calls_from (now s) ((d, args) :: cs)
    /\ step wait (Fire i) s1 = (if bool_decide (to_int32 wait <= 0)
                                then Some (fire i (final args cs) s1) else None)
    /\ exists s2,
         run wait [Elapse (delay wait); Fire i] s1 = Some s2
         /\ log s2 = log s1 ++ [Invoked (due_after wait (now s1)) (final args cs)]
         /\ timers s2 = ∅.
Proof.
  intros Hr Hd Hcs.
  pose proof (debounce_invariant_run evs _ _ (debounce_invariant_init t) Hr) as Hinv.
  destruct (burst_run cs d args s Hinv Hd Hcs) as (s1 & i & Hr1 & Hlog1 & Ht1).
  exists s1, i. split; [exact Hr1|]. split; [exact Hlog1|]. split.
  - simpl. rewrite Ht1, lookup_singleton_eq. unfold due_after, delay.
    destruct (decide (to_int32 wait <= 0)) as [Hw|Hw].
    + rewrite (bool_decide_eq_true_2 _ Hw), bool_decide_eq_true_2 by lia. reflexivity.
    + rewrite (bool_decide_eq_false_2 _ Hw), bool_decide_eq_false_2 by lia. reflexivity.
  - pose proof (Z.le_max_l 0 (to_int32 wait)) as Hdelay. fold (delay wait) in Hdelay.
    simpl. rewrite bool_decide_eq_true_2 by exact Hdelay. simpl.
    rewrite Ht1, lookup_singleton_eq. unfold due_after.
    rewrite bool_decide_eq_true_2 by lia.
    eexists. split; [reflexivity|]. split; [reflexivity|]. simpl.
    apply delete_singleton_eq.
Qed.

End Debounced.

Lemma debounced_invocations_follow_silence_witness :
  run 300 three_clicks (init 0) = Some after_three_clicks
  /\ settled_calls_only 300 (log after_three_clicks).
Proof.
  split; [vm_compute; reflexivity|].
  apply (proj1 (debounced_invocations_follow_silence 300 0 three_clicks after_three_clicks
                  ltac:(vm_compute; reflexivity))).
Defined.

(** A [wait] of 2^31 milliseconds wraps around to a negative number: the
    delay is none, and the timer a call sets is due at once. *)
Example wait_beyond_int32_is_no_delay :
  to_int32 (2 ^ 31) = - 2 ^ 31
  /\ delay (2 ^ 31) = 0
  /\ run (2 ^ 31) [Call 1%nat; Fire 0] (init 0)
     = Some (mkState 0 (Some 0%nat) ∅ 1 [Called 0 1%nat; Invoked 0 1%nat]).
Proof. vm_compute. repeat split; reflexivity. Qed.

Lemma burst_invokes_last_call_once_witness :
  exists s1 i,
    run 300 (burst [(0, 1%nat); (100, 2%nat); (100, 3%nat)]) (init 0) = Some s1
    /\ log s1 = [] ++ calls_from 0 [(0, 1%nat); (100, 2%nat); (100, 3%nat)]
    /\ step 300 (Fire i) s1 = (if bool_decide (to_int32 300 <= 0)
                               then Some (fire i 3%nat s1) else None)
    /\ exists s2,
         run 300 [Elapse (delay 300); Fire i] s1 = Some s2
         /\ log s2 = log s1 ++ [Invoked (due_after 300 (now s1)) 3%nat]
         /\ timers s2 = ∅.
Proof.
  apply (burst_invokes_last_call_once 300 0 [] (init 0) 0 1%nat
           [(100, 2%nat); (100, 3%nat)]).
  - reflexivity.
  - lia.
  - repeat constructor; simpl; lia.
Defined.

End DebounceSpec.

(* ------------------------------------------------------------------ *)
(** ** ChatInterface: new chat, cleared chat *)
(* ------------------------------------------------------------------ *)

Module ResetSpec.
Import Reset.

Section WithPlatform.
Context `{P : Platform}.

(** X9. On a page with [#chat-container], [clearCurrentChat] returns
    normally and does not clear the transcript: [this.messages] keeps its
    messages, followed by the welcome message if the message container is
    still in the page after the emptying; that array is what [chat_history]
    holds afterwards; [chatHistory] is empty; and no other key of local
    storage changes. *)
Theorem clearCurrentChat_keeps_transcript w emptied xs :
  chat_container w = Some emptied ->
  Chat.messages (Chat.this (chat w)) = JArr xs ->
  let w' := exec clearCurrentChat w in
  let kept := JArr (xs ++ welcome_after emptied (chat w)) in
  outcome clearCurrentChat w = Ret tt
  /\ Chat.messages (Chat.this (chat w')) = kept
  /\ Chat.localStorage (chat w') !! "chat_history" = Some (JSON_stringify kept)
  /\ Chat.chatHistory (Chat.this (chat w')) = []
  /\ forall k, k <> "chat_history" ->
       Chat.localStorage (chat w') !! k = Chat.localStorage (chat w) !! k.
Proof.
  intros Hc Hm. unfold clearCurrentChat, outcome, exec, welcome_after.
  erewrite bind_ret_eq; [|reflexivity]. rewrite Hc.
  erewrite bind_ret_eq; [|reflexivity]. erewrite bind_ret_eq; [|reflexivity].
  erewrite bind_ret_eq; [|reflexivity].
  unfold on_chat, showWelcomeMessage. cbn [chat with_chat].
  destruct (Chat.chat_messages (emptied (Chat.dom (chat w)))) as [ch|] eqn:Ech.
  - erewrite zoom_eq.
    2:{ apply (ChatSpec.addMessage_appends _ _ _ ch xs); [exact Ech|]. simpl. exact Hm. }
    simpl. rewrite Hm. split; [reflexivity|]. split; [reflexivity|].
    split; [apply lookup_insert_eq|]. split; [reflexivity|].
    intros k Hk. rewrite !lookup_insert_ne by congruence. reflexivity.
  - erewrite zoom_eq.
    2:{ unfold Chat.addMessage. erewrite bind_ret_eq; [|reflexivity].
        cbn. rewrite Ech. reflexivity. }
    simpl. rewrite Hm, app_nil_r. split; [reflexivity|]. split; [reflexivity|].
    split; [apply lookup_insert_eq|]. split; [reflexivity|].
    intros k Hk. rewrite lookup_insert_ne by congruence. reflexivity.
Qed.

Lemma same_chat_refl c : same_chat c c.
Proof. split; reflexivity. Qed.

Lemma same_chat_trans c1 c2 c3 : same_chat c1 c2 -> same_chat c2 c3 -> same_chat c1 c3.
Proof. intros [? ?] [? ?]. split; congruence. Qed.

Ltac same :=
  through same_chat_refl same_chat_trans;
  try (apply preserves_modify; intros ?; split; reflexivity).

Lemma addMessage_same_chat role content : preserves same_chat (Chat.addMessage role content).
Proof.
  unfold Chat.addMessage, Chat.messages_push, Chat.saveChatHistory, Chat.setItem. same.
Qed.

Lemma forEach_replay_same_chat n : forall k,
  preserves same_chat (Chat.forEach_messages n k Chat.replay).
Proof.
  induction n as [|n IH]; intros k; simpl; same; try apply IH.
  all: unfold Chat.replay; same; apply addMessage_same_chat.
Qed.

Lemma loadChatHistory_same_chat : preserves same_chat Chat.loadChatHistory.
Proof.
  unfold Chat.loadChatHistory, Chat.getItem, Chat.console_log. same.
  apply forEach_replay_same_chat.
Qed.

Lemma checkApiAvailability_begin_same_chat :
  preserves same_chat Chat.checkApiAvailability_begin.
Proof.
  unfold Chat.checkApiAvailability_begin, Chat.fetchWithCache_begin. same.
Qed.

(** The constructor leaves no chat current. *)
Lemma constructor_no_chat rnd c :
  exists a c', Chat.constructor rnd c = (Ret a, c')
    /\ Chat.currentChatId (Chat.this c') = None
    /\ Chat.clock c' = Chat.clock c.
Proof.
  assert (H1 : exists c1, Chat.constructor_fields rnd c = (Ret tt, c1)
    /\ Chat.currentChatId (Chat.this c1) = None /\ Chat.clock c1 = Chat.clock c).
  { unfold Chat.constructor_fields, Chat.getItem, Chat.generateSessionId, Chat.setItem.
    unfold bind, gets, modify, ret. simpl.
    destruct (Chat.item_truthy _); simpl; eexists; repeat split. }
  destruct H1 as (c1 & E1 & Hi1 & Hk1).
  pose proof (ChatSpec.loadChatHistory_returns c1) as Hl.
  pose proof (loadChatHistory_same_chat c1) as [Hi2 Hk2].
  unfold outcome, exec in *.
  destruct (Chat.loadChatHistory c1) as [r2 c2] eqn:E2. simpl in *. subst r2.
  destruct (ChatSpec.checkApiAvailability_begin_returns c2) as [a Ha].
  pose proof (checkApiAvailability_begin_same_chat c2) as [Hi3 Hk3].
  unfold outcome, exec in *.
  destruct (Chat.checkApiAvailability_begin c2) as [r3 c3] eqn:E3. simpl in *. subst r3.
  exists a, (Chat.with_this (Chat.set_cache (Some ∅)) c3).
  split; [|split].
  - unfold Chat.constructor.
    erewrite bind_ret_eq; [|exact E1]. erewrite bind_ret_eq; [|exact E2].
    erewrite bind_ret_eq; [|exact E3]. reflexivity.
  - simpl. congruence.
  - simpl. congruence.
Qed.

Lemma updateChatHistory_welcome c :
  Chat.chatMessages (Chat.dom c) = Some [welcome_node] ->
  Chat.updateChatHistory c = (Ret tt, c).
Proof.
  intros Hc. unfold Chat.updateChatHistory.
  erewrite bind_ret_eq; [|reflexivity]. cbn. rewrite Hc. reflexivity.
Qed.

Lemma startNewChat_run c :
  exists c', startNewChat c = (Ret tt, c')
    /\ Chat.this c' = set_currentChatId (Some (pretty (Chat.clock c))) (Chat.this c)
    /\ Chat.localStorage c' = Chat.localStorage c
    /\ Chat.chatMessages (Chat.dom c')
       = match Chat.chatMessages (Chat.dom c) with
         | Some _ => Some [welcome_node]
         | None => None
         end
    /\ Chat.chat_messages (Chat.dom c') = Chat.chat_messages (Chat.dom c).
Proof.
  unfold startNewChat.
  erewrite bind_ret_eq; [|reflexivity]. erewrite bind_ret_eq; [|reflexivity].
  erewrite bind_ret_eq; [|reflexivity]. cbn [Chat.dom Chat.with_this].
  destruct (Chat.currentChatTitle (Chat.dom c)) as [t|];
    (erewrite bind_ret_eq; [|reflexivity]); (erewrite bind_ret_eq; [|reflexivity]);
    simpl; destruct (Chat.chatMessages (Chat.dom c)) as [old|] eqn:Ecm;
    try (erewrite bind_ret_eq; [|reflexivity];
         rewrite updateChatHistory_welcome by reflexivity);
    (eexists; split; [reflexivity|]; simpl; rewrite ?Ecm; repeat split).
Qed.

(** X10. [startNewChat] returns normally and makes the decimal numeral of
    the clock the current chat id; where [#chatMessages] is in the page its
    content becomes the welcome node; the list of chats, the transcript and
    local storage stay as they were. The page-load handler, after the
    constructor, ends with that id as the current chat. *)
Theorem startNewChat_not_recorded c :
  let c' := exec startNewChat c in
  outcome startNewChat c = Ret tt
  /\ Chat.currentChatId (Chat.this c') = Some (pretty (Chat.clock c))
  /\ Chat.chatHistory (Chat.this c') = Chat.chatHistory (Chat.this c)
  /\ Chat.messages (Chat.this c') = Chat.messages (Chat.this c)
  /\ Chat.localStorage c' = Chat.localStorage c
  /\ (forall old, Chat.chatMessages (Chat.dom c) = Some old ->
        Chat.chatMessages (Chat.dom c') = Some [welcome_node])
  /\ (forall rnd,
        Chat.currentChatId (Chat.this (exec (on_load rnd) c))
        = Some (pretty (Chat.clock c))).
Proof.
  destruct (startNewChat_run c) as (c' & E & Ht & Hs & Hm & _).
  unfold outcome, exec. rewrite E. simpl. rewrite Ht, Hs, Hm.
  split; [reflexivity|]. split; [reflexivity|]. split; [reflexivity|].
  split; [reflexivity|]. split; [reflexivity|].
  split; [intros old ->; reflexivity|].
  intros rnd. unfold on_load.
  destruct (constructor_no_chat rnd c) as (a & c1 & E1 & Hi1 & Hk1).
  erewrite bind_ret_eq; [|exact E1]. erewrite bind_ret_eq; [|reflexivity].
  rewrite Hi1. cbn [Chat.item_truthy].
  destruct (startNewChat_run c1) as (c2 & E2 & Ht2 & _).
  erewrite bind_ret_eq; [|exact E2]. simpl. rewrite Ht2, Hk1. reflexivity.
Qed.

End WithPlatform.

Lemma clearCurrentChat_keeps_transcript_witness :
  Chat.pairs_of (Chat.messages (Chat.this (chat
     (exec (clearCurrentChat (P:=RefPlatform.platform)) nested_page))))
  = [(JStr "user", JStr "hi")].
Proof.
  destruct (clearCurrentChat_keeps_transcript (P:=RefPlatform.platform) nested_page
              (Chat.set_chat_messages None)
              (Chat.transcript (P:=RefPlatform.platform) Chat.one_call)
              eq_refl eq_refl) as (_ & H & _).
  rewrite H. reflexivity.
Defined.

End ResetSpec.

(* ------------------------------------------------------------------ *)
(** ** ChatInterface: theme, language and jurisdiction *)
(* ------------------------------------------------------------------ *)

Module PrefsSpec.
Import Prefs.


Section WithPlatform.
Context `{P : Platform}.






End WithPlatform.
End PrefsSpec.

(* ------------------------------------------------------------------ *)
(** ** ChatInterface: the cache of [fetchWithCache] *)
(* ------------------------------------------------------------------ *)

Module CacheSpec.
Import Chat.

(** X12. For a [url] that is not the name of a property every object
    inherits: when [fetchWithCache(url)] has fetched a body it resolves to
    that body; the next [fetchWithCache(url)] is answered from the cache,
    without a request, exactly when the body is truthy, and asks the network
    again for a body that is not; calls for other such URLs are answered as
    before. *)
Theorem fetchWithCache_serves_truthy_bodies url data w m :
  url ∉ Doc.inherited_keys ->
  cache (this w) = Some m ->
  let w1 := exec (fetchWithCache_resume url AwaitFetch (Body data)) w in
  outcome (fetchWithCache_resume url AwaitFetch (Body data)) w = Ret data
  /\ fetchWithCache_begin url w1 =
       (if truthy data then (Ret (AwaitCached data), w1)
        else (Ret AwaitFetch, with_network (fun n => n ++ [url]) w1))
  /\ forall other, other ∉ Doc.inherited_keys -> other <> url ->
       outcome (fetchWithCache_begin other) w1 = outcome (fetchWithCache_begin other) w.
Proof.
  intros _ Hc. unfold outcome, exec, fetchWithCache_resume, fetchWithCache_begin.
  unfold bind, gets, modify, ret. simpl. rewrite Hc. simpl.
  split; [reflexivity|]. split.
  - rewrite lookup_insert_eq. simpl. destruct (truthy data); reflexivity.
  - intros other _ Hne. rewrite lookup_insert_ne by congruence.
    destruct (truthy (default JUndefined (m !! other))); reflexivity.
Qed.

Lemma health_url_not_inherited : health_url ∉ Doc.inherited_keys.
Proof.
  intros H. unfold Doc.inherited_keys in H.
  repeat (apply elem_of_cons in H as [H|H]; [discriminate H|]).
  inversion H.
Qed.

Lemma fetchWithCache_serves_truthy_bodies_witness :
  (health_url ∉ Doc.inherited_keys)
  /\ fetchWithCache_begin health_url
       (exec (fetchWithCache_resume health_url AwaitFetch (Body healthy_body)) first_visit)
     = (Ret (AwaitCached healthy_body),
        exec (fetchWithCache_resume health_url AwaitFetch (Body healthy_body)) first_visit).
Proof.
  split; [exact health_url_not_inherited|].
  exact (proj1 (proj2 (fetchWithCache_serves_truthy_bodies health_url healthy_body
                         first_visit ∅ health_url_not_inherited eq_refl))).
Defined.

End CacheSpec.

(* ------------------------------------------------------------------ *)
(** ** DocumentProcessor: the news feed *)
(* ------------------------------------------------------------------ *)

Module NewsFeedSpec.
Import NewsFeed.

#[local] Arguments read_item : simpl never.

Lemma on_doc_run {A} (m : M Doc.World A) w :
  on_doc m w = (outcome m (doc w), with_doc (fun _ => exec m (doc w)) w).
Proof. unfold on_doc, zoom, outcome, exec. destruct (m (doc w)). reflexivity. Qed.

(** Splits on the outcomes of the calls into the [DocumentProcessor]. *)
Ltac doc_cases :=
  repeat (rewrite on_doc_run; cbn);
  repeat match goal with
         | |- context [match outcome ?m ?d with _ => _ end] =>
             destruct (outcome m d); cbn; repeat (rewrite on_doc_run; cbn)
         end.

Lemma loadNewsFeed_begin_one w :
  one_at_a_time w -> one_at_a_time (exec loadNewsFeed_begin w).
Proof.
  intros H. unfold one_at_a_time in *.
  unfold loadNewsFeed_begin, exec. unfold bind at 1 2. unfold gets at 1 2. cbn.
  destruct (truthy (newsLoading w)) eqn:El; cbn; [rewrite El; exact H|].
  destruct (truthy (newsHasMore w)); cbn; [|rewrite El; exact H].
  assert (H0 : awaiting w = O) by lia.
  unfold bind, modify, gets, try_finally, load_failed, load_finally. cbn.
  doc_cases; lia.
Qed.

Lemma exec_bind_modify {S A} (f : S -> S) (k : unit -> M S A) w :
  exec (bind (modify f) k) w = exec (k tt) (f w).
Proof. reflexivity. Qed.

Lemma append_items_load items : forall w,
  awaiting (exec (append_items items) w) = awaiting w
  /\ newsLoading (exec (append_items items) w) = newsLoading w
  /\ doc (exec (append_items items) w) = doc w.
Proof.
  induction items as [|item rest IH]; intros w; [auto|].
  cbn [append_items]. unfold exec, bind at 1. unfold lift at 1.
  destruct (read_item item); [|auto].
  unfold bind at 1. unfold gets at 1. unfold bind at 1. unfold modify at 1.
  apply (IH (set_newsFeed _ w)).
Qed.

Lemma displayNewsItems_load news w :
  awaiting (exec (displayNewsItems news) w) = awaiting w
  /\ newsLoading (exec (displayNewsItems news) w) = newsLoading w
  /\ doc (exec (displayNewsItems news) w) = doc w.
Proof.
  unfold displayNewsItems, exec, bind, gets.
  destruct (newsFeed w); [|auto].
  destruct news; try (cbn; auto). apply append_items_load.
Qed.

Lemma loadNewsFeed_resume_one o w :
  (awaiting w <= 1)%nat -> one_at_a_time (exec (loadNewsFeed_resume o) w).
Proof.
  intros H. unfold one_at_a_time, loadNewsFeed_resume.
  rewrite !exec_bind_modify.
  set (w0 := set_awaiting _ w).
  assert (H0 : awaiting w0 = O) by (subst w0; cbn; lia).
  clearbody w0. clear H w.
  assert (Hbody : forall (m : M World unit),
            awaiting (exec m w0) = O ->
            (awaiting (exec (try_finally m load_finally) w0)
             <= if truthy (newsLoading (exec (try_finally m load_finally) w0))
                then 1 else 0)%nat).
  { intros m Hm. rewrite try_finally_exec. unfold load_finally, exec in *.
    unfold bind, modify. destruct (m w0) as [r w1]. cbn in *.
    rewrite on_doc_run. cbn. lia. }
  apply Hbody. clear Hbody.
  unfold exec, try_catch, bind at 1. rewrite on_doc_run.
  destruct (outcome (Doc.awaited o) (doc w0)) as [result|e]; cbn -[displayNewsItems];
    [|unfold load_failed; rewrite on_doc_run; exact H0].
  set (w1 := with_doc _ w0).
  assert (H1 : awaiting w1 = O) by exact H0. clearbody w1.
  unfold bind at 1. unfold lift at 1.
  destruct (get_prop result "news") as [news|e]; cbn -[displayNewsItems];
    [|unfold load_failed; rewrite on_doc_run; exact H1].
  destruct (displayNewsItems_load news w1) as (Ha & _ & _).
  unfold exec in Ha. destruct (displayNewsItems news w1) as [[[]|e] w2]; cbn in Ha |- *;
    [|unfold load_failed; rewrite on_doc_run; cbn; lia].
  destruct (get_prop result "has_more") as [more|e]; cbn;
    [|unfold load_failed; rewrite on_doc_run; cbn; lia].
  unfold set_load_more_display, bind, modify.
  destruct (truthy more); cbn; [lia|].
  destruct (Doc.elements (doc w2) !! "loadMoreNews"); cbn;
    [lia | unfold load_failed; rewrite on_doc_run; cbn; lia].
Qed.

Lemma set_load_more_display_load display w :
  awaiting (exec (set_load_more_display display) w) = awaiting w
  /\ newsLoading (exec (set_load_more_display display) w) = newsLoading w.
Proof.
  unfold set_load_more_display, exec, bind. rewrite on_doc_run. cbn.
  destruct (Doc.elements (doc w) !! "loadMoreNews"); cbn; auto.
Qed.

Lemma filterNews_one w : one_at_a_time w -> one_at_a_time (exec filterNews w).
Proof.
  intros H. unfold filterNews, exec, bind at 1. unfold gets at 1.
  destruct (newsFeed w); [|exact H].
  unfold bind at 1 2 3. unfold modify at 1 2 3. cbn.
  set (w1 := set_newsHasMore _ _).
  assert (H1 : one_at_a_time w1) by exact H. clearbody w1.
  unfold bind at 1.
  destruct (set_load_more_display_load "block" w1) as [Ha Hl]. unfold exec in Ha, Hl.
  destruct (set_load_more_display "block" w1) as [[[]|e] w2]; cbn in *.
  - assert (H2 : one_at_a_time w2) by (unfold one_at_a_time in *; rewrite Ha, Hl; exact H1).
    apply loadNewsFeed_begin_one in H2. unfold exec, detached in *.
    destruct (loadNewsFeed_begin w2). exact H2.
  - unfold one_at_a_time in *. rewrite Ha, Hl. exact H1.
Qed.

Lemma handleNewNewsItem_load newsItem w :
  awaiting (exec (handleNewNewsItem newsItem) w) = awaiting w
  /\ newsLoading (exec (handleNewNewsItem newsItem) w) = newsLoading w.
Proof.
  unfold handleNewNewsItem, exec, bind, gets, modify, lift, ret.
  doc_cases; auto.
  destruct (filter_passes _ newsItem "category") as [[|]|]; cbn; auto.
  destruct (filter_passes _ newsItem "jurisdiction") as [[|]|]; cbn; auto.
  destruct (newsFeed w); cbn; auto.
  destruct (read_item newsItem); cbn; auto.
  destruct (granted w); cbn; auto.
  destruct (get_prop newsItem "title"); cbn; auto.
Qed.

Lemma one_at_a_time_step ev w w' :
  one_at_a_time w -> step ev w = Some w' -> one_at_a_time w'.
Proof.
  intros H Hs. destruct ev as [| |o|item]; cbn in Hs.
  - injection Hs as <-. apply loadNewsFeed_begin_one, H.
  - injection Hs as <-. apply filterNews_one, H.
  - destruct (awaiting w) eqn:Ea; [discriminate|]. injection Hs as <-.
    apply loadNewsFeed_resume_one. unfold one_at_a_time in H.
    destruct (truthy (newsLoading w)); lia.
  - injection Hs as <-. destruct (handleNewNewsItem_load item w) as [Ha Hl].
    unfold one_at_a_time in *. rewrite Ha, Hl. exact H.
Qed.

Lemma one_at_a_time_run evs : forall w w',
  one_at_a_time w -> run evs w = Some w' -> one_at_a_time w'.
Proof.
  induction evs as [|ev evs IH]; intros w w' H Hr; cbn in Hr.
  - injection Hr as <-. exact H.
  - destruct (step ev w) as [w1|] eqn:Es; [|discriminate].
    exact (IH _ _ (one_at_a_time_step _ _ _ H Es) Hr).
Qed.



(** X14. Over any sequence of [loadNewsFeed] calls, filter changes, settled
    responses and pushed items that begins with no call waiting, at most one
    call of [loadNewsFeed] waits for its response, and while one waits a
    further call of [loadNewsFeed] changes nothing. *)
Theorem news_loads_one_at_a_time evs w0 w :
  awaiting w0 = O ->
  run evs w0 = Some w ->
  (awaiting w <= 1)%nat
  /\ (awaiting w = 1%nat -> exec loadNewsFeed_begin w = w).
Proof.
  intros H0 Hr.
  assert (H : one_at_a_time w).
  { apply (one_at_a_time_run evs w0 w); [|exact Hr].
    unfold one_at_a_time. rewrite H0. lia. }
  unfold one_at_a_time in H. split; [destruct (truthy (newsLoading w)); lia|].
  intros H1. destruct (truthy (newsLoading w)) eqn:El; [|lia].
  unfold loadNewsFeed_begin, exec, bind, gets. rewrite El. reflexivity.
Qed.

Lemma read_item_renderable item : renderable item = true -> read_item item = Ret tt.
Proof.
  unfold renderable, read_item. intros H. apply andb_true_iff in H as [Hp Hf].
  induction item_fields as [|k ks IH]; [reflexivity|].
  cbn in Hf. apply andb_true_iff in Hf as [Hk Hks]. cbn [read_fields].
  unfold Chat.prop_of in Hk.
  destruct (get_prop item k) as [v|e] eqn:Eg;
    [|destruct item; try discriminate Hp; discriminate Eg].
  rewrite Hk. apply IH, Hks.
Qed.

Lemma append_items_renderable items : forall w feed,
  forallb renderable items = true ->
  newsFeed w = Some feed ->
  append_items items w = (Ret tt, set_newsFeed (Some (feed ++ items)) w).
Proof.
  induction items as [|item rest IH]; intros w feed Hi Hf.
  - cbn. rewrite app_nil_r. destruct w. cbn in *. rewrite Hf. reflexivity.
  - cbn in Hi. apply andb_true_iff in Hi as [Hitem Hrest].
    cbn [append_items]. unfold bind at 1. unfold lift at 1.
    assert (Hr : read_item item = Ret tt) by (apply read_item_renderable, Hitem).
    rewrite Hr. unfold bind at 1. unfold gets at 1. unfold bind at 1. unfold modify at 1.
    rewrite Hf. cbn [default id].
    rewrite (IH (set_newsFeed (Some (feed ++ [item])) w) (feed ++ [item]) Hrest eq_refl).
    rewrite <- app_assoc. reflexivity.
Qed.

Lemma loadNewsFeed_resume_renders w result items feed :
  newsFeed w = Some feed ->
  get_prop result "news" = Ret (JArr items) ->
  forallb renderable items = true ->
  newsFeed (exec (loadNewsFeed_resume (Body result)) w) = Some (feed ++ items)
  /\ newsPage (exec (loadNewsFeed_resume (Body result)) w) = increment (newsPage w).
Proof.
  intros Hf Hn Hi. unfold loadNewsFeed_resume.
  rewrite exec_bind_modify, try_finally_exec.
  set (w0 := set_awaiting _ w).
  assert (Hf0 : newsFeed w0 = Some feed) by exact Hf.
  assert (Hp0 : newsPage w0 = newsPage w) by reflexivity.
  clearbody w0.
  assert (Hfin : forall w1, newsFeed (exec load_finally w1) = newsFeed w1
                            /\ newsPage (exec load_finally w1) = newsPage w1).
  { intros w1. unfold load_finally, exec, bind, modify. doc_cases; auto. }
  destruct (Hfin (exec (try_catch
    (result0 ← on_doc (Doc.awaited (Body result));
     news ← lift (get_prop result0 "news");
     displayNewsItems news ;;
     has_more ← lift (get_prop result0 "has_more");
     modify (set_newsHasMore has_more) ;;
     modify (fun w => set_newsPage (increment (newsPage w)) w) ;;
     if negb (truthy has_more) then set_load_more_display "none" else ret tt)
    load_failed) w0)) as [-> ->].
  clear Hfin.
  assert (Hd : displayNewsItems (JArr items) (with_doc (fun _ => doc w0) w0)
               = (Ret tt, set_newsFeed (Some (feed ++ items))
                                       (with_doc (fun _ => doc w0) w0))).
  { unfold displayNewsItems, bind, gets. cbn [newsFeed with_doc]. rewrite Hf0.
    exact (append_items_renderable items (with_doc (fun _ => doc w0) w0) feed Hi Hf0). }
  assert (Hm : exists more, get_prop result "has_more" = Ret more)
    by (destruct result; try discriminate Hn; eexists; reflexivity).
  destruct Hm as [more Hm].
  unfold exec, try_catch, bind, lift, modify. rewrite on_doc_run. cbn -[displayNewsItems].
  rewrite Hn, Hd, Hm.
  destruct (truthy more); cbn; [rewrite Hp0; auto|].
  unfold set_load_more_display, bind. cbn.
  destruct (Doc.elements (doc w0) !! "loadMoreNews"); cbn; [rewrite Hp0; auto|].
  unfold load_failed. rewrite on_doc_run. cbn. rewrite Hp0; auto.
Qed.

Lemma news_loads_one_at_a_time_witness :
  let w := exec (handleNewNewsItem tax_item)
             (exec loadNewsFeed_begin (exec filterNews constructed)) in
  (awaiting w <= 1)%nat /\ (awaiting w = 1%nat -> exec loadNewsFeed_begin w = w).
Proof.
  apply (news_loads_one_at_a_time [Filtered; LoadCalled; Pushed tax_item] constructed);
    reflexivity.
Defined.

(** X15. A filter change while a load is under way empties the feed and sets
    [newsPage] to 1 but makes no request; when the response to the earlier
    request then arrives with items that can be rendered (their properties
    can be read, and those the template uses have a text), those items fill
    the feed and [newsPage] becomes 2. *)
Theorem filter_during_load_shows_old_response w result items :
  truthy (newsLoading w) = true ->
  is_Some (newsFeed w) ->
  get_prop result "news" = Ret (JArr items) ->
  forallb renderable items = true ->
  let w1 := exec filterNews w in
  let w2 := exec (loadNewsFeed_resume (Body result)) w1 in
  Doc.network (doc w1) = Doc.network (doc w)
  /\ newsFeed w1 = Some [] /\ newsPage w1 = Num 1
  /\ newsFeed w2 = Some items /\ newsPage w2 = Num 2.
Proof.
  intros Hl [feed Hf] Hn Hi.
  assert (H1 : exists d,
    exec filterNews w =
    mkWorld (doc w) (Num 1) (newsLoading w) (JBool true) (Some []) d
            (awaiting w) (notifications w) (granted w)).
  { unfold filterNews, exec, bind at 1. unfold gets at 1. rewrite Hf.
    unfold bind at 1 2 3. unfold modify at 1 2 3. cbn.
    unfold bind at 1. unfold set_load_more_display, bind at 1. rewrite on_doc_run. cbn.
    destruct (Doc.elements (doc w) !! "loadMoreNews"); cbn.
    - unfold detached, loadNewsFeed_begin, bind, gets. cbn. rewrite Hl. cbn.
      eexists. destruct w; reflexivity.
    - eexists. destruct w; reflexivity. }
  destruct H1 as [d H1]. cbn zeta. rewrite H1. cbn [doc newsFeed newsPage].
  set (w1 := mkWorld _ _ _ _ _ _ _ _ _).
  destruct (loadNewsFeed_resume_renders w1 result items [] eq_refl Hn Hi) as [-> ->].
  repeat split.
Qed.

Lemma filter_during_load_shows_old_response_witness :
  let w1 := exec filterNews loading_page in
  let w2 := exec (loadNewsFeed_resume (Body first_page)) w1 in
  Doc.network (doc w1) = Doc.network (doc loading_page)
  /\ newsFeed w1 = Some [] /\ newsPage w1 = Num 1
  /\ newsFeed w2 = Some [tax_item] /\ newsPage w2 = Num 2.
Proof.
  apply (filter_during_load_shows_old_response loading_page first_page [tax_item]);
    [reflexivity | eexists; reflexivity | reflexivity | reflexivity].
Defined.

End NewsFeedSpec.

(* ------------------------------------------------------------------ *)
(** ** DocumentProcessor: the FAQ histories *)
(* ------------------------------------------------------------------ *)

Module FaqSpec.
Import Faq.

Section WithPlatform.
Context `{P : Platform}.

Lemma removelast_take {A} (l : list A) :
  removelast l = take (pred (length l)) l.
Proof.
  induction l as [|a [|b l] IH]; [reflexivity | reflexivity |].
  change (removelast (a :: b :: l)) with (a :: removelast (b :: l)).
  rewrite IH. reflexivity.
Qed.

(** Putting an entry in front of a history within its bound and dropping
    the last entry if the bound is exceeded keeps the first [n]. *)
Lemma unshift_pop n x (h : list jsval) :
  (length h <= n)%nat ->
  (if (n <? length (x :: h))%nat then pop (x :: h) else x :: h) = take n (x :: h).
Proof.
  intros H. destruct (Nat.ltb_spec n (length (x :: h))) as [Hlt|Hge].
  - unfold pop. rewrite removelast_take. cbn [length pred] in *.
    replace (length h) with n by lia. reflexivity.
  - rewrite take_ge; [reflexivity | exact Hge].
Qed.

Lemma take_app_take {A} (a l : list A) : forall n m, (n <= m)%nat ->
  take n (a ++ take m l) = take n (a ++ l).
Proof.
  induction a as [|x a IH]; intros n m H; cbn.
  - rewrite take_take. f_equal. lia.
  - destruct n; [reflexivity|]. cbn. f_equal. apply IH. lia.
Qed.

Lemma saveSearchHistory_run query w :
  (length (searchHistory w) <= 10)%nat ->
  exec (saveSearchHistory query) w =
  mkWorld (take 10 (JStr query :: searchHistory w)) (feedbackHistory w)
          (<["faqSearchHistory" :=
               JSON_stringify (JArr (take 10 (JStr query :: searchHistory w)))]>
             (localStorage w)).
Proof.
  intros H. pose proof (unshift_pop 10 (JStr query) (searchHistory w) H) as Hu.
  unfold saveSearchHistory, exec, bind, modify, gets, setItem, ret. cbn [fst snd searchHistory set_searchHistory].
  rewrite <- Hu.
  destruct (10 <? length (JStr query :: searchHistory w))%nat; reflexivity.
Qed.

Lemma saveFeedbackHistory_run feedback w :
  (length (feedbackHistory w) <= 50)%nat ->
  exec (saveFeedbackHistory feedback) w =
  mkWorld (searchHistory w) (take 50 (feedback :: feedbackHistory w))
          (<["faqFeedbackHistory" :=
               JSON_stringify (JArr (take 50 (feedback :: feedbackHistory w)))]>
             (localStorage w)).
Proof.
  intros H. pose proof (unshift_pop 50 feedback (feedbackHistory w) H) as Hu.
  unfold saveFeedbackHistory, exec, bind, modify, gets, setItem, ret.
  cbn [fst snd feedbackHistory set_feedbackHistory].
  rewrite <- Hu.
  destruct (50 <? length (feedback :: feedbackHistory w))%nat; reflexivity.
Qed.

Lemma exec_bind_total {S A B} (m : M S A) (k : A -> M S B) w a :
  outcome m w = Ret a -> exec (bind m k) w = exec (k a) (exec m w).
Proof. unfold outcome, exec, bind. destruct (m w) as [r w']. cbn. intros ->. reflexivity. Qed.

Lemma record_returns e w : outcome (record e) w = Ret tt.
Proof.
  destruct e; cbn; unfold saveSearchHistory, saveFeedbackHistory, outcome, bind, modify,
    gets, setItem, ret; cbn; match goal with |- context [if ?b then _ else _] => destruct b end;
    reflexivity.
Qed.

Lemma queries_cons e r :
  queries (e :: r) = queries r ++ match e with Searched q => [JStr q] | Rated _ => [] end.
Proof. unfold queries. destruct e; cbn; [reflexivity | rewrite app_nil_r; reflexivity]. Qed.

Lemma feedbacks_cons e r :
  feedbacks (e :: r) = feedbacks r ++ match e with Rated f => [f] | Searched _ => [] end.
Proof. unfold feedbacks. destruct e; cbn; [rewrite app_nil_r; reflexivity | reflexivity]. Qed.

(** What a series of entries leaves, from any world whose histories are
    within their bounds. *)
Lemma record_all_run es : forall w,
  (length (searchHistory w) <= 10)%nat ->
  (length (feedbackHistory w) <= 50)%nat ->
  let w' := exec (record_all es) w in
  searchHistory w' = take 10 (queries es ++ searchHistory w)
  /\ feedbackHistory w' = take 50 (feedbacks es ++ feedbackHistory w)
  /\ (queries es <> [] ->
      localStorage w' !! "faqSearchHistory" = Some (JSON_stringify (JArr (searchHistory w'))))
  /\ (feedbacks es <> [] ->
      localStorage w' !! "faqFeedbackHistory"
      = Some (JSON_stringify (JArr (feedbackHistory w'))))
  /\ (queries es = [] ->
      localStorage w' !! "faqSearchHistory" = localStorage w !! "faqSearchHistory")
  /\ (feedbacks es = [] ->
      localStorage w' !! "faqFeedbackHistory" = localStorage w !! "faqFeedbackHistory").
Proof.
  induction es as [|e r IH]; intros w Hs Hf.
  - cbn. rewrite !take_ge by lia. repeat split; intros; congruence.
  - cbn [record_all]. cbn zeta. rewrite (exec_bind_total _ _ _ tt (record_returns e w)).
    rewrite queries_cons, feedbacks_cons.
    destruct e as [q|f]; cbn [record]; rewrite app_nil_r.
    + rewrite (saveSearchHistory_run q w Hs).
      set (w1 := mkWorld _ _ _).
      assert (Hs1 : (length (searchHistory w1) <= 10)%nat)
        by (subst w1; cbn [searchHistory]; rewrite length_take; lia).
      destruct (IH w1 Hs1 Hf) as (H1 & H2 & H3 & H4 & H5 & H6).
      split; [|split; [|split; [|split; [|split]]]].
      * rewrite H1. subst w1. cbn [searchHistory].
        rewrite take_app_take by lia. rewrite <- app_assoc. reflexivity.
      * exact H2.
      * intros _. destruct (queries r) as [|x l] eqn:E.
        -- rewrite H5 by reflexivity. rewrite H1. subst w1. cbn [searchHistory localStorage].
           rewrite lookup_insert. cbn [app]. rewrite take_take. reflexivity.
        -- apply H3. discriminate.
      * exact H4.
      * intros Hn. destruct (queries r); discriminate Hn.
      * intros Hn. rewrite (H6 Hn). subst w1. cbn [localStorage].
        rewrite lookup_insert_ne by discriminate. reflexivity.
    + rewrite (saveFeedbackHistory_run f w Hf).
      set (w1 := mkWorld _ _ _).
      assert (Hf1 : (length (feedbackHistory w1) <= 50)%nat)
        by (subst w1; cbn [feedbackHistory]; rewrite length_take; lia).
      destruct (IH w1 Hs Hf1) as (H1 & H2 & H3 & H4 & H5 & H6).
      split; [|split; [|split; [|split; [|split]]]].
      * exact H1.
      * rewrite H2. subst w1. cbn [feedbackHistory].
        rewrite take_app_take by lia. rewrite <- app_assoc. reflexivity.
      * exact H3.
      * intros _. destruct (feedbacks r) as [|x l] eqn:E.
        -- rewrite H6 by reflexivity. rewrite H2. subst w1. cbn [feedbackHistory localStorage].
           rewrite lookup_insert. cbn [app]. rewrite take_take. reflexivity.
        -- apply H4. discriminate.
      * intros Hn. rewrite (H5 Hn). subst w1. cbn [localStorage].
        rewrite lookup_insert_ne by discriminate. reflexivity.
      * intros Hn. destruct (feedbacks r); discriminate Hn.
Qed.

(** X16. After the constructor, whatever was stored before, any series of
    [saveSearchHistory] and [saveFeedbackHistory] calls leaves
    [searchHistory] the 10 latest queries and [feedbackHistory] the 50
    latest feedbacks of this visit, latest first; and once a query (a
    feedback) was saved, [faqSearchHistory] ([faqFeedbackHistory]) in local
    storage holds the serialised array. *)
Theorem histories_keep_latest_of_this_visit w0 es :
  let w := exec (record_all es) (exec constructor w0) in
  searchHistory w = take 10 (queries es)
  /\ feedbackHistory w = take 50 (feedbacks es)
  /\ stored "faqSearchHistory" (take 10 (queries es)) w
  /\ stored "faqFeedbackHistory" (take 50 (feedbacks es)) w.
Proof.
  pose proof (record_all_run es (exec constructor w0) ltac:(cbn; lia) ltac:(cbn; lia)) as H.
  cbn zeta in *. destruct H as (H1 & H2 & H3 & H4 & _ & _).
  change (searchHistory (exec constructor w0)) with (@nil jsval) in H1.
  change (feedbackHistory (exec constructor w0)) with (@nil jsval) in H2.
  rewrite app_nil_r in H1, H2.
  unfold stored. split; [exact H1|]. split; [exact H2|]. rewrite <- H1, <- H2. split.
  - intros Hn. apply H3. intros E. apply Hn. rewrite H1, E. reflexivity.
  - intros Hn. apply H4. intros E. apply Hn. rewrite H2, E. reflexivity.
Qed.

End WithPlatform.
End FaqSpec.

(* ------------------------------------------------------------------ *)
(** ** DocumentProcessor: privacy settings and data deletion *)
(* ------------------------------------------------------------------ *)

Module PrivacySpec.
Import Privacy.

Section WithPlatform.
Context `{P : Platform}.

Lemma assign_run id convert settings w controls v x :
  form w = Some controls ->
  get_prop settings id = Ret v ->
  convert v = Ret x ->
  assign id convert settings w =
  match controls !! id with
  | Some _ => (Ret tt, with_form (insert id x) w)
  | None => (Throw TypeError, w)
  end.
Proof.
  intros Hf Hv Hx. unfold assign, bind, gets, lift. rewrite Hf, Hv.
  destruct (controls !! id); [rewrite Hx|]; reflexivity.
Qed.

(** Assigning to a control keeps the controls the form has. *)
Lemma form_complete_insert id v controls :
  is_Some (controls !! id) ->
  form_complete (Some (<[id := v]> controls)) = form_complete (Some controls).
Proof.
  intros Hid.
  assert (H : forall k, bool_decide (is_Some (<[id := v]> controls !! k))
                        = bool_decide (is_Some (controls !! k))).
  { intros k. apply bool_decide_ext. destruct (decide (id = k)) as [->|Hne].
    - rewrite lookup_insert_eq. split; [intros _; exact Hid | intros _; eexists; reflexivity].
    - rewrite lookup_insert_ne by exact Hne. reflexivity. }
  unfold form_complete, control_ids. cbn [forallb]. rewrite !H. reflexivity.
Qed.

(** [applyPrivacySettings] touches the form only, and fails exactly when
    a control is missing from a form that is there. *)
Ltac known :=
  repeat match goal with E : _ !! _ = _ |- _ => rewrite E; clear E end; reflexivity.

Lemma applyPrivacySettings_run settings w :
  Chat.has_props settings = true ->
  Text.has_text (Chat.prop_of settings "dataRetentionPeriod") = true ->
  exists f,
    applyPrivacySettings settings w =
      (if form_complete (form w) then Ret tt else Throw TypeError,
       mkWorld (doc w) (successes w) f (localStorage w))
    /\ form_complete f = form_complete (form w).
Proof.
  intros Hs Htext.
  assert (Hv : forall k, exists v, get_prop settings k = Ret v)
    by (intros k; destruct settings; try discriminate Hs; eexists; reflexivity).
  assert (Hstep : forall id (k : M World unit) d s c1 st,
    bind (assign id to_boolean settings) (fun _ => k) (mkWorld d s (Some c1) st) =
    match c1 !! id with
    | Some _ => k (mkWorld d s (Some (<[id := JBool (truthy (Chat.prop_of settings id))]> c1)) st)
    | None => (Throw TypeError, mkWorld d s (Some c1) st)
    end).
  { intros id k d s c1 st. destruct (Hv id) as [v Hid].
    unfold bind.
    rewrite (assign_run id to_boolean settings (mkWorld d s (Some c1) st) c1 v
               (JBool (truthy v)) eq_refl Hid eq_refl).
    unfold Chat.prop_of. rewrite Hid. destruct (c1 !! id); reflexivity. }
  assert (Hlast : forall d s c1 st,
    assign "dataRetentionPeriod" to_value settings (mkWorld d s (Some c1) st) =
    match c1 !! "dataRetentionPeriod" with
    | Some _ => (Ret tt,
                 mkWorld d s (Some (<["dataRetentionPeriod" :=
                                        Chat.prop_of settings "dataRetentionPeriod"]> c1)) st)
    | None => (Throw TypeError, mkWorld d s (Some c1) st)
    end).
  { intros d s c1 st. destruct (Hv "dataRetentionPeriod") as [v Hid].
    unfold Chat.prop_of in *. rewrite Hid in *.
    apply (assign_run "dataRetentionPeriod" to_value settings
             (mkWorld d s (Some c1) st) c1 v v eq_refl Hid).
    unfold to_value. rewrite Htext. reflexivity. }
  destruct w as [d s [c|] st]; unfold applyPrivacySettings, bind at 1, gets at 1;
    cbn [form doc successes localStorage];
    [|exists None; split; reflexivity].
  remember (form_complete (Some c)) as fc eqn:Hfc.
  assert (Hdone : forall r (c' : gmap string jsval) (b : bool),
    (forall k, is_Some (c' !! k) <-> is_Some (c !! k)) ->
    r = (if b then Ret tt else Throw TypeError) ->
    b = fc ->
    exists f, (r, mkWorld d s (Some c') st)
              = (if fc then Ret tt else Throw TypeError, mkWorld d s f st)
              /\ form_complete f = fc).
  { intros r c' b Hdom -> ->. exists (Some c'). split; [reflexivity|].
    rewrite Hfc. unfold form_complete, control_ids. cbn [forallb].
    rewrite !(bool_decide_ext _ _ (Hdom _)). reflexivity. }
  unfold form_complete, control_ids in Hfc. cbn [forallb] in Hfc.
  assert (Hins : forall id v (c' : gmap string jsval),
    is_Some (c !! id) ->
    (forall k, is_Some (c' !! k) <-> is_Some (c !! k)) ->
    forall k, is_Some (<[id := v]> c' !! k) <-> is_Some (c !! k)).
  { intros id v c' Hid Hdom k. destruct (decide (id = k)) as [->|Hne].
    - rewrite lookup_insert_eq. split; [intros _; exact Hid | intros _; eexists; reflexivity].
    - rewrite lookup_insert_ne by exact Hne. apply Hdom. }
  rewrite Hstep.
  destruct (c !! "documentStorage") as [x1|] eqn:E1;
    [|apply (Hdone _ c false); [tauto | reflexivity | rewrite Hfc; known]].
  rewrite Hstep, lookup_insert_ne by discriminate.
  destruct (c !! "analyticsConsent") as [x2|] eqn:E2;
    [|eapply (Hdone _ _ false); [apply Hins; [rewrite E1; eauto | tauto] | reflexivity |
        rewrite Hfc; known]].
  rewrite Hstep, !lookup_insert_ne by discriminate.
  destruct (c !! "thirdPartySharing") as [x3|] eqn:E3;
    [|eapply (Hdone _ _ false);
       [apply Hins; [rewrite E2; eauto|]; apply Hins; [rewrite E1; eauto | tauto]
       | reflexivity
       | rewrite Hfc; known]].
  rewrite Hstep, !lookup_insert_ne by discriminate.
  destruct (c !! "marketingConsent") as [x4|] eqn:E4;
    [|eapply (Hdone _ _ false);
       [apply Hins; [rewrite E3; eauto|]; apply Hins; [rewrite E2; eauto|];
        apply Hins; [rewrite E1; eauto | tauto]
       | reflexivity
       | rewrite Hfc; known]].
  rewrite Hlast, !lookup_insert_ne by discriminate.
  destruct (c !! "dataRetentionPeriod") as [x5|] eqn:E5.
  - eapply (Hdone _ _ true);
      [apply Hins; [rewrite E5; eauto|]; apply Hins; [rewrite E4; eauto|];
       apply Hins; [rewrite E3; eauto|]; apply Hins; [rewrite E2; eauto|];
       apply Hins; [rewrite E1; eauto | tauto]
      | reflexivity
      | rewrite Hfc; known].
  - eapply (Hdone _ _ false);
      [apply Hins; [rewrite E4; eauto|];
       apply Hins; [rewrite E3; eauto|]; apply Hins; [rewrite E2; eauto|];
       apply Hins; [rewrite E1; eauto | tauto]
      | reflexivity
      | rewrite Hfc; known].
Qed.


Lemma privacy_on_doc_run {A} (m : M Doc.World A) w :
  on_doc m w = (outcome m (doc w), with_doc (fun _ => exec m (doc w)) w).
Proof. unfold on_doc, zoom, outcome, exec. destruct (m (doc w)). reflexivity. Qed.

Lemma showSuccess_run message w :
  showSuccess message w =
  if can_alert (doc w)
  then (Ret tt, mkWorld (doc w) (successes w ++ [message]) (form w) (localStorage w))
  else (Throw (match Doc.main_card (doc w) with None => TypeError | Some _ => NotFoundError end),
        w).
Proof.
  unfold showSuccess, can_alert, bind, gets.
  destruct (Doc.main_card (doc w)); [|reflexivity].
  destruct (Doc.tab_content_at (doc w)); reflexivity.
Qed.

Lemma resetPrivacySettings_run w :
  exists f,
    resetPrivacySettings w =
      (if form_complete (form w) then Ret tt else Throw TypeError,
       mkWorld (doc w) (successes w) f
               (if form_complete (form w)
                then <["privacySettings" := JSON_stringify defaultSettings]> (localStorage w)
                else localStorage w))
    /\ form_complete f = form_complete (form w).
Proof.
  destruct (applyPrivacySettings_run defaultSettings w eq_refl eq_refl) as (f & Ha & Hf).
  exists f. split; [|exact Hf].
  unfold resetPrivacySettings, bind. rewrite Ha.
  destruct (form_complete (form w)); reflexivity.
Qed.

(** X17. What [handleDataDeletion] leaves in local storage once its request
    has ended: after an [ok] response on a page where the success alert can
    be inserted, only [privacySettings] with the default settings, or
    nothing at all when the settings form is in the page but lacks one of
    its five controls; after any other response, a rejected request, or on a
    page where the alert cannot be inserted, what was there before. *)
Theorem data_deletion_leaves_default_settings r w :
  localStorage (exec (handleDataDeletion_resume r) w) =
  match r with
  | Status true _ =>
      if can_alert (doc w) then
        if form_complete (form w)
        then {[ "privacySettings" := JSON_stringify defaultSettings ]}
        else ∅
      else localStorage w
  | _ => localStorage w
  end.
Proof.
  assert (Hh : forall e w1,
    localStorage (handleDataDeletion_resume_handler e w1).2 = localStorage w1).
  { intros e w1. unfold handleDataDeletion_resume_handler.
    rewrite privacy_on_doc_run. reflexivity. }
  unfold handleDataDeletion_resume, exec, try_catch.
  fold handleDataDeletion_resume_handler.
  destruct r as [|[|] j]; cbn [throw]; try apply Hh.
  unfold bind at 1. rewrite showSuccess_run.
  destruct (can_alert (doc w)); [|apply Hh].
  unfold clearLocalStorage. unfold bind at 2. unfold modify at 1.
  unfold bind.
  set (w1 := with_storage _ _).
  destruct (resetPrivacySettings_run w1) as (f1 & H1 & Hf1).
  rewrite H1. clear H1. subst w1. cbn [with_storage form doc successes localStorage] in *.
  destruct (form_complete (form w)); [|apply Hh].
  set (w2 := mkWorld _ _ _ _).
  destruct (resetPrivacySettings_run w2) as (f2 & H2 & Hf2).
  rewrite H2. clear H2. subst w2. cbn [form doc successes localStorage] in *. rewrite Hf1.
  cbn [snd localStorage]. rewrite insert_insert_eq. reflexivity.
Qed.

(** X18. With [JSON.parse] inverting [JSON.stringify] on JSON values: after
    [savePrivacySettingsToLocal(settings)] for a JSON value [settings],
    [loadPrivacySettings] does what [applyPrivacySettings(settings)] does,
    with the same outcome. *)
Theorem saved_settings_applied_on_load {PL : PlatformLaws P} settings w :
  is_json settings = true ->
  let w1 := exec (savePrivacySettingsToLocal settings) w in
  loadPrivacySettings w1 = applyPrivacySettings settings w1.
Proof.
  intros Hj. cbn zeta. unfold loadPrivacySettings, bind at 1. unfold gets at 1.
  unfold savePrivacySettingsToLocal, exec, modify. cbn [snd with_storage localStorage].
  rewrite lookup_insert_eq, JSON_stringify_nonempty, (JSON_parse_stringify _ Hj).
  reflexivity.
Qed.

End WithPlatform.

Lemma saved_settings_applied_on_load_witness :
  let w1 := exec (savePrivacySettingsToLocal (P:=RefPlatform.platform) strict_settings)
                 visited in
  loadPrivacySettings (P:=RefPlatform.platform) w1 = applyPrivacySettings strict_settings w1.
Proof.
  apply (saved_settings_applied_on_load (P:=RefPlatform.platform) strict_settings visited).
  reflexivity.
Defined.

End PrivacySpec.

(* ------------------------------------------------------------------ *)
(** ** DocumentProcessor: the star rating *)
(* ------------------------------------------------------------------ *)

Module StarsSpec.
Import QArith Qround.
Import Stars.
#[local] Open Scope Q_scope.

Lemma ceiling_floor_or_next r :
  (Qceiling r = Qfloor r /\ r == inject_Z (Qfloor r))
  \/ (Qceiling r = (Qfloor r + 1)%Z /\ inject_Z (Qfloor r) < r).
Proof.
  pose proof (Qfloor_le r) as H1. pose proof (Qlt_floor r) as H2.
  pose proof (Qle_ceiling r) as H3. pose proof (Qceiling_lt r) as H4.
  destruct r as [n d]. set (f := Qfloor (n # d)) in *. set (c := Qceiling (n # d)) in *.
  clearbody f c. unfold Qle, Qlt, Qeq, inject_Z in *. simpl in *.
  assert (Hc : (c = f \/ c = f + 1)%Z) by nia.
  destruct Hc as [-> | ->]; [left | right]; split; try reflexivity; nia.
Qed.

Lemma inject_Z_le a b : (a <= b)%Z -> inject_Z a <= inject_Z b.
Proof. intros H. rewrite <- Zle_Qle. exact H. Qed.

Lemma inject_Z_lt a b : (a < b)%Z -> inject_Z a < inject_Z b.
Proof. intros H. rewrite <- Zlt_Qlt. exact H. Qed.

Lemma Qle_bool_false x y : Qle_bool x y = false <-> y < x.
Proof.
  split.
  - intros H. apply Qnot_le_lt. intros Hle. apply Qle_bool_iff in Hle. congruence.
  - intros H. destruct (Qle_bool x y) eqn:E; [|reflexivity].
    apply Qle_bool_iff in E. exfalso. exact (Qlt_not_le _ _ H E).
Qed.

(** X19. [generateStarRating(rating)] for a finite [rating]: it returns
    markup exactly when the rating is between 0 and 5 and raises a
    RangeError otherwise; the markup has five icons, except that it has four
    when the fractional part of the rating lies strictly between 0 and one
    half. *)
Theorem generateStarRating_icons rating :
  match generateStarRating rating with
  | Icons l =>
      0 <= rating <= 5
      /\ length l = if small_fraction rating then 4%nat else 5%nat
  | RangeError => rating < 0 \/ 5 < rating
  end.
Proof.
  unfold generateStarRating, Array_fill, small_fraction, rem1.
  pose proof (Qfloor_le rating) as H1. pose proof (Qlt_floor rating) as H2.
  pose proof (Qle_ceiling rating) as H3. pose proof (Qceiling_lt rating) as H4.
  pose proof (ceiling_floor_or_next rating) as Hc.
  set (f := Qfloor rating) in *. set (c := Qceiling rating) in *.
  destruct (Z.leb_spec 0 f) as [Hf|Hf]; simpl.
  2:{ left. eapply Qlt_le_trans; [exact H2|].
      apply (inject_Z_le (f + 1) 0). lia. }
  destruct (Z.ltb_spec f (2 ^ 32)) as [Hf2|Hf2]; simpl.
  2:{ right. eapply Qlt_le_trans; [|exact H1].
      apply (inject_Z_lt 5 f). lia. }
  destruct (Z.leb_spec 0 (5 - c)) as [Hc5|Hc5]; simpl.
  2:{ right. eapply Qle_lt_trans; [|exact H4].
      apply (inject_Z_le 5 (c - 1)). lia. }
  assert (Hlt : (5 - c <? 2 ^ 32)%Z = true).
  { apply Z.ltb_lt. destruct Hc as [[-> _]|[-> _]]; lia. }
  rewrite Hlt.
  assert (H0 : 0 <= rating).
  { eapply Qle_trans; [|exact H1]. apply (inject_Z_le 0 f). exact Hf. }
  assert (H5 : rating <= 5).
  { eapply Qle_trans; [exact H3|]. apply (inject_Z_le c 5). lia. }
  split; [split; assumption|].
  assert (Hpos : Qle_bool 0 rating = true) by (apply Qle_bool_iff; exact H0).
  rewrite Hpos. fold f.
  rewrite !length_app, !length_replicate.
  destruct Hc as [[Hcf Heq]|[Hcf Hfr]].
  - assert (Hrem : rating - inject_Z f == 0) by (rewrite Heq; ring).
    assert (E1 : Qle_bool (rating - inject_Z f) 0 = true).
    { apply Qle_bool_iff. rewrite Hrem. apply Qle_refl. }
    assert (E2 : Qle_bool (1 # 2) (rating - inject_Z f) = false).
    { apply Qle_bool_false. rewrite Hrem. reflexivity. }
    rewrite E1, E2. simpl. rewrite Hcf. lia.
  - assert (E1 : Qle_bool (rating - inject_Z f) 0 = false).
    { apply Qle_bool_false. rewrite <- (Qplus_opp_r (inject_Z f)).
      apply Qplus_lt_l. exact Hfr. }
    rewrite E1. simpl.
    destruct (Qle_bool (1 # 2) (rating - inject_Z f)); simpl; rewrite Hcf; lia.
Qed.

Lemma generateStarRating_examples :
  generateStarRating (32 # 10) = Icons [FullStar; FullStar; FullStar; EmptyStar]
  /\ generateStarRating (35 # 10)
     = Icons [FullStar; FullStar; FullStar; HalfStar; EmptyStar]
  /\ generateStarRating (4 # 1)
     = Icons [FullStar; FullStar; FullStar; FullStar; EmptyStar]
  /\ generateStarRating (51 # 10) = RangeError.
Proof. repeat split; reflexivity. Qed.

End StarsSpec.

(* ------------------------------------------------------------------ *)
(** ** DocumentManager *)
(* ------------------------------------------------------------------ *)

Module ManagerSpec.
Import Manager.

Lemma string_length_app a b :
  String.length (a +:+ b) = (String.length a + String.length b)%nat.
Proof. induction a as [|c a IH]; simpl; [reflexivity | rewrite IH; reflexivity]. Qed.

Lemma substring_all s : String.substring 0 (String.length s) s = s.
Proof. induction s as [|c s IH]; simpl; [reflexivity | rewrite IH; reflexivity]. Qed.

Lemma substring_app_r a b :
  String.substring (String.length a) (String.length b) (a +:+ b) = b.
Proof. induction a as [|c a IH]; simpl; [apply substring_all | exact IH]. Qed.

Lemma substring_split s : forall k, (k <= String.length s)%nat ->
  s = String.substring 0 k s +:+ String.substring k (String.length s - k) s.
Proof.
  induction s as [|c s IH]; intros [|k] Hk; simpl in *; try reflexivity; try lia.
  - rewrite substring_all. reflexivity.
  - change (String c s
            = String c (String.substring 0 k s
                        +:+ String.substring k (String.length s - k) s)).
    f_equal. apply IH. lia.
Qed.

Lemma endsWith_iff s suffix :
  endsWith s suffix = true <-> exists stem, s = stem +:+ suffix.
Proof.
  unfold endsWith. split.
  - intros H. apply andb_true_iff in H as [Hl He].
    apply Nat.leb_le in Hl. apply String.eqb_eq in He.
    exists (String.substring 0 (String.length s - String.length suffix) s).
    pose proof (substring_split s (String.length s - String.length suffix)
                  ltac:(lia)) as Hs.
    replace (String.length s - (String.length s - String.length suffix))%nat
      with (String.length suffix) in Hs by lia.
    rewrite He in Hs. exact Hs.
  - intros [stem ->]. rewrite string_length_app.
    apply andb_true_iff. split; [apply Nat.leb_le; lia|].
    replace (String.length stem + String.length suffix - String.length suffix)%nat
      with (String.length stem) by lia.
    rewrite substring_app_r. apply String.eqb_refl.
Qed.

Lemma toLowerCase_length s : String.length (toLowerCase s) = String.length s.
Proof. induction s as [|c s IH]; simpl; [reflexivity | rewrite IH; reflexivity]. Qed.

(** X20. [isValidFileType] accepts a file exactly when its name in lower
    case ends with one of [.pdf], [.doc], [.docx], [.txt]; a name of fewer
    than four bytes is refused; and two names that agree in lower case are
    judged alike. *)
Theorem isValidFileType_by_suffix file :
  (isValidFileType file = true <->
   exists stem type, type ∈ validTypes /\ toLowerCase (name file) = stem +:+ type)
  /\ ((String.length (name file) < 4)%nat -> isValidFileType file = false)
  /\ (forall other, toLowerCase (name other) = toLowerCase (name file) ->
        isValidFileType other = isValidFileType file).
Proof.
  assert (Hiff : isValidFileType file = true <->
    exists stem type, type ∈ validTypes /\ toLowerCase (name file) = stem +:+ type).
  { unfold isValidFileType. rewrite existsb_exists. split.
    - intros (type & Hin & He). apply endsWith_iff in He as [stem Hs].
      exists stem, type. split; [apply list_elem_of_In; exact Hin | exact Hs].
    - intros (stem & type & Hin & Hs). exists type.
      split; [apply list_elem_of_In; exact Hin|]. apply endsWith_iff. eauto. }
  split; [exact Hiff|]. split.
  - intros Hlen. apply not_true_is_false. intros E.
    apply Hiff in E as (stem & type & Hin & Hs).
    apply (f_equal String.length) in Hs.
    rewrite toLowerCase_length, string_length_app in Hs.
    assert (4 <= String.length type)%nat; [|lia].
    unfold validTypes in Hin. set_unfold.
    destruct Hin as [->|[->|[->|[->|[]]]]]; simpl; lia.
  - intros other Ho. unfold isValidFileType. rewrite Ho. reflexivity.
Qed.

Lemma method_throws v m : method v m = Throw TypeError.
Proof. unfold method, get_prop, call. destruct v; reflexivity. Qed.

Ltac mrun :=
  repeat (unfold bind, ret, gets, modify, lift, throw, try_catch,
            alert, console_error, fetch; simpl).

Lemma addDocumentToList_throws document w :
  addDocumentToList document w = (Throw TypeError, w).
Proof. unfold addDocumentToList. mrun. rewrite method_throws. reflexivity. Qed.

Lemma uploadDocument_resume_run o w :
  uploadDocument_resume o w =
    (Ret tt, mkWorld (documents w) (alerts w ++ [upload_failed])
                     (console w ++ ["Error uploading document:"]) (network w)
                     (analysis_summary w) (analysis_points w)).
Proof.
  unfold uploadDocument_resume.
  destruct o as [|[|] [result|]]; mrun; try reflexivity.
  destruct (get_prop result "document") as [document|e]; mrun; [|reflexivity].
  rewrite addDocumentToList_throws. reflexivity.
Qed.

(** X21. However the upload request ends, [uploadDocument] returns normally,
    shows the alert that the upload failed, adds nothing to the list of
    documents and makes no further request: after an [ok] response
    [addDocumentToList] calls [querySelector] on its parameter [document],
    the uploaded record, which throws. *)
Theorem uploadDocument_never_succeeds o w :
  let w' := exec (uploadDocument_resume o) w in
  outcome (uploadDocument_resume o) w = Ret tt
  /\ documents w' = documents w
  /\ alerts w' = alerts w ++ [upload_failed]
  /\ network w' = network w.
Proof.
  unfold exec, outcome. rewrite uploadDocument_resume_run. repeat split.
Qed.

Lemma handleFileSelect_run files : forall replies w,
  (length (filter (fun f => isValidFileType f = true) files) <= length replies)%nat ->
  exists w',
    handleFileSelect files replies w = (Ret Finished, w')
    /\ alerts w' = alerts w ++ (alert_for <$> files)
    /\ network w' =
         network w ++ (Upload <$> filter (fun f => isValidFileType f = true) files)
    /\ documents w' = documents w.
Proof.
  induction files as [|file rest IH]; intros replies w Hlen.
  - exists w. simpl. rewrite !app_nil_r. repeat split.
  - simpl. unfold alert_for at 1. rewrite filter_cons in *.
    destruct (isValidFileType file) eqn:Ev.
    + rewrite decide_True in * by reflexivity.
      destruct replies as [|o later]; [simpl in Hlen; lia|].
      simpl in Hlen.
      erewrite bind_ret_eq; [|reflexivity].
      erewrite bind_ret_eq; [|apply uploadDocument_resume_run].
      edestruct (IH later) as (w' & Hr & Ha & Hn & Hd); [|exists w'; split; [exact Hr|]].
      { lia. }
      rewrite Ha, Hn, Hd. simpl. rewrite <- !app_assoc. repeat split.
    + rewrite decide_False in * by discriminate.
      erewrite bind_ret_eq; [|reflexivity].
      edestruct (IH replies) as (w' & Hr & Ha & Hn & Hd); [|exists w'; split; [exact Hr|]].
      { exact Hlen. }
      rewrite Ha, Hn, Hd. simpl. rewrite <- !app_assoc. repeat split.
Qed.

(** X22. When every upload it makes has been answered, [handleFileSelect]
    has returned normally, has shown one alert per chosen file, in the order
    of the files (the invalid-type alert naming a refused file, the upload-
    failure alert for an accepted one), has requested the upload of the
    accepted files and nothing else, in order, and has left the list of
    documents as it was. *)
Theorem handleFileSelect_alerts_every_file files replies w :
  (length (filter (fun f => isValidFileType f = true) files) <= length replies)%nat ->
  let w' := exec (handleFileSelect files replies) w in
  outcome (handleFileSelect files replies) w = Ret Finished
  /\ alerts w' = alerts w ++ (alert_for <$> files)
  /\ network w' =
       network w ++ (Upload <$> filter (fun f => isValidFileType f = true) files)
  /\ documents w' = documents w.
Proof.
  intros Hlen. destruct (handleFileSelect_run files replies w Hlen)
    as (w' & Hr & Ha & Hn & Hd).
  unfold exec, outcome. rewrite Hr. simpl. auto.
Qed.

Lemma deleteDocument_resume_run title document o w :
  deleteDocument_resume title document o w =
    (Ret tt, mkWorld (documents w) (alerts w ++ [delete_failed])
                     (console w ++ ["Error deleting document:"]) (network w)
                     (analysis_summary w) (analysis_points w)).
Proof.
  unfold deleteDocument_resume, delete_handler.
  destruct o as [|[|] json]; mrun; try reflexivity.
  rewrite method_throws. reflexivity.
Qed.

(** X23. However the delete request ends, [deleteDocument] returns normally,
    shows the alert that the deletion failed, leaves the list of documents
    as it was and makes no further request: after an [ok] response it calls
    [querySelector] on its local [document], the record found in the list,
    which throws. *)
Theorem deleteDocument_never_removes title document o w :
  let w' := exec (deleteDocument_resume title document o) w in
  outcome (deleteDocument_resume title document o) w = Ret tt
  /\ documents w' = documents w
  /\ alerts w' = alerts w ++ [delete_failed]
  /\ network w' = network w.
Proof.
  unfold exec, outcome. rewrite deleteDocument_resume_run. repeat split.
Qed.

Lemma analyzeCurrentDocument_resume_same o w :
  documents (exec (analyzeCurrentDocument_resume o) w) = documents w
  /\ network (exec (analyzeCurrentDocument_resume o) w) = network w.
Proof.
  unfold exec, analyzeCurrentDocument_resume, displayAnalysisResults.
  destruct o as [|[|] [analysis|]]; mrun; auto.
  destruct (get_prop analysis "summary") as [summary|e]; mrun; auto.
  destruct (analysis_summary w); mrun; auto.
  destruct (get_prop analysis "keyPoints") as [[| | | | |points|]|e]; mrun; auto.
  destruct (analysis_points w); mrun; auto.
Qed.

Lemma step_unlisted ev w : unlisted w -> unlisted (step ev w).
Proof.
  intros [Hd Hn]. destruct ev as [file|o|file| |o|title confirmed|title document o];
    unfold step, exec.
  - split; [exact Hd|]. simpl. apply Forall_app. split; [exact Hn|].
    constructor; [exact I | constructor].
  - rewrite uploadDocument_resume_run. split; assumption.
  - split; assumption.
  - split; assumption.
  - destruct (analyzeCurrentDocument_resume_same o w) as [H1 H2].
    unfold exec in H1, H2. split; [rewrite H1 | rewrite H2]; assumption.
  - unfold deleteDocument_begin. destruct confirmed; [|split; assumption].
    mrun. rewrite Hd. simpl. split; assumption.
  - rewrite deleteDocument_resume_run. split; assumption.
Qed.

(** X24. From a manager with an empty list, over any sequence of the
    handlers' steps (uploads started and settled, files refused, analyses
    and deletions asked for and settled), the list of documents stays empty
    and only uploads are ever requested: an analysis stops at
    [getCurrentDocumentId], which returns [null], and a deletion finds no
    document. *)
Theorem documents_never_listed evs summary points :
  let w := run evs (init summary points) in
  documents w = [] /\ Forall is_upload (network w).
Proof.
  simpl. assert (H : unlisted (init summary points)) by (split; constructor).
  revert H. generalize (init summary points).
  induction evs as [|ev evs IH]; intros w Hw; simpl; [exact Hw|].
  apply IH, step_unlisted, Hw.
Qed.

Lemma handleFileSelect_alerts_every_file_witness :
  let replies := [stored "Lease.PDF"; stored "will.docx"] in
  let w' := exec (handleFileSelect chosen replies) (init None None) in
  outcome (handleFileSelect chosen replies) (init None None) = Ret Finished
  /\ alerts w' = [] ++ (alert_for <$> chosen)
  /\ network w' = [] ++ (Upload <$> filter (fun f => isValidFileType f = true) chosen)
  /\ documents w' = [].
Proof.
  apply (handleFileSelect_alerts_every_file chosen
           [stored "Lease.PDF"; stored "will.docx"] (init None None)).
  vm_compute. lia.
Defined.

End ManagerSpec.
